(** * FintechResearcherBot: the query orchestration core, verified

    A shallow embedding of the Go sources under [internal/] and the
    properties of their specification.

    Conventions.
    - A Go [string] is a byte sequence: [String.string], whose characters
      are the 8-bit bytes.  [len] counts bytes.
    - A Go [int], [int64] or [time.Time] (nanoseconds) is a [Z]; no claim
      here reaches the wrap-around of 64-bit arithmetic.
    - A [float64] that is only compared and copied (search scores, agent
      confidences) is a rational, a [Q]: a decimal literal is the decimal
      it is written as, a quotient of integers is that quotient.  The
      values come from JSON documents, literals or integer quotients,
      never NaN, and rounding to the nearest [float64] keeps their
      order.
    - A function that can fail returns [option] or a sum; a slice
      expression out of range (a run-time panic) is [None].
    - Functions of the Go standard library whose code or tables are not
      part of this repository ([strings.TrimSpace], [strings.ToLower],
      [json.Unmarshal], [sort.Slice]) are Section variables, constrained
      by the part of their documented contract a proof uses.  Their
      behaviour on ASCII text, and the sorting algorithm of Go 1.24, are
      also transcribed, to run the code on concrete inputs. *)

From Stdlib Require Import ZArith QArith Qminmax List Permutation Sorted Lia Bool.
From Stdlib Require Import String Ascii.
From Equations Require Import Equations.
From stdpp Require Import gmap strings list pretty.

Local Open Scope Z_scope.

(** ** Go's [strings] package, on byte strings *)

Module GoStrings.

Definition len (s : string) : Z := Z.of_nat (String.length s).

(** [s[:n]] for [0 <= n <= len s]. *)
Fixpoint take (n : nat) (s : string) : string :=
  match n, s with
  | O, _ => EmptyString
  | S _, EmptyString => EmptyString
  | S n', String c s' => String c (take n' s')
  end.

(** [s[n:]] for [0 <= n <= len s]. *)
Fixpoint drop (n : nat) (s : string) : string :=
  match n, s with
  | O, _ => s
  | S _, EmptyString => EmptyString
  | S n', String _ s' => drop n' s'
  end.

Fixpoint HasPrefix (s prefix : string) : bool :=
  match prefix, s with
  | EmptyString, _ => true
  | String _ _, EmptyString => false
  | String p prefix', String c s' => Ascii.eqb c p && HasPrefix s' prefix'
  end.

Definition TrimPrefix (s prefix : string) : string :=
  if HasPrefix s prefix then drop (String.length prefix) s else s.

(** [strings.Contains s substr]. *)
Fixpoint Contains (s substr : string) : bool :=
  HasPrefix s substr ||
  match s with
  | EmptyString => false
  | String _ s' => Contains s' substr
  end.

(** [strings.IndexByte]: the offset of the first [c] in [s]. *)
Fixpoint IndexByte (s : string) (c : ascii) : option nat :=
  match s with
  | EmptyString => None
  | String d s' =>
      if Ascii.eqb d c then Some O else option_map S (IndexByte s' c)
  end.

(** The table [asciiSpace] of the package: tab, line feed, vertical tab,
    form feed, carriage return, space. *)
Definition asciiSpace (c : ascii) : bool :=
  match nat_of_ascii c with
  | 9%nat | 10%nat | 11%nat | 12%nat | 13%nat | 32%nat => true
  | _ => false
  end.

Fixpoint TrimLeft_ascii (s : string) : string :=
  match s with
  | EmptyString => EmptyString
  | String c s' => if asciiSpace c then TrimLeft_ascii s' else s
  end.

Fixpoint TrimRight_ascii (s : string) : string :=
  match s with
  | EmptyString => EmptyString
  | String c s' =>
      match TrimRight_ascii s' with
      | EmptyString => if asciiSpace c then EmptyString else String c EmptyString
      | r => String c r
      end
  end.

(** [strings.TrimSpace] as it runs on a string of ASCII bytes: the two
    scans of its fast path.  On a byte above 127 the library decodes
    UTF-8 and consults the Unicode White_Space table; that path is not
    transcribed, such a byte counts as a non-space here. *)
Definition TrimSpace_ascii (s : string) : string :=
  TrimRight_ascii (TrimLeft_ascii s).

(** [strings.Repeat] for a one-byte string. *)
Fixpoint Repeat (c : ascii) (n : nat) : string :=
  match n with
  | O => EmptyString
  | S n' => String c (Repeat c n')
  end.

(** [strings.ToLower] as it runs on a string of ASCII bytes: the letters
    A to Z go to a to z.  The Unicode case tables, which the library
    consults for a byte above 127, are not transcribed; such a byte is
    kept. *)
Definition lower_byte (c : ascii) : ascii :=
  let n := nat_of_ascii c in
  if (Nat.leb 65 n && Nat.leb n 90)%bool then ascii_of_nat (n + 32) else c.

Fixpoint ToLower_ascii (s : string) : string :=
  match s with
  | EmptyString => EmptyString
  | String c s' => String (lower_byte c) (ToLower_ascii s')
  end.

End GoStrings.

(** ** [internal/domain]: strategies and query requests *)

Module Domain.
Import GoStrings.

Inductive error : Set :=
| ErrEmptyQuery
| ErrQueryTooLong
| ErrInvalidStrategyType
| ErrInvalidMaxQueries
| ErrInvalidMaxResults
| ErrInvalidAnalysisIter
| ErrInvalidTimeoutSeconds.

(** [type StrategyType string] with its three constants. *)
Definition StrategyType := string.
Definition StrategyQuick : StrategyType := "quick".
Definition StrategyStandard : StrategyType := "standard".
Definition StrategyDeep : StrategyType := "deep".

Definition StrategyType_IsValid (s : StrategyType) : bool :=
  String.eqb s StrategyQuick || String.eqb s StrategyStandard
  || String.eqb s StrategyDeep.

Record Strategy := {
  Type_ : StrategyType;
  MaxQueries : Z;
  MaxResults : Z;
  MaxAnalysisIterations : Z;
  UseCritic : bool;
  TimeoutSeconds : Z
}.

(** [nil] is [None]. *)
Definition Strategy_Validate (s : Strategy) : option error :=
  if negb (StrategyType_IsValid (Type_ s)) then Some ErrInvalidStrategyType
  else if (MaxQueries s <? 1) || (10 <? MaxQueries s) then Some ErrInvalidMaxQueries
  else if (MaxResults s <? 1) || (100 <? MaxResults s) then Some ErrInvalidMaxResults
  else if MaxAnalysisIterations s <? 1 then Some ErrInvalidAnalysisIter
  else if TimeoutSeconds s <? 1 then Some ErrInvalidTimeoutSeconds
  else None.

Definition QuickStrategy : Strategy :=
  {| Type_ := StrategyQuick; MaxQueries := 1; MaxResults := 5;
     MaxAnalysisIterations := 1; UseCritic := false; TimeoutSeconds := 30 |}.

Definition StandardStrategy : Strategy :=
  {| Type_ := StrategyStandard; MaxQueries := 3; MaxResults := 15;
     MaxAnalysisIterations := 1; UseCritic := true; TimeoutSeconds := 60 |}.

Definition DeepStrategy : Strategy :=
  {| Type_ := StrategyDeep; MaxQueries := 5; MaxResults := 30;
     MaxAnalysisIterations := 3; UseCritic := true; TimeoutSeconds := 180 |}.

Definition MaxQueryLength : Z := 1000.

Record QueryRequest := {
  UserID : Z;
  Text : string;
  OnlyReliable : bool;
  Strategy_ : Strategy
}.

Section Query.
(** [strings.TrimSpace]. *)
Variable TrimSpace : string -> string.

Definition Validate (q : QueryRequest) : option error :=
  if String.eqb (TrimSpace (Text q)) "" then Some ErrEmptyQuery
  else if MaxQueryLength <? len (Text q) then Some ErrQueryTooLong
  else Strategy_Validate (Strategy_ q).

(** The method assigns to [q.Text]; the request after the call is
    returned. *)
Definition Sanitize (q : QueryRequest) : QueryRequest :=
  let text := TrimSpace (Text q) in
  {| UserID := UserID q;
     Text := if MaxQueryLength <? len text
             then take (Z.to_nat MaxQueryLength) text
             else text;
     OnlyReliable := OnlyReliable q;
     Strategy_ := Strategy_ q |}.

(** [service/query.go], [Process], lines 133 to 139: the request is
    validated, a failure is returned as it is, and only then is the
    request sanitized. *)
Definition Process_admit (req : QueryRequest) : error + QueryRequest :=
  match Validate req with
  | Some err => inl err
  | None => inr (Sanitize req)
  end.
End Query.

(** 999 letters, a space and one more letter: 1001 bytes that no
    trimming shortens. *)
Definition text_space_at_1000 : string :=
  Repeat "a" 999 +:+ " b".

Definition req_space_at_1000 : QueryRequest :=
  {| UserID := 1; Text := text_space_at_1000; OnlyReliable := false;
     Strategy_ := StandardStrategy |}.

(** 1001 spaces. *)
Definition req_blank_1001 : QueryRequest :=
  {| UserID := 1; Text := Repeat " " 1001; OnlyReliable := false;
     Strategy_ := StandardStrategy |}.

Definition req_padded : QueryRequest :=
  {| UserID := 1; Text := "  What is Go?  "; OnlyReliable := false;
     Strategy_ := StandardStrategy |}.

(** A request of user 123 with the standard strategy, as in the tests. *)
Definition request (text : string) : QueryRequest :=
  {| UserID := 123; Text := text; OnlyReliable := false;
     Strategy_ := StandardStrategy |}.

End Domain.

(** ** [internal/ratelimit]: the sliding-window limiter *)

Module Ratelimit.

(** A [time.Time] is its number of nanoseconds; [time.Now] is an input of
    each operation. *)
Definition Minute : Z := 60 * 1000000000.

Record Limiter := {
  requests : gmap Z (list Z);
  limit : Z;
  window : Z
}.

Record Config := { RequestsPerMinute : Z }.

(** [New] also starts the [cleanup] goroutine; its ticks are events of
    a run, below. *)
Definition New (cfg : Config) : Limiter :=
  let limit := RequestsPerMinute cfg in
  let limit := if limit <=? 0 then 10 else limit in
  {| requests := ∅; limit := limit; window := Minute |}.

(** [t.After(u)]. *)
Definition After (t u : Z) : bool := u <? t.

(** [l.requests[userID]]: a missing key reads as the nil slice. *)
Definition lookup_requests (l : Limiter) (userID : Z) : list Z :=
  default [] (requests l !! userID).

Definition Allow (now : Z) (userID : Z) (l : Limiter) : Limiter * bool :=
  let cutoff := now - window l in
  let old := lookup_requests l userID in
  let fresh := List.filter (fun t => After t cutoff) old in
  if limit l <=? Z.of_nat (length fresh) then
    ({| requests := <[userID := fresh]> (requests l);
        limit := limit l; window := window l |}, false)
  else
    ({| requests := <[userID := fresh ++ [now]]> (requests l);
        limit := limit l; window := window l |}, true).

(** One tick of [cleanup]: every entry is filtered, an entry left empty
    is deleted. *)
Definition cleanup_tick (now : Z) (l : Limiter) : Limiter :=
  let cutoff := now - window l in
  {| requests :=
       omap (fun ts =>
               match List.filter (fun t => After t cutoff) ts with
               | [] => None
               | fresh => Some fresh
               end) (requests l);
     limit := limit l; window := window l |}.

(** The operations that change a limiter, as the mutex serializes them. *)
Inductive event : Set :=
| EvAllow (now userID : Z)
| EvCleanup (now : Z).

Definition event_time (e : event) : Z :=
  match e with
  | EvAllow now _ => now
  | EvCleanup now => now
  end.

(** An answered call: its time, its principal and what [Allow] returned. *)
Record answer := { at_time : Z; principal : Z; allowed : bool }.

Definition step (st : Limiter * list answer) (e : event)
  : Limiter * list answer :=
  match e with
  | EvAllow now userID =>
      let (l', ok) := Allow now userID (fst st) in
      (l', snd st ++ [{| at_time := now; principal := userID; allowed := ok |}])
  | EvCleanup now => (cleanup_tick now (fst st), snd st)
  end.

Definition run (l : Limiter) (es : list event) : Limiter * list answer :=
  fold_left step es (l, []).

(** The answers given to one principal, in order. *)
Definition answers_of (userID : Z) (log : list answer) : list answer :=
  List.filter (fun a => principal a =? userID) log.

(** The times at which a principal was admitted, in order. *)
Definition admitted_at (userID : Z) (log : list answer) : list Z :=
  List.map at_time
    (List.filter (fun a => allowed a && (principal a =? userID)) log).

(** How many of the times lie in the closed interval from [lo] to [hi]. *)
Definition count_within (lo hi : Z) (ts : list Z) : Z :=
  Z.of_nat (length (List.filter (fun t => (lo <=? t) && (t <=? hi)) ts)).

(** The events that concern a principal: its own calls and the ticks. *)
Definition concerns (userID : Z) (e : event) : bool :=
  match e with
  | EvAllow _ u => u =? userID
  | EvCleanup _ => true
  end.

(** Two principals, a sweep, and a call after the window has passed. *)
Definition events_two_principals : list event :=
  [EvAllow 0 7; EvAllow 5 8; EvAllow 10 7; EvAllow 20 7; EvCleanup 30;
   EvAllow (Minute + 1) 7].

End Ratelimit.

(** ** Go's [sort.Slice] *)

Module GoSort.

Local Open Scope nat_scope.

(** The requirement of [sort.Interface] on [Less]: a strict weak
    ordering.  Two elements neither of which is less than the other are
    equal for the sort. *)
Record StrictWeakOrder {A : Type} (less : A -> A -> bool) : Prop := {
  less_irrefl : forall a, less a a = false;
  less_trans : forall a b c,
    less a b = true -> less b c = true -> less a c = true;
  less_cotrans : forall a b c,
    less a b = false -> less b c = false -> less a c = false
}.

(** No element is less than one that comes before it. *)
Definition ordered_by {A : Type} (less : A -> A -> bool) (l : list A) : Prop :=
  StronglySorted (fun a b => less b a = false) l.

(** What the documentation of [sort.Slice] promises: the slice is
    rearranged into an order that [less] accepts.  Nothing is promised on
    the relative order of equal elements. *)
Definition SortSlice (sort : forall A : Type, (A -> A -> bool) -> list A -> list A)
  : Prop :=
  forall (A : Type) (less : A -> A -> bool) (l : list A),
    StrictWeakOrder less ->
    Permutation l (sort A less l) /\ ordered_by less (sort A less l).

(** *** The implementation of Go 1.24 ([sort/zsortfunc.go])

    The pattern-defeating quicksort behind [sort.Slice], transcribed on a
    list that stands for the slice: [Less i j] and [Swap i j] are the
    closures [sort.Slice] builds from [less] and from the slice.  A loop
    is a recursion on the number of iterations it can still make. *)

Section Pdqsort.
Context {A : Type} (less : A -> A -> bool).

Definition Less (data : list A) (i j : nat) : bool :=
  match data !! i, data !! j with
  | Some x, Some y => less x y
  | _, _ => false
  end.

Definition Swap (data : list A) (i j : nat) : list A :=
  match data !! i, data !! j with
  | Some x, Some y => <[j := x]> (<[i := y]> data)
  | _, _ => data
  end.

(** [for j := i; j > a && Less(j, j-1); j-- { Swap(j, j-1) }] *)
Fixpoint insertion_shift (data : list A) (a j : nat) : list A :=
  match j with
  | O => data
  | S j' =>
      if (a <? j) && Less data j j'
      then insertion_shift (Swap data j j') a j'
      else data
  end.

(** [for i := a + 1; i < b; i++], with [n] iterations left. *)
Fixpoint insertion_loop (n : nat) (data : list A) (a i : nat) : list A :=
  match n with
  | O => data
  | S n' => insertion_loop n' (insertion_shift data a i) a (S i)
  end.

Definition insertionSort_func (data : list A) (a b : nat) : list A :=
  insertion_loop (b - (a + 1)) data a (a + 1).

Fixpoint siftDown_loop (n : nat) (data : list A) (root hi first : nat)
  : list A :=
  match n with
  | O => data
  | S n' =>
      let child := 2 * root + 1 in
      if hi <=? child then data
      else
        let child :=
          if (child + 1 <? hi) && Less data (first + child) (first + child + 1)
          then child + 1 else child in
        if negb (Less data (first + root) (first + child)) then data
        else siftDown_loop n' (Swap data (first + root) (first + child))
               child hi first
  end.

Definition siftDown_func (data : list A) (lo hi first : nat) : list A :=
  siftDown_loop hi data lo hi first.

(** [for i := (hi - 1) / 2; i >= 0; i--], with [n = i + 1]. *)
Fixpoint heap_build (n : nat) (data : list A) (hi first : nat) : list A :=
  match n with
  | O => data
  | S i => heap_build i (siftDown_func data i hi first) hi first
  end.

(** [for i := hi - 1; i >= 0; i--], with [n = i + 1]. *)
Fixpoint heap_pop (n : nat) (data : list A) (lo first : nat) : list A :=
  match n with
  | O => data
  | S i => heap_pop i (siftDown_func (Swap data first (first + i)) lo i first)
             lo first
  end.

Definition heapSort_func (data : list A) (a b : nat) : list A :=
  let first := a in
  let lo := 0 in
  let hi := b - a in
  let data := heap_build ((hi - 1) / 2 + 1) data hi first in
  heap_pop hi data lo first.

(** [for i <= j && Less(i, a) { i++ }] *)
Fixpoint skip_less (n : nat) (data : list A) (a i j : nat) : nat :=
  match n with
  | O => i
  | S n' =>
      if (i <=? j) && Less data i a then skip_less n' data a (S i) j else i
  end.

(** [for i <= j && !Less(j, a) { j-- }]; the index below [0] is never
    reached, [i] being above [a]. *)
Fixpoint skip_not_less (n : nat) (data : list A) (a i j : nat) : nat :=
  match n with
  | O => j
  | S n' =>
      if (i <=? j) && negb (Less data j a)
      then skip_not_less n' data a i (j - 1) else j
  end.

(** The [for] loop of [partition_func]. *)
Fixpoint partition_loop (n : nat) (data : list A) (a i j : nat)
  : list A * nat :=
  match n with
  | O => (data, j)
  | S n' =>
      let i := skip_less (length data) data a i j in
      let j := skip_not_less (length data) data a i j in
      if j <? i then (data, j)
      else partition_loop n' (Swap data i j) a (S i) (j - 1)
  end.

Definition partition_func (data : list A) (a b pivot : nat)
  : list A * nat * bool :=
  let data := Swap data a pivot in
  let i := a + 1 in
  let j := b - 1 in
  let i := skip_less (length data) data a i j in
  let j := skip_not_less (length data) data a i j in
  if j <? i then (Swap data j a, j, true)
  else
    let data := Swap data i j in
    let '(data, j) := partition_loop (length data) data a (S i) (j - 1) in
    (Swap data j a, j, false).

(** [for i <= j && !Less(a, i) { i++ }] *)
Fixpoint skip_not_greater (n : nat) (data : list A) (a i j : nat) : nat :=
  match n with
  | O => i
  | S n' =>
      if (i <=? j) && negb (Less data a i)
      then skip_not_greater n' data a (S i) j else i
  end.

(** [for i <= j && Less(a, j) { j-- }] *)
Fixpoint skip_greater (n : nat) (data : list A) (a i j : nat) : nat :=
  match n with
  | O => j
  | S n' =>
      if (i <=? j) && Less data a j
      then skip_greater n' data a i (j - 1) else j
  end.

Fixpoint partitionEqual_loop (n : nat) (data : list A) (a i j : nat)
  : list A * nat :=
  match n with
  | O => (data, i)
  | S n' =>
      let i := skip_not_greater (length data) data a i j in
      let j := skip_greater (length data) data a i j in
      if j <? i then (data, i)
      else partitionEqual_loop n' (Swap data i j) a (S i) (j - 1)
  end.

Definition partitionEqual_func (data : list A) (a b pivot : nat)
  : list A * nat :=
  let data := Swap data a pivot in
  partitionEqual_loop (length data) data a (a + 1) (b - 1).

(** [for i < b && !Less(i, i-1) { i++ }] *)
Fixpoint skip_ordered (n : nat) (data : list A) (b i : nat) : nat :=
  match n with
  | O => i
  | S n' =>
      if (i <? b) && negb (Less data i (i - 1))
      then skip_ordered n' data b (S i) else i
  end.

(** [for j := i - 1; j >= 1; j-- { if !Less(j, j-1) { break }; Swap(j, j-1) }],
    entered at [j]. *)
Fixpoint shift_left (data : list A) (j : nat) : list A :=
  match j with
  | O => data
  | S j' =>
      if negb (Less data j j') then data else shift_left (Swap data j j') j'
  end.

(** [for j := i + 1; j < b; j++ { if !Less(j, j-1) { break }; Swap(j, j-1) }] *)
Fixpoint shift_right (n : nat) (data : list A) (b j : nat) : list A :=
  match n with
  | O => data
  | S n' =>
      if b <=? j then data
      else if negb (Less data j (j - 1)) then data
      else shift_right n' (Swap data j (j - 1)) b (S j)
  end.

(** The outer loop of [partialInsertionSort_func], [n] steps left. *)
Fixpoint partialInsertion_loop (n : nat) (data : list A) (a b i : nat)
  : list A * bool :=
  match n with
  | O => (data, false)
  | S n' =>
      let i := skip_ordered (length data) data b i in
      if i =? b then (data, true)
      else if b - a <? 50 then (data, false)
      else
        let data := Swap data i (i - 1) in
        let data := if 2 <=? i - a then shift_left data (i - 1) else data in
        let data :=
          if 2 <=? b - i then shift_right (length data) data b (i + 1)
          else data in
        partialInsertion_loop n' data a b i
  end.

Definition partialInsertionSort_func (data : list A) (a b : nat)
  : list A * bool :=
  partialInsertion_loop 5 data a b (a + 1).

(** [bits.Len]: the number of bits of [x]. *)
Definition bits_Len (x : nat) : nat :=
  match x with
  | O => 0
  | _ => S (Nat.log2 x)
  end.

(** [xorshift.Next], on 64 bits. *)
Definition xorshift_Next (r : Z) : Z :=
  let r := Z.lxor r (Z.shiftl r 13 mod 2 ^ 64) in
  let r := Z.lxor r (Z.shiftr r 7) in
  Z.lxor r (Z.shiftl r 17 mod 2 ^ 64).

Fixpoint breakPatterns_loop (n : nat) (data : list A) (random : Z)
    (a length idx i : nat) : list A :=
  match n with
  | O => data
  | S n' =>
      let random := xorshift_Next random in
      let modulus := Z.shiftl 1 (Z.of_nat (bits_Len length)) in
      let other := Z.to_nat (Z.land random (modulus - 1)) in
      let other := if length <=? other then other - length else other in
      breakPatterns_loop n' (Swap data (idx - 1 + i) (a + other)) random
        a length idx (S i)
  end.

Definition breakPatterns_func (data : list A) (a b : nat) : list A :=
  let length := b - a in
  if 8 <=? length then
    let idx := a + length / 4 * 2 - 1 in
    breakPatterns_loop 3 data (Z.of_nat length) a length idx 0
  else data.

Inductive sortedHint : Set := unknownHint | increasingHint | decreasingHint.

(** The indices in order, and the count of swaps. *)
Definition order2_func (data : list A) (a b swaps : nat) : nat * nat * nat :=
  if Less data b a then (b, a, S swaps) else (a, b, swaps).

Definition median_func (data : list A) (a b c swaps : nat) : nat * nat :=
  let '(a, b, swaps) := order2_func data a b swaps in
  let '(b, c, swaps) := order2_func data b c swaps in
  let '(a, b, swaps) := order2_func data a b swaps in
  (b, swaps).

Definition medianAdjacent_func (data : list A) (a swaps : nat) : nat * nat :=
  median_func data (a - 1) a (a + 1) swaps.

Definition choosePivot_func (data : list A) (a b : nat) : nat * sortedHint :=
  let l := b - a in
  let swaps := 0 in
  let i := a + l / 4 * 1 in
  let j := a + l / 4 * 2 in
  let k := a + l / 4 * 3 in
  let '(j, swaps) :=
    if 8 <=? l then
      let '(i, j, k, swaps) :=
        if 50 <=? l then
          let '(i, swaps) := medianAdjacent_func data i swaps in
          let '(j, swaps) := medianAdjacent_func data j swaps in
          let '(k, swaps) := medianAdjacent_func data k swaps in
          (i, j, k, swaps)
        else (i, j, k, swaps) in
      median_func data i j k swaps
    else (j, swaps) in
  if swaps =? 0 then (j, increasingHint)
  else if swaps =? 12 then (j, decreasingHint)
  else (j, unknownHint).

Fixpoint reverseRange_loop (n : nat) (data : list A) (i j : nat) : list A :=
  match n with
  | O => data
  | S n' =>
      if i <? j then reverseRange_loop n' (Swap data i j) (S i) (j - 1)
      else data
  end.

Definition reverseRange_func (data : list A) (a b : nat) : list A :=
  reverseRange_loop (length data) data a (b - 1).

Definition is_increasing (h : sortedHint) : bool :=
  match h with increasingHint => true | _ => false end.

(** [pdqsort_func]: one turn of its [for] loop; the recursive call on the
    shorter side starts with both flags set, the next turn of the loop
    keeps the flags of this one.  Every turn and every call shortens the
    range, [n] bounds their number. *)
Fixpoint pdqsort_func (n : nat) (data : list A) (a b limit : nat)
    (wasBalanced wasPartitioned : bool) : list A :=
  match n with
  | O => data
  | S n' =>
      let length := b - a in
      if length <=? 12 then insertionSort_func data a b
      else if limit =? 0 then heapSort_func data a b
      else
        let '(data, limit) :=
          if negb wasBalanced then (breakPatterns_func data a b, limit - 1)
          else (data, limit) in
        let '(pivot, hint) := choosePivot_func data a b in
        let '(data, pivot, hint) :=
          match hint with
          | decreasingHint =>
              (reverseRange_func data a b, (b - 1) - (pivot - a), increasingHint)
          | _ => (data, pivot, hint)
          end in
        let '(data, done) :=
          if wasBalanced && wasPartitioned && is_increasing hint
          then partialInsertionSort_func data a b
          else (data, false) in
        if done then data
        else if (0 <? a) && negb (Less data (a - 1) pivot) then
          let '(data, mid) := partitionEqual_func data a b pivot in
          pdqsort_func n' data mid b limit wasBalanced wasPartitioned
        else
          let '(data, mid, alreadyPartitioned) :=
            partition_func data a b pivot in
          let leftLen := mid - a in
          let rightLen := b - mid in
          let balanceThreshold := length / 8 in
          if leftLen <? rightLen then
            let wasBalanced := balanceThreshold <=? leftLen in
            let data := pdqsort_func n' data a mid limit true true in
            pdqsort_func n' data (mid + 1) b limit wasBalanced
              alreadyPartitioned
          else
            let wasBalanced := balanceThreshold <=? rightLen in
            let data := pdqsort_func n' data (mid + 1) b limit true true in
            pdqsort_func n' data a mid limit wasBalanced alreadyPartitioned
  end.

End Pdqsort.

(** [sort.Slice(x, less)], where [less] compares the elements at two
    indices of [x]. *)
Definition Slice (A : Type) (less : A -> A -> bool) (x : list A) : list A :=
  let length := length x in
  let limit := bits_Len length in
  pdqsort_func less (2 * length + 1) x 0 length limit true true.

(** A straight insertion sort on lists, stable: an element goes behind
    the elements that are less and in front of all others. *)
Fixpoint insert_sorted {A : Type} (less : A -> A -> bool) (x : A) (l : list A)
  : list A :=
  match l with
  | [] => [x]
  | y :: l' => if less y x then y :: insert_sorted less x l' else x :: l
  end.

Definition insertion_sort (A : Type) (less : A -> A -> bool) (l : list A)
  : list A :=
  fold_right (insert_sorted less) [] l.

End GoSort.

(** ** [internal/search] and the search fan-out of [internal/service] *)

Module Search.

Record SearchResult := {
  Title : string;
  URL : string;
  Content : string;
  Score : Q;
  PublishedDate : string
}.

End Search.

Module Fanout.
Import Search.

(** [allResults[i].Score > allResults[j].Score], the [less] handed to
    [sort.Slice]. *)
Definition score_greater (a b : SearchResult) : bool :=
  negb (Qle_bool (Score a) (Score b)).

(** The body of the two nested [range] loops (lines 350 to 353), on the
    map [seen] and the slice [allResults]. *)
Definition collect (st : gmap string bool * list SearchResult)
    (r : SearchResult) : gmap string bool * list SearchResult :=
  let (seen, allResults) := st in
  if negb (default false (seen !! URL r))
  then (<[URL r := true]> seen, allResults ++ [r])
  else st.

(** Lines 345 to 355.  [chan] is what [resultsChan] holds once it is
    closed: the result lists of the sub-calls that succeeded, in the
    order in which they completed. *)
Definition merge (chan : list (list SearchResult))
  : gmap string bool * list SearchResult :=
  fold_left (fun st results => fold_left collect results st) chan (∅, []).

Section SearchWithCache.
(** [sort.Slice]. *)
Variable sort_Slice : forall A : Type, (A -> A -> bool) -> list A -> list A.
(** [s.searchSingleQuery], on the cache and the provider as they are
    during the call; [None] for an error. *)
Variable searchSingleQuery :
  string -> list string -> Z -> option (list SearchResult).
(** The order in which the goroutines of the call finish. *)
Variable completion : list string -> list string.

(** Lines 322 to 343: what [resultsChan] holds once [g.Wait] has
    returned.  A sub-call that fails is logged and sends nothing. *)
Definition resultsChan (queries domains : list string) (maxResults : Z)
  : list (list SearchResult) :=
  omap (fun query => searchSingleQuery query domains maxResults)
    (completion queries).

(** Lines 345 to 365.  [None] is the panic of [allResults[:maxResults]]
    for a negative [maxResults]. *)
Definition mergeResults (chan : list (list SearchResult)) (maxResults : Z)
  : option (list SearchResult) :=
  let allResults := snd (merge chan) in
  let allResults := sort_Slice SearchResult score_greater allResults in
  if maxResults <? Z.of_nat (length allResults) then
    if maxResults <? 0 then None
    else Some (firstn (Z.to_nat maxResults) allResults)
  else Some allResults.

(** The error that [searchWithCache] returns is always [nil]. *)
Definition searchWithCache (queries domains : list string) (maxResults : Z)
  : option (list SearchResult) :=
  mergeResults (resultsChan queries domains maxResults) maxResults.

End SearchWithCache.

(** Reference for the deduplication: the first result of every URL, in
    the order of first appearance. *)
Fixpoint first_seen (seen : list string) (rs : list SearchResult)
  : list SearchResult :=
  match rs with
  | [] => []
  | r :: rs' =>
      if existsb (String.eqb (URL r)) seen then first_seen seen rs'
      else r :: first_seen (URL r :: seen) rs'
  end.

(** Position of the first result with a given URL. *)
Fixpoint position (url : string) (rs : list SearchResult) : option nat :=
  match rs with
  | [] => None
  | r :: rs' =>
      if String.eqb (URL r) url then Some O
      else option_map S (position url rs')
  end.

Definition result (url : string) (score : Q) : SearchResult :=
  {| Title := url; URL := url; Content := ""; Score := score;
     PublishedDate := "" |}.

(** Thirteen results: the first scores 0.1, the twelve others 0.5
    each. *)
Definition results_thirteen : list SearchResult :=
  [result "https://a.example/01" (1 # 10);
    result "https://a.example/02" (1 # 2);
    result "https://a.example/03" (1 # 2);
    result "https://a.example/04" (1 # 2);
    result "https://a.example/05" (1 # 2);
    result "https://a.example/06" (1 # 2);
    result "https://a.example/07" (1 # 2);
    result "https://a.example/08" (1 # 2);
    result "https://a.example/09" (1 # 2);
    result "https://a.example/10" (1 # 2);
    result "https://a.example/11" (1 # 2);
    result "https://a.example/12" (1 # 2);
    result "https://a.example/13" (1 # 2)].

(** A provider that answers every query with these thirteen results. *)
Definition provider_thirteen (query : string) (domains : list string)
    (maxResults : Z) : option (list SearchResult) :=
  Some results_thirteen.

(** A provider whose answers to two queries overlap, and that fails on
    every other query. *)
Definition provider_overlap (query : string) (domains : list string)
    (maxResults : Z) : option (list SearchResult) :=
  if String.eqb query "payments" then
    Some [result "https://a.example/x" (9 # 10);
          result "https://a.example/y" (1 # 2)]
  else if String.eqb query "lending" then
    Some [result "https://a.example/y" (7 # 10);
          result "https://a.example/z" (4 # 5);
          result "https://a.example/w" (1 # 5)]
  else None.

Definition queries_overlap : list string := ["payments"; "broken"; "lending"].

(** Results with equal scores stand in [out] in the order in which their
    URLs were first seen. *)
Definition ties_in_first_seen_order (chan : list (list SearchResult))
    (out : list SearchResult) : Prop :=
  forall (i j : nat) (a b : SearchResult),
    (i < j)%nat -> out !! i = Some a -> out !! j = Some b ->
    (Score a == Score b)%Q ->
    exists p q : nat,
      position (URL a) (snd (merge chan)) = Some p /\
      position (URL b) (snd (merge chan)) = Some q /\ (p < q)%nat.

(** What Go 1.24 returns for [results_thirteen]: the seventh result
    comes first. *)
Definition out_thirteen : list SearchResult :=
  [result "https://a.example/07" (1 # 2);
   result "https://a.example/02" (1 # 2);
   result "https://a.example/03" (1 # 2);
   result "https://a.example/04" (1 # 2);
   result "https://a.example/05" (1 # 2);
   result "https://a.example/06" (1 # 2);
   result "https://a.example/08" (1 # 2);
   result "https://a.example/09" (1 # 2);
   result "https://a.example/10" (1 # 2);
   result "https://a.example/11" (1 # 2);
   result "https://a.example/12" (1 # 2);
   result "https://a.example/13" (1 # 2);
   result "https://a.example/01" (1 # 10)].

Definition out_overlap : list SearchResult :=
  [result "https://a.example/x" (9 # 10); result "https://a.example/z" (4 # 5);
   result "https://a.example/y" (1 # 2)].

End Fanout.

(** ** [internal/agent]: expert agents and their coordinator *)

Module Agents.
Import GoStrings.

Inductive error : Set :=
| ErrEmptyQuestion
| ErrNoAgentResponses
| ErrSynthesisFailed.

Record AgentRequest := {
  Question : string;
  SearchResults : list Search.SearchResult;
  Context : string;
  Strategy : Domain.Strategy
}.

Record AgentResponse := {
  AgentName : string;
  Content : string;
  Confidence : Q;
  SourceRefs : list string;
  Insights : list string
}.

(** The interface [Agent].  [Process] asks the language model; its answer
    is a function of the agent and the request here, [None] for an
    error. *)
Class Agent (T : Type) := {
  Name : T -> string;
  Expertise : T -> list string;
  CanHandle : T -> string -> Q;
  Process : T -> AgentRequest -> option AgentResponse
}.

Record BaseAgent := {
  name : string;
  expertise : list string;
  keywords : list string;
  systemPrompt : string
}.

Section BaseAgent.
(** [strings.ToLower]. *)
Variable ToLower : string -> string.

(** The quotient [float64(matches) / float64(len(b.keywords))] is the
    rational it rounds; against 0.5 both compare alike. *)
Definition BaseAgent_CanHandle (b : BaseAgent) (question : string) : Q :=
  if Z.of_nat (length (keywords b)) =? 0 then 0%Q
  else
    let q := ToLower question in
    let matches :=
      fold_left (fun matches kw =>
                   if Contains q (ToLower kw) then matches + 1 else matches)
        (keywords b) 0 in
    if matches =? 0 then 0%Q
    else
      let conf := (inject_Z matches / inject_Z (Z.of_nat (length (keywords b))))%Q in
      if negb (Qle_bool (1 # 2) conf) then (1 # 2)%Q else conf.

End BaseAgent.

Record Coordinator (T : Type) := {
  agents : list T;
  minConfidence : Q
}.
Arguments agents {T} _.
Arguments minConfidence {T} _.

Definition NewCoordinator {T : Type} (agents : list T) : Coordinator T :=
  {| agents := agents; minConfidence := 3 # 10 |}.

Record CoordinatorResponse := {
  FinalAnswer : string;
  AgentResponses : list AgentResponse;
  AgentsUsed : list string
}.

Definition maxAgentsFor (s : Domain.Strategy) : Z :=
  if String.eqb (Domain.Type_ s) Domain.StrategyQuick then 1
  else if String.eqb (Domain.Type_ s) Domain.StrategyStandard then 2
  else if String.eqb (Domain.Type_ s) Domain.StrategyDeep then 4
  else 2.

Section Coordinator.
Context {T : Type} `{Agent T}.

(** [sort.Slice]. *)
Variable sort_Slice : forall A : Type, (A -> A -> bool) -> list A -> list A.
(** [strings.TrimSpace]. *)
Variable TrimSpace : string -> string.
(** The order in which the goroutines of [runParallel] come to append
    their response. *)
Variable completion : list T -> list T.
(** The call of the language model in [synthesize], on the responses and
    the question; [None] for an error. *)
Variable synthesis : list AgentResponse -> string -> option string.

Definition AgentRequest_Validate (r : AgentRequest) : option error :=
  if String.eqb (TrimSpace (Question r)) "" then Some ErrEmptyQuestion
  else None.

(** [scores[i].score > scores[j].score] *)
Definition scored_greater (x y : T * Q) : bool :=
  negb (Qle_bool (snd x) (snd y)).

(** [None] is the panic of [result[:maxAgents]] for a negative
    [maxAgents]. *)
Definition selectAgents (c : Coordinator T) (question : string)
    (maxAgents : Z) : option (list T) :=
  if Z.of_nat (length (agents c)) =? 0 then Some []
  else
    let scores := List.map (fun a => (a, CanHandle a question)) (agents c) in
    let scores := sort_Slice (T * Q)%type scored_greater scores in
    let result :=
      List.map fst
        (List.filter (fun s => Qle_bool (minConfidence c) (snd s)) scores) in
    let result :=
      if Z.of_nat (length result) =? 0 then List.map fst scores else result in
    if maxAgents <? Z.of_nat (length result) then
      if maxAgents <? 0 then None
      else Some (firstn (Z.to_nat maxAgents) result)
    else Some result.

(** The responses of the agents that did not fail, as they came in. *)
Definition runParallel (agents : list T) (req : AgentRequest)
  : list AgentResponse :=
  omap (fun a => Process a req) (completion agents).

Definition synthesize (responses : list AgentResponse) (question : string)
  : option string :=
  if Z.of_nat (length responses) =? 0 then Some ""
  else synthesis responses question.

(** [Coordinator.Process]; the outer [None] is a panic. *)
Definition Coordinator_Process (c : Coordinator T) (req : AgentRequest)
  : option (error + CoordinatorResponse) :=
  match AgentRequest_Validate req with
  | Some err => Some (inl err)
  | None =>
      let maxAgents := maxAgentsFor (Strategy req) in
      match selectAgents c (Question req) maxAgents with
      | None => None
      | Some selected =>
          let responses := runParallel selected req in
          if Z.of_nat (length responses) =? 0 then Some (inl ErrNoAgentResponses)
          else
            let names := List.map AgentName responses in
            let answer :=
              match responses with
              | [r] => Some (Content r)
              | _ => synthesize responses (Question req)
              end in
            match answer with
            | None => Some (inl ErrSynthesisFailed)
            | Some answer =>
                Some (inr {| FinalAnswer := answer;
                             AgentResponses := responses;
                             AgentsUsed := names |})
            end
      end
  end.

End Coordinator.

(** The agent of the tests: a name and a fixed confidence. *)
Record mockAgent := { mock_name : string; canHandle : Q }.

#[global] Instance mockAgent_Agent : Agent mockAgent := {
  Name := mock_name;
  Expertise := fun m => [mock_name m +:+ " expertise"];
  CanHandle := fun m _ => canHandle m;
  Process := fun m _ =>
    Some {| AgentName := mock_name m; Content := "Response from " +:+ mock_name m;
            Confidence := canHandle m; SourceRefs := []; Insights := [] |}
}.

Definition mock (name : string) (confidence : Q) : mockAgent :=
  {| mock_name := name; canHandle := confidence |}.

Definition mock_agents : list mockAgent :=
  [ {| mock_name := "low"; canHandle := 1 # 5 |};
    {| mock_name := "high"; canHandle := 9 # 10 |};
    {| mock_name := "medium"; canHandle := 3 # 5 |};
    {| mock_name := "fair"; canHandle := 1 # 2 |} ].

Definition mock_request : AgentRequest :=
  {| Question := "test question"; SearchResults := []; Context := "";
     Strategy := Domain.StandardStrategy |}.

Definition market_agent : BaseAgent :=
  {| name := "market-analyst"; expertise := ["markets"];
     keywords := ["market"; "Investment"; "stock"; "price"; "revenue"];
     systemPrompt := "" |}.

End Agents.

(** ** [internal/domain/critic.go] and [internal/service/critic.go] *)

Module Critic.
Import GoStrings Search.

Record CriticResult := {
  Approved : bool;
  Issues : list string;
  Suggestions : list string;
  Confidence : Q
}.

Record CriticConfig := {
  MaxRetries : Z;
  StrictMode : bool
}.

Definition HasCriticalIssues (r : CriticResult) : bool :=
  0 <? Z.of_nat (length (Issues r)).

Definition NeedsRevision (r : CriticResult) : bool :=
  negb (Approved r) || (0 <? Z.of_nat (length (Issues r)))
  || (0 <? Z.of_nat (length (Suggestions r))).

Definition NeedsRevisionStrict (r : CriticResult) (strictMode : bool) : bool :=
  negb (Approved r) || (0 <? Z.of_nat (length (Issues r)))
  || (strictMode && (0 <? Z.of_nat (length (Suggestions r)))).

Inductive error : Set :=
| ErrInvalidMaxRetries
| ErrMaxRetriesExceeded
| ErrContext
| ErrLLM.

Definition CriticConfig_Validate (c : CriticConfig) : option error :=
  if MaxRetries c <? 0 then Some ErrInvalidMaxRetries
  else if 10 <? MaxRetries c then Some ErrMaxRetriesExceeded
  else None.

(** The loop of [extractJSON] from the first opening brace on: the number
    of bytes up to and including the brace that closes it, if there is
    one. *)
Fixpoint balanced (depth : Z) (s : string) : option nat :=
  match s with
  | EmptyString => None
  | String c s' =>
      if Ascii.eqb c "{" then option_map S (balanced (depth + 1) s')
      else if Ascii.eqb c "}" then
        if depth - 1 =? 0 then Some 1%nat
        else option_map S (balanced (depth - 1) s')
      else option_map S (balanced depth s')
  end.

Definition extractJSON (s : string) : string :=
  match IndexByte s "{" with
  | None => s
  | Some start =>
      match balanced 0 (drop start s) with
      | Some n => take n (drop start s)
      | None => drop start s
      end
  end.

Definition nl : string := String (ascii_of_nat 10) EmptyString.

(** What a failed parse is turned into. *)
Definition parse_failed : CriticResult :=
  {| Approved := true;
     Issues := ["critic_parse_failed: could not parse LLM response"];
     Suggestions := [];
     Confidence := 3 # 10 |}.

Section CriticService.
(** [json.Unmarshal] into the struct of the four fields; [None] when it
    returns an error. *)
Variable json_Unmarshal : string -> option CriticResult.
(** The text of the constant [CriticSystemPrompt]. *)
Variable CriticSystemPrompt : string.
(** [llm.CompleteWithSystem]; [None] for an error. *)
Variable CompleteWithSystem : string -> string -> option string.

Definition parseResponse (llmResponse : string) : CriticResult :=
  let jsonStr := extractJSON llmResponse in
  match json_Unmarshal jsonStr with
  | None => parse_failed
  | Some result =>
      {| Approved := Approved result; Issues := Issues result;
         Suggestions := Suggestions result; Confidence := Confidence result |}
  end.

Fixpoint buildPrompt_sources (i : Z) (sources : list SearchResult) : string :=
  match sources with
  | [] => ""
  | src :: rest =>
      let content := Content src in
      let content :=
        if 1500 <? len content then take 1500 content +:+ "..." else content in
      "[S" +:+ pretty (i + 1) +:+ "] " +:+ Title src +:+ " (" +:+ URL src
      +:+ ")" +:+ nl +:+ "Content: " +:+ content +:+ nl +:+ nl
      +:+ buildPrompt_sources (i + 1) rest
  end.

Definition buildPrompt (answer : string) (sources : list SearchResult)
    (question : string) : string :=
  "=== ORIGINAL QUESTION ===" +:+ nl +:+ question +:+ nl +:+ nl
  +:+ "=== SOURCES PROVIDED ===" +:+ nl
  +:+ (if Z.of_nat (length sources) =? 0 then "No sources provided." +:+ nl
       else buildPrompt_sources 0 sources)
  +:+ "=== ANSWER TO REVIEW ===" +:+ nl +:+ answer +:+ nl +:+ nl
  +:+ "=== INSTRUCTIONS ===" +:+ nl
  +:+ "Please evaluate the answer above. Check if all claims are supported by the sources, "
  +:+ "if the answer is complete, and if there are any hallucinations or unsupported facts. "
  +:+ "Respond with JSON only.".

(** [ctx_done] tells whether the context is already cancelled when
    [Review] is entered. *)
Definition Review (ctx_done : bool) (answer : string)
    (sources : list SearchResult) (question : string)
  : error + CriticResult :=
  if ctx_done then inl ErrContext
  else
    let userPrompt := buildPrompt answer sources question in
    match CompleteWithSystem CriticSystemPrompt userPrompt with
    | None => inl ErrLLM
    | Some response => inr (parseResponse response)
    end.

End CriticService.

(** A decoder that refuses every text: enough of [json.Unmarshal] for a
    response that holds no JSON at all. *)
Definition json_reject (s : string) : option CriticResult := None.

End Critic.

(** ** [internal/service/query.go]: source references and the critic loop *)

Module Service.
Import GoStrings Search Critic.

(** [type TrustLevel string] with its three constants. *)
Definition TrustLevel := string.
Definition TrustHigh : TrustLevel := "high".
Definition TrustMedium : TrustLevel := "medium".
Definition TrustLow : TrustLevel := "low".

Record SourceRef := {
  Marker : string;
  Title : string;
  URL : string;
  Trust : TrustLevel
}.

Record QueryResponse := {
  Text : string;
  Sources : list SourceRef
}.

Definition extractDomain (url : string) : string :=
  let url := TrimPrefix url "https://" in
  let url := TrimPrefix url "http://" in
  let url :=
    match IndexByte url "/" with
    | Some idx => take idx url
    | None => url
    end in
  TrimPrefix url "www.".

(** The zero value that [make] fills the slice with. *)
Definition zero_SourceRef : SourceRef :=
  {| Marker := ""; Title := ""; URL := ""; Trust := "" |}.

Definition sourceRef (trustMap : gmap string TrustLevel) (i : nat)
    (r : SearchResult) : SourceRef :=
  let trustLevel := TrustMedium in
  let resultDomain := extractDomain (Search.URL r) in
  let trustLevel :=
    match trustMap !! resultDomain with
    | Some level => level
    | None => trustLevel
    end in
  {| Marker := "[S" +:+ pretty (Z.of_nat i + 1) +:+ "]";
     Title := Search.Title r;
     URL := Search.URL r;
     Trust := trustLevel |}.

(** [for i, r := range results { refs[i] = ... }], from index [i] on. *)
Fixpoint toSourceRefs_loop (trustMap : gmap string TrustLevel) (i : nat)
    (results : list SearchResult) (refs : list SourceRef) : list SourceRef :=
  match results with
  | [] => refs
  | r :: rest =>
      toSourceRefs_loop trustMap (S i) rest (<[i := sourceRef trustMap i r]> refs)
  end.

Definition toSourceRefs (results : list SearchResult)
    (trustMap : gmap string TrustLevel) : list SourceRef :=
  let refs := replicate (length results) zero_SourceRef in
  toSourceRefs_loop trustMap 0 results refs.

(** [Process], lines 249 to 252. *)
Definition Process_response (answer : string) (results : list SearchResult)
    (trustMap : gmap string TrustLevel) : QueryResponse :=
  {| Text := answer; Sources := toSourceRefs results trustMap |}.

(** *** The critic loop

    The critic and the language model answer from outside the program: a
    call takes the state of the world and returns the next one.  The
    calls made are recorded. *)

Inductive call : Set :=
| CallReview (answer : string)
| CallImprove (answer : string).

Section ReviewWithCritic.
Variable World : Type.

Record state := { world : World; calls : list call }.

(** [s.critic.Review]; [None] for an error. *)
Variable critic_Review :
  string -> list SearchResult -> string -> World -> option CriticResult * World.
(** The call of the language model that [improveAnswer] ends with, on the
    arguments of [improveAnswer]; [None] for an error. *)
Variable improve_llm :
  string -> CriticResult -> list SearchResult -> string ->
  World -> option string * World.

Variable criticConfig : CriticConfig.
Variable sources : list SearchResult.
Variable question : string.

Definition M (A : Type) : Type := state -> A * state.
Definition ret {A : Type} (a : A) : M A := fun st => (a, st).
Definition bind {A B : Type} (m : M A) (k : A -> M B) : M B :=
  fun st => let (a, st') := m st in k a st'.

Definition Review (answer : string) : M (option CriticResult) :=
  fun st =>
    let (result, w) := critic_Review answer sources question (world st) in
    (result, {| world := w; calls := calls st ++ [CallReview answer] |}).

Definition improveAnswer (currentAnswer : string) (criticResult : CriticResult)
  : M (option string) :=
  fun st =>
    let (improved, w) :=
      improve_llm currentAnswer criticResult sources question (world st) in
    (improved, {| world := w; calls := calls st ++ [CallImprove currentAnswer] |}).

(** The [for] loop of [reviewWithCritic], entered with [attempt]. *)
Equations? critic_loop (attempt : Z) (currentAnswer : string) : M string
  by wf (Z.to_nat (MaxRetries criticConfig + 1 - attempt)) lt :=
critic_loop attempt currentAnswer with Z_le_gt_dec attempt (MaxRetries criticConfig) := {
  | right _ => ret currentAnswer
  | left _ =>
      bind (Review currentAnswer) (fun result =>
        match result with
        | None => ret currentAnswer
        | Some result =>
            if negb (NeedsRevisionStrict result (StrictMode criticConfig))
            then ret currentAnswer
            else if MaxRetries criticConfig <=? attempt then ret currentAnswer
            else
              bind (improveAnswer currentAnswer result) (fun improved =>
                match improved with
                | None => ret currentAnswer
                | Some improvedAnswer => critic_loop (attempt + 1) improvedAnswer
                end)
        end) }.
Proof. lia. Qed.

Definition reviewWithCritic (answer : string) : M string :=
  critic_loop 0 answer.

End ReviewWithCritic.

(** [NewQueryService], lines 106 to 108: the configuration the service
    keeps.  A [MaxRetries] of 0, the zero value, is taken as not set and
    becomes 2. *)
Definition NewQueryService_criticConfig (c : CriticConfig) : CriticConfig :=
  {| MaxRetries := if MaxRetries c =? 0 then 2 else MaxRetries c;
     StrictMode := StrictMode c |}.

Definition count_reviews (cs : list call) : Z :=
  Z.of_nat (length (List.filter
                      (fun c => match c with CallReview _ => true | _ => false end) cs)).

Definition count_improves (cs : list call) : Z :=
  Z.of_nat (length (List.filter
                      (fun c => match c with CallImprove _ => true | _ => false end) cs)).

(** A critic that rejects an answer until it holds two exclamation marks
    in a row, and a model that appends one; the world counts the calls. *)
Definition picky_critic (answer : string) (_ : list SearchResult) (_ : string)
    (w : nat) : option CriticResult * nat :=
  (Some {| Approved := Contains answer "!!"; Issues := [];
           Suggestions := []; Confidence := 1 # 2 |}, S w).

Definition eager_model (answer : string) (_ : CriticResult)
    (_ : list SearchResult) (_ : string) (w : nat) : option string * nat :=
  (Some (answer +:+ "!"), S w).

Definition results_two : list SearchResult :=
  [Fanout.result "https://www.example.com/a" (9 # 10);
   Fanout.result "http://news.example.org/b/c" (1 # 2)].

Definition trust_example : gmap string TrustLevel :=
  <["example.com" := TrustHigh]> ∅.

End Service.

(** ** [internal/cache/memory]: the cache with expiry *)

Module Cache.

Section Cache.
(** The type of the values kept, [interface{}] in the source. *)
Variable V : Type.

Record item := { value : V; expiresAt : Z }.

Record Cache := {
  items : gmap string item;
  stopped : bool
}.

(** [New] also starts the [cleanup] goroutine, whose ticks call
    [removeExpired]. *)
Definition New : Cache := {| items := ∅; stopped := false |}.

Definition Get (now : Z) (key : string) (c : Cache) : option V :=
  match items c !! key with
  | None => None
  | Some it =>
      if Ratelimit.After now (expiresAt it) then None else Some (value it)
  end.

Definition Set_ (now : Z) (key : string) (v : V) (ttl : Z) (c : Cache)
  : Cache :=
  {| items := <[key := {| value := v; expiresAt := now + ttl |}]> (items c);
     stopped := stopped c |}.

Definition Delete (key : string) (c : Cache) : Cache :=
  {| items := delete key (items c); stopped := stopped c |}.

Definition Stop (c : Cache) : Cache :=
  {| items := items c; stopped := true |}.

Definition removeExpired (now : Z) (c : Cache) : Cache :=
  {| items := filter (fun kv => ~ expiresAt (snd kv) < now) (items c);
     stopped := stopped c |}.

End Cache.

Arguments New {V}.
Arguments value {V} _.
Arguments expiresAt {V} _.
Arguments items {V} _.
Arguments stopped {V} _.
Arguments Get {V} _ _ _.
Arguments Set_ {V} _ _ _ _ _.
Arguments Delete {V} _ _.
Arguments Stop {V} _.
Arguments removeExpired {V} _ _.

End Cache.

(** ** [internal/service/query.go]: one cached search *)

Module CachedSearch.
Import GoStrings Search.

Record SearchRequest := {
  Query : string;
  IncludeDomains : list string;
  ExcludeDomains : list string;
  MaxResults : Z;
  SearchDepth : string;
  TimeRange : string;
  Topic : string
}.

Record SearchResponse := {
  RespQuery : string;
  Results : list SearchResult;
  ResponseTime : Q
}.

(** [strings.Join]. *)
Fixpoint Join (elems : list string) (sep : string) : string :=
  match elems with
  | [] => ""
  | [e] => e
  | e :: rest => e +:+ sep +:+ Join rest sep
  end.

Section SearchSingleQuery.
(** [strings.ToLower], [strings.TrimSpace], [strings.Fields]. *)
Variable ToLower : string -> string.
Variable TrimSpace : string -> string.
Variable Fields : string -> list string.
(** [sort.Strings], returning the sorted slice. *)
Variable sort_Strings : list string -> list string.
(** The text that [fmt.Sprintf] prints for the first eight bytes of the
    SHA-256 digest of the data, after the prefix. *)
Variable sha256_hex8 : string -> string.
(** [s.config.CacheTTL]. *)
Variable CacheTTL : Z.

Definition normalizeQuery (q : string) : string :=
  let q := ToLower q in
  let q := TrimSpace q in
  Join (Fields q) " ".

Definition cacheKey (query : string) (domains : list string) : string :=
  let normalized := normalizeQuery query in
  let sortedDomains := sort_Strings domains in
  let data := normalized +:+ Join sortedDomains "," in
  "search:" +:+ sha256_hex8 data.

(** [searchSingleQuery].  [search] is the provider at the time of the
    call, [None] for an error; [now] is the clock when the cache is read
    and [later] the clock when the answer of the provider is stored.  The
    cache only ever holds what this function has stored, so the type
    assertion on a cached value holds. *)
Definition searchSingleQuery (search : SearchRequest -> option SearchResponse)
    (now later : Z) (query : string) (domains : list string) (maxResults : Z)
    (c : Cache.Cache (list SearchResult))
  : option (list SearchResult) * Cache.Cache (list SearchResult) :=
  let cacheKey := cacheKey query domains in
  match Cache.Get now cacheKey c with
  | Some results => (Some results, c)
  | None =>
      match search {| Query := query; IncludeDomains := domains;
                      ExcludeDomains := []; MaxResults := maxResults;
                      SearchDepth := "basic"; TimeRange := ""; Topic := "" |} with
      | None => (None, c)
      | Some resp =>
          (Some (Results resp), Cache.Set_ later cacheKey (Results resp) CacheTTL c)
      end
  end.

End SearchSingleQuery.

(** What [sort.Strings] promises: the same strings, in increasing byte
    order. *)
Definition SortStrings (sort : list string -> list string) : Prop :=
  forall l, Permutation l (sort l) /\
            StronglySorted (fun a b => String.leb a b = true) (sort l).

(** Strings in byte order, as Go compares them. *)
Definition string_before (a b : string) : bool := negb (String.leb b a).

Definition sort_Strings_insertion (l : list string) : list string :=
  GoSort.insertion_sort string string_before l.

(** A stand-in for the digest that keeps the data as it is. *)
Definition plain_digest (data : string) : string := data.

(** [strings.Fields] on ASCII text: the maximal runs of bytes that are not
    white space.  [cur] is the field being read, if any. *)
Fixpoint Fields_from (cur : option string) (s : string) : list string :=
  match s with
  | EmptyString =>
      match cur with
      | Some f => [f]
      | None => []
      end
  | String c s' =>
      if asciiSpace c then
        match cur with
        | Some f => f :: Fields_from None s'
        | None => Fields_from None s'
        end
      else
        Fields_from (Some (match cur with
                           | Some f => f +:+ String c EmptyString
                           | None => String c EmptyString
                           end)) s'
  end.

Definition Fields_ascii (s : string) : list string := Fields_from None s.

Definition provider_fixed (results : list SearchResult)
    (req : SearchRequest) : option SearchResponse :=
  Some {| RespQuery := Query req; Results := results; ResponseTime := 1 # 2 |}.

Definition provider_down (req : SearchRequest) : option SearchResponse := None.

Definition results_cached : list SearchResult :=
  [ {| Title := "Open banking"; URL := "https://cbr.ru/openapi";
       Content := "standards"; Score := 9 # 10; PublishedDate := "" |} ].

Definition cache_after_first : Cache.Cache (list SearchResult) :=
  Cache.Set_ 1
    (cacheKey ToLower_ascii TrimSpace_ascii Fields_ascii sort_Strings_insertion
       plain_digest "Open  Banking" ["cbr.ru"; "arxiv.org"])
    results_cached 3600 Cache.New.

End CachedSearch.

(** ** [internal/ratelimit]: what a caller can read off a limiter *)

Module RatelimitRead.
Import Ratelimit.

Definition RemainingRequests (now : Z) (userID : Z) (l : Limiter) : Z :=
  let cutoff := now - window l in
  let cnt :=
    fold_left (fun cnt t => if After t cutoff then cnt + 1 else cnt)
      (lookup_requests l userID) 0 in
  let rem := limit l - cnt in
  if 0 <? rem then rem else 0.

(** [t.Before(u)]. *)
Definition Before (t u : Z) : bool := t <? u.

Definition ResetTime (now : Z) (userID : Z) (l : Limiter) : Z :=
  match lookup_requests l userID with
  | [] => now
  | t0 :: rest =>
      let oldest :=
        fold_left (fun oldest t => if Before t oldest then t else oldest)
          rest t0 in
      oldest + window l
  end.

(** The calls of a run, without the ticks of [cleanup]. *)
Definition is_call (e : event) : bool :=
  match e with
  | EvAllow _ _ => true
  | EvCleanup _ => false
  end.

(** No principal has more times stored than the limit. *)
Definition stored_within_limit (l : Limiter) : Prop :=
  forall u, Z.of_nat (length (lookup_requests l u)) <= limit l.

(** Two runs that have given the same answers so far, each limiter holding
    every admission that a call at [T] or later can still count. *)
Definition in_step (T : Z) (st1 st2 : Limiter * list answer) : Prop :=
  snd st1 = snd st2 /\
  limit (fst st1) = limit (fst st2) /\
  window (fst st1) = window (fst st2) /\
  forall u c, T - window (fst st1) <= c ->
    List.filter (fun t => After t c) (lookup_requests (fst st1) u)
    = List.filter (fun t => After t c) (lookup_requests (fst st2) u).

Definition events_burst : list event :=
  [EvAllow 0 7; EvAllow 10 7; EvAllow 20 7].

End RatelimitRead.

(** ** [internal/service/critic.go]: the text around the JSON object *)

Module CriticText.
Import GoStrings Critic.

(** The opening braces of a text less its closing braces. *)
Fixpoint brace_depth (s : string) : Z :=
  match s with
  | EmptyString => 0
  | String c s' =>
      (if Ascii.eqb c "{" then 1 else if Ascii.eqb c "}" then -1 else 0)
      + brace_depth s'
  end.

(** A text that opens with a brace and ends with the brace that closes
    it: its braces pair up, and not before its end. *)
Definition brace_group (obj : string) : bool :=
  HasPrefix obj "{" && (brace_depth obj =? 0)
  && forallb (fun n => 0 <? brace_depth (take n obj))
       (seq 1 (String.length obj - 1)).

End CriticText.

(** ** [internal/service/query.go]: the order of the calls of the critic loop *)

Module CriticProtocol.
Import Search Critic Service.

(** What the loop is to call next, given what its last call returned:
    the critic on an answer, the improving model on the answer just
    reviewed with the result of that review, or nothing after a call
    that failed. *)
Inductive expects : Type :=
| ExpectReview (answer : string)
| ExpectImprove (reviewed : string) (result : CriticResult)
| ExpectNothing.

Section Replay.
Variable World : Type.
Variable critic_Review :
  string -> list SearchResult -> string -> World -> option CriticResult * World.
Variable improve_llm :
  string -> CriticResult -> list SearchResult -> string ->
  World -> option string * World.
Variable sources : list SearchResult.
Variable question : string.

(** The record of the calls played again on the critic and the model,
    from the world [w] on.  [last] is the answer of the last call of the
    critic so far.  The result is that answer and the world at the end;
    [None] when a call of the record is not the one expected, or the
    record ends on an answer of the model that the critic has not
    seen. *)
Fixpoint replay (e : expects) (last : option string) (w : World)
    (cs : list call) : option (option string * World) :=
  match cs with
  | [] =>
      match e with
      | ExpectReview _ => None
      | _ => Some (last, w)
      end
  | CallReview a :: rest =>
      match e with
      | ExpectReview answer =>
          if String.eqb a answer then
            let (result, w') := critic_Review a sources question w in
            replay (match result with
                    | Some result => ExpectImprove a result
                    | None => ExpectNothing
                    end) (Some a) w' rest
          else None
      | _ => None
      end
  | CallImprove a :: rest =>
      match e with
      | ExpectImprove reviewed result =>
          if String.eqb a reviewed then
            let (improved, w') := improve_llm a result sources question w in
            replay (match improved with
                    | Some improvedAnswer => ExpectReview improvedAnswer
                    | None => ExpectNothing
                    end) last w' rest
          else None
      | _ => None
      end
  end.

End Replay.

End CriticProtocol.

(** ** [internal/telegram]: cutting a reply into messages *)

Module Telegram.
Import GoStrings.

(** [text[i]]; [None] is the panic of an index out of range. *)
Definition byte_at (text : string) (i : Z) : option ascii :=
  if i <? 0 then None else String.get (Z.to_nat i) text.

Definition is_break (c : ascii) : bool :=
  Ascii.eqb c (ascii_of_nat 10) || Ascii.eqb c " ".

(** The loop of [isInsideHTMLTag], at the index [i] of the text, which
    the caller has checked to be in range. *)
Fixpoint isInsideHTMLTag_from (text : string) (i : nat) : bool :=
  match String.get i text with
  | None => false
  | Some c =>
      if Ascii.eqb c ">" then false
      else if Ascii.eqb c "<" then true
      else
        match i with
        | O => false
        | S i' => isInsideHTMLTag_from text i'
        end
  end.

Definition isInsideHTMLTag (text : string) (pos : Z) : bool :=
  if (len text <=? pos) || (pos <? 0) then false
  else isInsideHTMLTag_from text (Z.to_nat pos).

(** The three loops of [findSafeSplitPoint].  Each is a recursion on the
    number of turns it can still make; [Some None] says that the loop has
    ended without a [return], [None] that an index was out of range. *)
Fixpoint split_backwards (text : string) (turns : nat) (i : Z)
  : option (option Z) :=
  match turns with
  | O => Some None
  | S turns' =>
      if len text <=? i then split_backwards text turns' (i - 1)
      else if isInsideHTMLTag text i then split_backwards text turns' (i - 1)
      else
        match byte_at text i with
        | None => None
        | Some c =>
            if is_break c then Some (Some (i + 1))
            else split_backwards text turns' (i - 1)
        end
  end.

(** [for j := i + 1; j < len(text) && j < i+50; j++]. *)
Fixpoint split_after_tag (text : string) (turns : nat) (j : Z) : option (option Z) :=
  match turns with
  | O => Some None
  | S turns' =>
      match byte_at text j with
      | None => None
      | Some c =>
          if is_break c then Some (Some (j + 1))
          else split_after_tag text turns' (j + 1)
      end
  end.

(** [for i := maxLen; i < len(text); i++]. *)
Fixpoint split_at_tag_end (text : string) (turns : nat) (i : Z)
  : option (option Z) :=
  match turns with
  | O => Some None
  | S turns' =>
      match byte_at text i with
      | None => None
      | Some c =>
          if Ascii.eqb c ">" then
            match split_after_tag text
                    (Z.to_nat (Z.min (len text) (i + 50) - (i + 1))) (i + 1) with
            | None => None
            | Some (Some p) => Some (Some p)
            | Some None => Some (Some (i + 1))
            end
          else split_at_tag_end text turns' (i + 1)
      end
  end.

(** [for i := maxLen - 1; i > 0; i--]. *)
Fixpoint split_last_break (text : string) (turns : nat) (i : Z)
  : option (option Z) :=
  match turns with
  | O => Some None
  | S turns' =>
      match byte_at text i with
      | None => None
      | Some c =>
          if is_break c then Some (Some (i + 1))
          else split_last_break text turns' (i - 1)
      end
  end.

(** [findSafeSplitPoint]; [None] for a panic.  [maxLen/2] is the
    division of Go, which rounds towards zero. *)
Definition findSafeSplitPoint (text : string) (maxLen : Z) : option Z :=
  match split_backwards text (Z.to_nat (maxLen - 1 - Z.quot maxLen 2))
          (maxLen - 1) with
  | None => None
  | Some (Some p) => Some p
  | Some None =>
      match
        (if (maxLen <? len text) && isInsideHTMLTag text maxLen
         then split_at_tag_end text (Z.to_nat (len text - maxLen)) maxLen
         else Some None)
      with
      | None => None
      | Some (Some p) => Some p
      | Some None =>
          match split_last_break text (Z.to_nat (maxLen - 1)) (maxLen - 1) with
          | None => None
          | Some (Some p) => Some p
          | Some None => Some maxLen
          end
      end
  end.

(** How a call ends: with a value, with a panic, or not within the turns
    it was given. *)
Inductive outcome (A : Type) : Type :=
| Returns (a : A)
| Panics
| Unfinished.

Arguments Returns {A} a.
Arguments Panics {A}.
Arguments Unfinished {A}.

(** The loop [for len(text) > 0] of [SplitMessage]. *)
Fixpoint SplitMessage_loop (turns : nat) (text : string) (maxLen : Z)
    (messages : list string) : outcome (list string) :=
  if 0 <? len text then
    match turns with
    | O => Unfinished
    | S turns' =>
        if len text <=? maxLen then Returns (messages ++ [text])
        else
          match findSafeSplitPoint text maxLen with
          | None => Panics
          | Some splitPoint =>
              let splitPoint :=
                if (splitPoint <=? 0) || (len text <? splitPoint)
                then maxLen else splitPoint in
              if (splitPoint <? 0) || (len text <? splitPoint) then Panics
              else
                SplitMessage_loop turns' (drop (Z.to_nat splitPoint) text) maxLen
                  (messages ++ [take (Z.to_nat splitPoint) text])
          end
    end
  else Returns messages.

(** [SplitMessage], its loop given as many turns as the text has
    bytes. *)
Definition SplitMessage (text : string) (maxLen : Z) : outcome (list string) :=
  if len text <=? maxLen then Returns [text]
  else SplitMessage_loop (String.length text) text maxLen [].

Definition truncateURL (url : string) (maxLen : Z) : option string :=
  if len url <=? maxLen then Some url
  else if (maxLen - 3 <? 0) || (len url <? maxLen - 3) then None
  else Some (take (Z.to_nat (maxLen - 3)) url +:+ "...").

(** [strings.Join] of the messages with the empty separator. *)
Definition concat_messages (ms : list string) : string :=
  fold_right String.append EmptyString ms.

Definition text_with_tag : string :=
  "See <a href=x>the report</a> for more details on this.".

Definition text_plain : string :=
  "Open banking lets third parties reach accounts through programming interfaces.".

End Telegram.

(** ** [internal/agent/agent.go]: what an agent makes of the model's text *)

Module AgentProcess.
Import GoStrings Search Agents.

(** [\d] of the regular expressions of Go: an ASCII digit. *)
Definition is_digit (c : ascii) : bool :=
  (48 <=? nat_of_ascii c)%nat && (nat_of_ascii c <=? 57)%nat.

Fixpoint digits_prefix (s : string) : string :=
  match s with
  | EmptyString => EmptyString
  | String c s' => if is_digit c then String c (digits_prefix s') else EmptyString
  end.

(** The match of the expression [\[S(\d+)\]] that starts at the first
    byte of [s], if there is one: the digits are taken as far as they go,
    and no shorter run can be followed by the closing bracket. *)
Definition match_ref (s : string) : option string :=
  if HasPrefix s "[S" then
    let ds := digits_prefix (drop 2 s) in
    if (0 <? len ds) && HasPrefix (drop (2 + String.length ds) s) "]"
    then Some ("[S" +:+ ds +:+ "]")
    else None
  else None.

(** [re.FindAllStringSubmatch(content, -1)], each match given by its
    whole text [m[0]]: the matches from left to right, the search going
    on behind each match.  [skip] counts the bytes of a match that are
    still to be passed. *)
Fixpoint FindAll (skip : nat) (s : string) : list string :=
  match s with
  | EmptyString => []
  | String _ s' =>
      match skip with
      | S k => FindAll k s'
      | O =>
          match match_ref s with
          | Some m => m :: FindAll (String.length m - 1) s'
          | None => FindAll 0 s'
          end
      end
  end.

(** One turn of the loop over the matches. *)
Definition keep_new (st : gmap string bool * list string) (m : string)
  : gmap string bool * list string :=
  let (seen, refs) := st in
  if negb (default false (seen !! m))
  then (<[m := true]> seen, refs ++ [m])
  else (seen, refs).

Definition parseSourceRefs (content : string) : list string :=
  let matches := FindAll 0 content in
  snd (fold_left keep_new matches (∅, [])).

(** None of the first [n] bytes of [s] is an opening bracket. *)
Fixpoint bracket_free (n : nat) (s : string) : bool :=
  match n, s with
  | O, _ => true
  | S _, EmptyString => true
  | S n', String c s' => negb (Ascii.eqb c "[") && bracket_free n' s'
  end.

(** A marker: an opening bracket, the letter S, digits and a closing
    bracket. *)
Definition is_marker (r : string) : Prop :=
  exists ds, r = "[S" +:+ ds +:+ "]" /\ ds <> EmptyString /\
             digits_prefix ds = ds.

Inductive error : Set :=
| ErrInvalidRequest (err : Agents.error)
| ErrLLMCallFailed.

Definition nl : string := String (ascii_of_nat 10) EmptyString.

Fixpoint buildUserPrompt_sources (i : Z) (results : list SearchResult) : string :=
  match results with
  | [] => ""
  | r :: rest =>
      "[S" +:+ pretty (i + 1) +:+ "] " +:+ Search.Title r +:+ nl
      +:+ "URL: " +:+ Search.URL r +:+ nl
      +:+ "Содержание: " +:+ Search.Content r +:+ nl +:+ nl
      +:+ buildUserPrompt_sources (i + 1) rest
  end.

Definition buildUserPrompt (req : AgentRequest) : string :=
  "Вопрос: " +:+ Question req +:+ nl +:+ nl
  +:+ (if negb (String.eqb (Context req) "")
       then "Контекст: " +:+ Context req +:+ nl +:+ nl else "")
  +:+ (if 0 <? Z.of_nat (length (SearchResults req))
       then "Источники:" +:+ nl +:+ buildUserPrompt_sources 0 (SearchResults req)
       else "").

Inductive response_error : Set :=
| ErrEmptyContent
| ErrInvalidConfidence.

Section Process.
(** [strings.ToLower], [strings.TrimSpace]. *)
Variable ToLower : string -> string.
Variable TrimSpace : string -> string.
(** [llmClient.CompleteWithSystem]; [None] for an error. *)
Variable CompleteWithSystem : string -> string -> option string.
(** [parseInsights], which reads the text with two regular expressions. *)
Variable parseInsights : string -> list string.

Definition AgentResponse_Validate (r : AgentResponse) : option response_error :=
  if String.eqb (TrimSpace (Agents.Content r)) "" then Some ErrEmptyContent
  else if negb (Qle_bool 0 (Confidence r)) || negb (Qle_bool (Confidence r) 1)
  then Some ErrInvalidConfidence
  else None.

Definition BaseAgent_Process (b : BaseAgent) (req : AgentRequest)
  : error + AgentResponse :=
  match AgentRequest_Validate TrimSpace req with
  | Some err => inl (ErrInvalidRequest err)
  | None =>
      let userPrompt := buildUserPrompt req in
      match CompleteWithSystem (systemPrompt b) userPrompt with
      | None => inl ErrLLMCallFailed
      | Some content =>
          let conf := BaseAgent_CanHandle ToLower b (Question req) in
          let conf := if negb (Qle_bool (1 # 2) conf) then (1 # 2)%Q else conf in
          inr {| AgentName := name b;
                 Agents.Content := content;
                 Confidence := conf;
                 SourceRefs := parseSourceRefs content;
                 Insights := parseInsights content |}
      end
  end.

End Process.

Definition answer_with_markers : string :=
  "Rates rose [S1], see also [S12] and again [S1]; [S] and [Sx] are no markers.".

End AgentProcess.

(** ** [internal/service/query.go]: [Process] from the request to the reply *)

Module QueryService.
Import GoStrings Search Critic Service.

(** [domain.Source]. *)
Record Source := {
  ID : Z;
  SourceUserID : Z;
  SourceURL : string;
  Name : string;
  TrustLevel_ : TrustLevel;
  IsUserAdded : bool;
  CreatedAt : Z
}.

(** What [Source.Domain] reads of a parsed [url.URL]. *)
Record ParsedURL := { Scheme : string; Host : string }.

Record CoordinatorResponse := {
  FinalAnswer : string;
  AgentsUsed : list string
}.

Record AgentCoordinatorRequest := {
  Question : string;
  SearchResults : list SearchResult;
  Context : string;
  Strategy : Domain.Strategy
}.

(** The errors [Process] returns: the one of [Validate], the one of the
    repository, the two of the package [domain], the one of the context
    and the one of the language model in [analyze]. *)
Inductive error : Set :=
| ErrValidation (err : Domain.error)
| ErrRepository
| ErrNoSources
| ErrContext
| ErrNoResults
| ErrLLM.

(** How a call ends: with a value, with an error, or with a panic. *)
Inductive result (A : Type) : Type :=
| Ok (a : A)
| Err (e : error)
| Panicked.

Arguments Ok {A} a.
Arguments Err {A} e.
Arguments Panicked {A}.

Section Process.
Variable World : Type.

(** [strings.TrimSpace], [sort.Slice], [url.Parse] and [json.Unmarshal]
    into the struct with the field [Queries]; [None] for an error. *)
Variable TrimSpace : string -> string.
Variable sort_Slice : forall A : Type, (A -> A -> bool) -> list A -> list A.
Variable url_Parse : string -> option ParsedURL.
Variable json_queries : string -> option (list string).

(** The parts of the service that answer from outside: each takes the
    world as it is and returns the world after the call.  An optional
    part is [None] when the field of the service is [nil]. *)
(** [s.worldModel.GetRelevantContext]; its error is dropped by [Process]. *)
Variable worldModel : option (Z -> string -> World -> string * World).
(** [s.sources.ListByUser]. *)
Variable sources_ListByUser : Z -> World -> option (list Source) * World.
(** The call of the language model in [expandQuery], on the arguments of
    [expandQuery]. *)
Variable expand_llm : string -> Z -> World -> option string * World.
(** [s.searchSingleQuery] and the order in which the goroutines of
    [searchWithCache] finish, in a given world, and the world after the
    search. *)
Variable searchSingleQuery :
  World -> string -> list string -> Z -> option (list SearchResult).
Variable completion : World -> list string -> list string.
Variable searched : World -> World.
(** [ctx.Err() != nil] after the search. *)
Variable ctx_Err : World -> bool.
(** [s.coordinator.Process]: [None] for an error, [Some None] for a [nil]
    response without an error. *)
Variable coordinator :
  option (AgentCoordinatorRequest -> World ->
          option (option CoordinatorResponse) * World).
(** The call of the language model in [analyze], on the arguments of
    [analyze]. *)
Variable analyze_llm :
  string -> list SearchResult -> World -> option string * World.
(** [s.critic.Review] and the call of the language model in
    [improveAnswer]. *)
Variable critic :
  option (string -> list SearchResult -> string -> World ->
          option CriticResult * World).
Variable improve_llm :
  string -> CriticResult -> list SearchResult -> string ->
  World -> option string * World.
Variable criticConfig : CriticConfig.

Local Abbreviation M := (Service.M World).
Local Abbreviation ret := (Service.ret World).
Local Abbreviation bind := (Service.bind World).

(** A call from outside that is not one of the critic loop: the world
    moves on, the record of the loop's calls stays. *)
Definition call_out {A : Type} (f : World -> A * World) : M A :=
  fun st =>
    let (a, w) := f (world World st) in
    (a, {| world := w; calls := calls World st |}).

Definition Source_Domain (s : Source) : string :=
  if String.eqb (SourceURL s) "" then ""
  else
    match url_Parse (SourceURL s) with
    | None => ""
    | Some u =>
        let host := Host u in
        if (4 <? len host) && String.eqb (take 4 host) "www."
        then drop 4 host else host
    end.

(** Lines 175 to 183: the domains to search and the trust of each;
    [collect_domain] is one turn of the loop. *)
Definition collect_domain (acc : list string * gmap string TrustLevel)
    (src : Source) : list string * gmap string TrustLevel :=
  let d := Source_Domain src in
  if negb (String.eqb d "")
  then (fst acc ++ [d], <[d := TrustLevel_ src]> (snd acc))
  else acc.

Definition collect_domains (userSources : list Source)
  : list string * gmap string TrustLevel :=
  fold_left collect_domain userSources ([], ∅).

Definition expandQuery (userQuery : string) (maxQueries : Z)
  : M (result (list string)) :=
  bind (call_out (expand_llm userQuery maxQueries)) (fun response =>
    match response with
    | None => ret (Err ErrLLM)
    | Some response =>
        match json_queries response with
        | None => ret (Ok [userQuery])
        | Some queries =>
            if Z.of_nat (length queries) =? 0 then ret (Ok [userQuery])
            else if maxQueries <? Z.of_nat (length queries) then
              if maxQueries <? 0 then ret Panicked
              else ret (Ok (firstn (Z.to_nat maxQueries) queries))
            else ret (Ok queries)
        end
    end).

(** Lines 185 to 194: the queries that go to the search. *)
Definition searchQueries_for (req : Domain.QueryRequest)
  : M (result (list string)) :=
  let maxQueries := Domain.MaxQueries (Domain.Strategy_ req) in
  let maxQueries := if maxQueries <=? 0 then 3 else maxQueries in
  bind (expandQuery (Domain.Text req) maxQueries) (fun r =>
    match r with
    | Err _ => ret (Ok [Domain.Text req])
    | other => ret other
    end).

(** [s.searchWithCache]: its error is always [nil]; [Panicked] is the
    panic of the slice expression. *)
Definition searchWithCache (queries domains : list string) (maxResults : Z)
  : M (result (list SearchResult)) :=
  fun st =>
    let w := world World st in
    (match Fanout.searchWithCache sort_Slice (searchSingleQuery w) (completion w)
             queries domains maxResults with
     | None => Panicked
     | Some results => Ok results
     end,
     {| world := searched w; calls := calls World st |}).

(** Lines 214 to 232: the answer of the coordinator, empty when there is
    no coordinator, when it fails or when it has nothing to say. *)
Definition coordinator_answer (req : Domain.QueryRequest)
    (results : list SearchResult) (worldContext : string) : M string :=
  match coordinator with
  | None => ret ""
  | Some process =>
      bind (call_out (process {| Question := Domain.Text req;
                                 SearchResults := results;
                                 Context := worldContext;
                                 Strategy := Domain.Strategy_ req |}))
        (fun r =>
           match r with
           | Some (Some coordResp) =>
               if negb (String.eqb (FinalAnswer coordResp) "")
               then ret (FinalAnswer coordResp) else ret ""
           | _ => ret ""
           end)
  end.

(** [Process].  The deadline that line 141 sets on the context shows in
    what the outside parts answer; the goroutine started at line 265
    runs behind the return. *)
Definition Process (req : Domain.QueryRequest) : M (result QueryResponse) :=
  match Domain.Validate TrimSpace req with
  | Some err => ret (Err (ErrValidation err))
  | None =>
      let req := Domain.Sanitize TrimSpace req in
      bind (match worldModel with
            | Some GetRelevantContext =>
                call_out (GetRelevantContext (Domain.UserID req) (Domain.Text req))
            | None => ret ""
            end) (fun worldContext =>
      bind (call_out (sources_ListByUser (Domain.UserID req))) (fun listed =>
        match listed with
        | None => ret (Err ErrRepository)
        | Some userSources =>
            if Z.of_nat (length userSources) =? 0 then ret (Err ErrNoSources)
            else
              let (domains, trustMap) := collect_domains userSources in
              bind (searchQueries_for req) (fun queries =>
                match queries with
                | Panicked => ret Panicked
                | Err e => ret (Err e)
                | Ok searchQueries =>
                    let maxResults := Domain.MaxResults (Domain.Strategy_ req) in
                    let maxResults := if maxResults <=? 0 then 15 else maxResults in
                    bind (searchWithCache searchQueries domains maxResults)
                      (fun found =>
                         match found with
                         | Panicked => ret Panicked
                         | Err e => ret (Err e)
                         | Ok results =>
                             bind (call_out (fun w => (ctx_Err w, w))) (fun done =>
                               if done then ret (Err ErrContext)
                               else if Z.of_nat (length results) =? 0
                               then ret (Err ErrNoResults)
                               else
                                 bind (coordinator_answer req results worldContext)
                                   (fun answer =>
                                 bind (if String.eqb answer ""
                                       then call_out (analyze_llm (Domain.Text req) results)
                                       else ret (Some answer))
                                   (fun analyzed =>
                                      match analyzed with
                                      | None => ret (Err ErrLLM)
                                      | Some answer =>
                                          bind (match critic with
                                                | Some critic_Review =>
                                                    if Domain.UseCritic (Domain.Strategy_ req)
                                                    then reviewWithCritic World critic_Review
                                                           improve_llm criticConfig results
                                                           (Domain.Text req) answer
                                                    else ret answer
                                                | None => ret answer
                                                end)
                                            (fun answer =>
                                               ret (Ok (Process_response answer results trustMap)))
                                      end)))
                         end)
                end)
        end))
  end.

End Process.

Definition source_cbr : Source :=
  {| ID := 1; SourceUserID := 123; SourceURL := "https://www.cbr.ru/";
     Name := "Bank of Russia"; TrustLevel_ := TrustHigh; IsUserAdded := true;
     CreatedAt := 0 |}.

(** Enough of [url.Parse] for the address of [source_cbr]. *)
Definition url_Parse_cbr (url : string) : option ParsedURL :=
  if String.eqb url "https://www.cbr.ru/"
  then Some {| Scheme := "https"; Host := "www.cbr.ru" |} else None.

Definition json_none (response : string) : option (list string) := None.

Definition sources_one (userID : Z) (w : nat) : option (list Source) * nat :=
  (Some [source_cbr], w).

Definition llm_down (userQuery : string) (maxQueries : Z) (w : nat)
  : option string * nat := (None, w).

Definition search_two (w : nat) (query : string) (domains : list string)
    (maxResults : Z) : option (list SearchResult) := Some results_two.

Definition analyze_fixed (userQuery : string) (results : list SearchResult)
    (w : nat) : option string * nat := (Some "Rates rose [S1].", S w).

(** One run of [Process]: a user with one source, a model that fails to
    expand the query, a search that finds two results, no coordinator, and
    the critic and the model of the tests of the loop. *)
Definition run_example : result QueryResponse * state nat :=
  Eval vm_compute in
    Process nat TrimSpace_ascii GoSort.insertion_sort url_Parse_cbr json_none
      None sources_one llm_down search_two (fun _ l => l) (fun w => w)
      (fun _ => false) None analyze_fixed (Some picky_critic) eager_model
      {| MaxRetries := 2; StrictMode := false |}
      (Domain.request "open banking")
      {| world := 0%nat; calls := [] |}.

Definition reply_example : QueryResponse :=
  Eval vm_compute in
    match fst run_example with
    | Ok resp => resp
    | _ => {| Text := ""; Sources := [] |}
    end.

End QueryService.

(** ** [internal/service/source.go] on the repository kept in memory *)

Module SourceStore.
Import GoStrings Service QueryService.

Definition MaxSourcesPerUser : Z := 100.

Inductive error : Set :=
| ErrInvalidURL
| ErrDuplicateSource
| ErrSourceNotFound
| ErrSourceLimitReached.

(** [MockSourceRepository]: the sources by their ID. *)
Record MockSourceRepository := {
  sources : gmap Z Source;
  nextID : Z
}.

Definition NewMockSourceRepository : MockSourceRepository :=
  {| sources := ∅; nextID := 1 |}.

Record SeedSource := { SeedURL : string; SeedName : string }.

Definition with_ID (s : Source) (id now : Z) : Source :=
  {| ID := id; SourceUserID := SourceUserID s; SourceURL := SourceURL s;
     Name := Name s; TrustLevel_ := TrustLevel_ s;
     IsUserAdded := IsUserAdded s; CreatedAt := now |}.

Definition with_TrustLevel (s : Source) (level : TrustLevel) : Source :=
  {| ID := ID s; SourceUserID := SourceUserID s; SourceURL := SourceURL s;
     Name := Name s; TrustLevel_ := level;
     IsUserAdded := IsUserAdded s; CreatedAt := CreatedAt s |}.

Definition same_user_url (userID : Z) (url : string) (s : Source) : bool :=
  (SourceUserID s =? userID) && String.eqb (SourceURL s) url.

(** An entry of the map that belongs to the user. *)
Definition of_user (userID : Z) (kv : Z * Source) : bool :=
  SourceUserID (snd kv) =? userID.

Section Repository.
(** [url.Parse]; [None] for an error. *)
Variable url_Parse : string -> option ParsedURL.
(** The order in which a [range] over the map visits its entries; Go
    leaves it open. *)
Variable visit : gmap Z Source -> list (Z * Source).

Definition Source_Validate (s : Source) : option error :=
  if String.eqb (SourceURL s) "" then Some ErrInvalidURL
  else
    match url_Parse (SourceURL s) with
    | None => Some ErrInvalidURL
    | Some u =>
        if negb (String.eqb (Scheme u) "http") && negb (String.eqb (Scheme u) "https")
        then Some ErrInvalidURL
        else if String.eqb (Host u) "" then Some ErrInvalidURL
        else None
    end.

(** The methods of the repository.  [now] is [time.Now()]. *)
Definition Create (now : Z) (source : Source) (m : MockSourceRepository)
  : MockSourceRepository * option error :=
  if existsb (fun kv => same_user_url (SourceUserID source) (SourceURL source) (snd kv))
       (visit (sources m))
  then (m, Some ErrDuplicateSource)
  else
    ({| sources := <[nextID m := with_ID source (nextID m) now]> (sources m);
        nextID := nextID m + 1 |}, None).

Definition Delete (userID sourceID : Z) (m : MockSourceRepository)
  : MockSourceRepository * option error :=
  match sources m !! sourceID with
  | Some source =>
      if negb (SourceUserID source =? userID) then (m, Some ErrSourceNotFound)
      else ({| sources := delete sourceID (sources m); nextID := nextID m |}, None)
  | None => (m, Some ErrSourceNotFound)
  end.

Definition ListByUser (userID : Z) (m : MockSourceRepository) : list Source :=
  List.map snd
    (List.filter (fun kv => SourceUserID (snd kv) =? userID) (visit (sources m))).

Definition ExistsByURL (userID : Z) (url : string) (m : MockSourceRepository)
  : bool :=
  existsb (fun kv => same_user_url userID url (snd kv)) (visit (sources m)).

Definition CountByUser (userID : Z) (m : MockSourceRepository) : Z :=
  fold_left (fun count kv =>
               if SourceUserID (snd kv) =? userID then count + 1 else count)
    (visit (sources m)) 0.

Definition UpdateTrustLevel (userID sourceID : Z) (level : TrustLevel)
    (m : MockSourceRepository) : MockSourceRepository * option error :=
  match sources m !! sourceID with
  | Some source =>
      if negb (SourceUserID source =? userID) then (m, Some ErrSourceNotFound)
      else ({| sources := <[sourceID := with_TrustLevel source level]> (sources m);
               nextID := nextID m |}, None)
  | None => (m, Some ErrSourceNotFound)
  end.

(** The methods of [sourceService] on this repository, whose reading
    methods return no error. *)
Definition Add (now : Z) (userID : Z) (url : string) (m : MockSourceRepository)
  : MockSourceRepository * option error :=
  let source :=
    {| ID := 0; SourceUserID := userID; SourceURL := url; Name := "";
       TrustLevel_ := TrustMedium; IsUserAdded := true; CreatedAt := 0 |} in
  match Source_Validate source with
  | Some err => (m, Some err)
  | None =>
      let count := CountByUser userID m in
      if MaxSourcesPerUser <=? count then (m, Some ErrSourceLimitReached)
      else
        let source :=
          {| ID := 0; SourceUserID := userID; SourceURL := url;
             Name := Source_Domain url_Parse source;
             TrustLevel_ := TrustMedium; IsUserAdded := true; CreatedAt := 0 |} in
        Create now source m
  end.

Definition Remove (userID sourceID : Z) (m : MockSourceRepository)
  : MockSourceRepository * option error :=
  Delete userID sourceID m.

Definition SetTrustLevel (userID sourceID : Z) (level : TrustLevel)
    (m : MockSourceRepository) : MockSourceRepository * option error :=
  UpdateTrustLevel userID sourceID level m.

(** The loop of [ImportSeed] over the seed sources that are still to be
    looked at. *)
Fixpoint ImportSeed_loop (now : Z) (userID : Z) (seedSources : list SeedSource)
    (imported : Z) (m : MockSourceRepository) : MockSourceRepository * Z :=
  match seedSources with
  | [] => (m, imported)
  | seed :: rest =>
      if ExistsByURL userID (SeedURL seed) m
      then ImportSeed_loop now userID rest imported m
      else
        let source :=
          {| ID := 0; SourceUserID := userID; SourceURL := SeedURL seed;
             Name := SeedName seed; TrustLevel_ := TrustHigh;
             IsUserAdded := false; CreatedAt := 0 |} in
        match Create now source m with
        | (m', Some _) => ImportSeed_loop now userID rest imported m'
        | (m', None) => ImportSeed_loop now userID rest (imported + 1) m'
        end
  end.

(** [seedSources] is what [json.Unmarshal] reads from the embedded file,
    which has been found to decode. *)
Definition ImportSeed (now : Z) (userID : Z) (seedSources : list SeedSource)
    (m : MockSourceRepository) : MockSourceRepository * Z :=
  ImportSeed_loop now userID seedSources 0 m.

(** The calls that reach the service, one after the other: a call is
    over before the next begins.  [AddSteps] below takes the calls of
    [Add] apart, for the goroutines that run side by side. *)
Inductive event : Set :=
| EvAdd (now userID : Z) (url : string)
| EvRemove (userID sourceID : Z)
| EvSetTrustLevel (userID sourceID : Z) (level : TrustLevel)
| EvImportSeed (now userID : Z) (seedSources : list SeedSource).

Definition step (m : MockSourceRepository) (e : event) : MockSourceRepository :=
  match e with
  | EvAdd now userID url => fst (Add now userID url m)
  | EvRemove userID sourceID => fst (Remove userID sourceID m)
  | EvSetTrustLevel userID sourceID level =>
      fst (SetTrustLevel userID sourceID level m)
  | EvImportSeed now userID seedSources =>
      fst (ImportSeed now userID seedSources m)
  end.

Definition run (es : list event) : MockSourceRepository :=
  fold_left step es NewMockSourceRepository.

(** The user in whose name a call is made. *)
Definition user_of (e : event) : Z :=
  match e with
  | EvAdd _ userID _ => userID
  | EvRemove userID _ => userID
  | EvSetTrustLevel userID _ _ => userID
  | EvImportSeed _ userID _ => userID
  end.

Definition is_import (e : event) : bool :=
  match e with
  | EvImportSeed _ _ _ => true
  | _ => false
  end.

End Repository.

(** What every [range] over a map keeps to: each entry is visited
    once. *)
Definition Visits (visit : gmap Z Source -> list (Z * Source)) : Prop :=
  forall m, Permutation (visit m) (map_to_list m).

(** The repository as the calls of the service leave it: every source is
    filed under its ID, the IDs given out lie below [nextID], and no user
    has two sources with one URL. *)
Definition well_kept (m : MockSourceRepository) : Prop :=
  (forall k s, sources m !! k = Some s -> ID s = k /\ k < nextID m) /\
  (forall k1 k2 s1 s2,
     sources m !! k1 = Some s1 -> sources m !! k2 = Some s2 ->
     SourceUserID s1 = SourceUserID s2 -> SourceURL s1 = SourceURL s2 ->
     k1 = k2).

(** Enough of [url.Parse] for addresses that start with https:// and
    go on with a host and no path. *)
Definition url_Parse_https (url : string) : option ParsedURL :=
  if HasPrefix url "https://"
  then Some {| Scheme := "https"; Host := TrimPrefix url "https://" |}
  else None.

Definition events_example : list event :=
  [EvAdd 10 7 "https://cbr.ru"; EvAdd 11 7 "https://cbr.ru";
   EvAdd 12 8 "https://cbr.ru"; EvRemove 8 1; EvSetTrustLevel 7 1 TrustHigh;
   EvAdd 13 7 "https://www.arxiv.org"].

Definition seeds_example : list SeedSource :=
  [{| SeedURL := "https://cbr.ru"; SeedName := "Bank of Russia" |};
   {| SeedURL := "https://www.bis.org"; SeedName := "BIS" |};
   {| SeedURL := "https://www.bis.org"; SeedName := "BIS again" |}].

End SourceStore.

(** ** [internal/service/worldmodel.go]: the context for a question *)

Module WorldModel.
Import GoStrings.

Definition MaxContextSize : Z := 2000.

(** [domain.Fact]. *)
Record Fact := {
  FactID : string;
  FactUserID : Z;
  FactContent : string;
  FactSourceURL : string;
  FactConfidence : Q;
  ExtractedAt : Z
}.

(** The cutset of [strings.Trim] in [extractKeywords]: full stop, comma,
    question mark, exclamation mark, semicolon, colon, the double and the
    single quote, and the round, square and curly brackets. *)
Definition in_cutset (c : ascii) : bool :=
  existsb (Ascii.eqb c)
    ["."; ","; "?"; "!"; ";"; ":"; ascii_of_nat 34; "'"; "("; ")"; "[";
     "]"; "{"; "}"]%char.

(** [strings.Trim] with that cutset.  All its members are ASCII, so no
    byte of a longer UTF-8 sequence is ever cut. *)
Fixpoint TrimLeft_cutset (s : string) : string :=
  match s with
  | EmptyString => EmptyString
  | String c s' => if in_cutset c then TrimLeft_cutset s' else s
  end.

Fixpoint TrimRight_cutset (s : string) : string :=
  match s with
  | EmptyString => EmptyString
  | String c s' =>
      match TrimRight_cutset s' with
      | EmptyString => if in_cutset c then EmptyString else String c EmptyString
      | r => String c r
      end
  end.

Definition Trim_cutset (s : string) : string :=
  TrimRight_cutset (TrimLeft_cutset s).

Definition stopWords : gmap string bool :=
  list_to_map
    (List.map (fun w => (w, true))
       ["the"; "a"; "an"; "is"; "are";
        "was"; "were"; "be"; "been"; "being";
        "have"; "has"; "had"; "do"; "does";
        "did"; "will"; "would"; "could"; "should";
        "may"; "might"; "must"; "shall";
        "about"; "above"; "after"; "again"; "all";
        "also"; "and"; "any"; "because"; "before";
        "between"; "but"; "by"; "can"; "for";
        "from"; "how"; "if"; "in"; "into";
        "it"; "its"; "just"; "me"; "more";
        "most"; "no"; "not"; "of"; "on";
        "or"; "other"; "out"; "over"; "own";
        "same"; "so"; "some"; "such"; "than";
        "that"; "their"; "them"; "then"; "there";
        "these"; "they"; "this"; "those"; "through";
        "to"; "too"; "under"; "up"; "very";
        "what"; "when"; "where"; "which"; "while";
        "who"; "whom"; "why"; "with"; "you";
        "your"; "tell"]).

Definition header : string :=
  "Relevant facts from previous research:" +:+ String (ascii_of_nat 10) EmptyString.

Definition factLine (fact : Fact) : string :=
  let factLine := "- " +:+ FactContent fact in
  let factLine :=
    if negb (String.eqb (FactSourceURL fact) "")
    then factLine +:+ " (source: " +:+ FactSourceURL fact +:+ ")"
    else factLine in
  factLine +:+ String (ascii_of_nat 10) EmptyString.

(** The loop that writes the facts, with its [break]. *)
Fixpoint write_facts (builder : string) (facts : list Fact) : string :=
  match facts with
  | [] => builder
  | fact :: rest =>
      if MaxContextSize <? len builder + len (factLine fact) then builder
      else write_facts (builder +:+ factLine fact) rest
  end.

(** The lines of the facts, one after the other. *)
Definition lines (facts : list Fact) : string :=
  fold_right (fun fact rest => factLine fact +:+ rest) EmptyString facts.

Section WorldModelService.
(** [strings.ToLower] and [strings.Fields]. *)
Variable ToLower : string -> string.
Variable Fields : string -> list string.
(** [s.repo.SearchFacts]; [None] for an error. *)
Variable SearchFacts : Z -> string -> option (list Fact).
(** The order in which the [range] over [factSet] visits it. *)
Variable visit : gmap string Fact -> list (string * Fact).

Definition extractKeywords (question : string) : list string :=
  let words := Fields (ToLower question) in
  fold_left
    (fun keywords word =>
       let word := Trim_cutset word in
       if negb (String.eqb word "") && negb (default false (stopWords !! word))
       then keywords ++ [word] else keywords)
    words [].

(** Lines 141 to 154: the facts found, by their ID. *)
Definition collect_facts (userID : Z) (keywords : list string)
  : gmap string Fact :=
  fold_left
    (fun factSet keyword =>
       if len keyword <? 3 then factSet
       else
         match SearchFacts userID keyword with
         | None => factSet
         | Some facts =>
             fold_left (fun factSet f => <[FactID f := f]> factSet) facts factSet
         end)
    keywords ∅.

(** The error returned is always [nil]. *)
Definition GetRelevantContext (userID : Z) (question : string) : string :=
  if String.eqb question "" then ""
  else
    let keywords := extractKeywords question in
    if Z.of_nat (length keywords) =? 0 then ""
    else
      let factSet := collect_facts userID keywords in
      if Z.of_nat (size factSet) =? 0 then ""
      else
        let facts := List.map snd (visit factSet) in
        write_facts header facts.

End WorldModelService.

Definition fact_example (id content url : string) : Fact :=
  {| FactID := id; FactUserID := 7; FactContent := content;
     FactSourceURL := url; FactConfidence := 9 # 10; ExtractedAt := 0 |}.

Definition facts_on_rates (userID : Z) (keyword : string) : option (list Fact) :=
  if String.eqb keyword "rates"
  then Some [fact_example "f1" "The key rate is 16%" "https://cbr.ru";
             fact_example "f2" "Rates rose in 2024" ""]
  else if String.eqb keyword "bank" then Some [fact_example "f1" "The key rate is 16%" "https://cbr.ru"]
  else None.

End WorldModel.

(** ** [internal/telegram]: answering a query message *)

Module Handler.
Import GoStrings Service Ratelimit Telegram.

(** What the handler reads of a [tgbotapi.Message]. *)
Record Message := {
  FromID : Z;
  FromUserName : string;
  ChatID : Z;
  MsgText : string
}.

(** [domain.User]. *)
Record User := {
  UserID : Z;
  TelegramID : Z;
  Username : string;
  UserCreatedAt : Z
}.

(** The errors [mapErrorToMessage] tells apart, and any other. *)
Inductive error : Set :=
| ErrInvalidURL
| ErrDuplicateSource
| ErrSourceNotFound
| ErrSourceLimitReached
| ErrNoSources
| ErrNoResults
| ErrEmptyQuery
| ErrQueryTooLong
| ErrLLMFailed
| ErrOther.

Definition mapErrorToMessage (err : error) : string :=
  match err with
  | ErrInvalidURL => "Некорректный URL."
  | ErrDuplicateSource => "Источник уже добавлен."
  | ErrSourceNotFound => "Источник не найден."
  | ErrSourceLimitReached => "Достигнут лимит источников (100)."
  | ErrNoSources => "Нет источников для запроса. Добавьте источники с помощью /add."
  | ErrNoResults => "Не найдено результатов по вашему запросу."
  | ErrEmptyQuery => "Пустой запрос. Введите ваш вопрос."
  | ErrQueryTooLong => "Запрос слишком длинный. Максимум 1000 символов."
  | ErrLLMFailed => "Не удалось сформировать ответ. Попробуйте позже."
  | ErrOther => "Произошла ошибка. Попробуйте позже."
  end.

Definition formatStrategyIndicator (strategy : Domain.Strategy) : string :=
  if String.eqb (Domain.Type_ strategy) Domain.StrategyQuick
  then "<i>Быстрый поиск</i>"
  else if String.eqb (Domain.Type_ strategy) Domain.StrategyDeep
  then "<i>Глубокий анализ</i>"
  else "".

Definition getTrustIcon (level : TrustLevel) : string :=
  if String.eqb level TrustHigh then "●"
  else if String.eqb level TrustMedium then "◐"
  else "○".

Definition nl : string := String (ascii_of_nat 10) EmptyString.
Definition dquote : string := String (ascii_of_nat 34) EmptyString.

Section FormatQueryResponse.
(** [html.EscapeString]. *)
Variable EscapeString : string -> string.

(** One turn of the loop over the sources; [None] is the panic of
    [truncateURL]. *)
Definition format_source (src : SourceRef) : option string :=
  match truncateURL (URL src) 50 with
  | None => None
  | Some short =>
      Some (Marker src +:+ " " +:+ getTrustIcon (Trust src) +:+ " "
            +:+ EscapeString (Title src) +:+ nl
            +:+ "   <a href=" +:+ dquote +:+ EscapeString (URL src) +:+ dquote
            +:+ ">" +:+ EscapeString short +:+ "</a> [" +:+ Trust src +:+ "]"
            +:+ nl)
  end.

Fixpoint format_sources (sb : string) (sources : list SourceRef) : option string :=
  match sources with
  | [] => Some sb
  | src :: rest =>
      match format_source src with
      | None => None
      | Some line => format_sources (sb +:+ line) rest
      end
  end.

Definition FormatQueryResponse (resp : QueryResponse) : option string :=
  let sb := EscapeString (Text resp) in
  if 0 <? Z.of_nat (length (Sources resp)) then
    let sb := sb +:+ nl +:+ nl +:+ "━━━━━━━━━━━━━━━━━━━━━" +:+ nl in
    let sb := sb +:+ "<b>Источники:</b>" +:+ nl in
    format_sources sb (Sources resp)
  else Some sb.

End FormatQueryResponse.

(** What the handler does to the outside, in order. *)
Inductive effect : Set :=
| Sent (chatID : Z) (text : string)
| SentTyping (chatID : Z)
| Processed (now fromID : Z) (req : Domain.QueryRequest).

Section ProcessQuery.
Variable World : Type.
Variable EscapeString : string -> string.
(** [userService.GetOrCreate] and [queryService.Process], which answer
    from outside; [None] and [inl] stand for an error. *)
Variable GetOrCreate : Z -> string -> World -> option User * World.
Variable Process :
  Domain.QueryRequest -> World -> (error + QueryResponse) * World.

(** The bot while it runs: the limiter its goroutines share, the world
    outside, and what it has done so far.  [panicked] is set when a
    call does not return. *)
Record state := {
  rateLimiter : Limiter;
  world : World;
  effects : list effect;
  panicked : bool
}.

Definition send (chatID : Z) (text : string) (st : state) : state :=
  {| rateLimiter := rateLimiter st; world := world st;
     effects := effects st ++ [Sent chatID text]; panicked := panicked st |}.

Definition too_many : string :=
  "Слишком много запросов. Пожалуйста, подождите минуту.".

Definition try_later : string := "Произошла ошибка. Попробуйте позже.".

(** [processQueryWithStrategy]; [now] is the clock when [Allow] reads
    it.  [HandleMessage] has read [msg.From] before, so it is there.
    The log lines and the metric of a refusal are left out, and so is
    [ResetTime], which only reads. *)
Definition processQueryWithStrategy (now : Z) (msg : Message) (question : string)
    (strategy : Domain.Strategy) (st : state) : state :=
  let (l, ok) := Allow now (FromID msg) (rateLimiter st) in
  let st := {| rateLimiter := l; world := world st; effects := effects st;
               panicked := panicked st |} in
  if negb ok then send (ChatID msg) too_many st
  else
    let (found, w) := GetOrCreate (FromID msg) (FromUserName msg) (world st) in
    let st := {| rateLimiter := rateLimiter st; world := w;
                 effects := effects st; panicked := panicked st |} in
    match found with
    | None => send (ChatID msg) try_later st
    | Some user =>
        let req := {| Domain.UserID := UserID user; Domain.Text := question;
                      Domain.OnlyReliable := false;
                      Domain.Strategy_ := strategy |} in
        let (answer, w) := Process req (world st) in
        let st := {| rateLimiter := rateLimiter st; world := w;
                     effects := effects st ++ [SentTyping (ChatID msg);
                                               Processed now (FromID msg) req];
                     panicked := panicked st |} in
        match answer with
        | inl err => send (ChatID msg) (mapErrorToMessage err) st
        | inr response =>
            match FormatQueryResponse EscapeString response with
            | None => {| rateLimiter := rateLimiter st; world := world st;
                         effects := effects st; panicked := true |}
            | Some formattedResponse =>
                let strategyIndicator := formatStrategyIndicator strategy in
                let formattedResponse :=
                  if negb (String.eqb strategyIndicator "")
                  then strategyIndicator +:+ nl +:+ nl +:+ formattedResponse
                  else formattedResponse in
                match SplitMessage formattedResponse 4096 with
                | Returns messages =>
                    fold_left (fun st m => send (ChatID msg) m st) messages st
                | _ => {| rateLimiter := rateLimiter st; world := world st;
                          effects := effects st; panicked := true |}
                end
            end
        end
    end.

(** What reaches the bot: a query message, or a tick of the limiter's
    [cleanup].  The handlers are goroutines; the mutex of the limiter
    puts their calls of [Allow] in an order, which is the order here. *)
Inductive incoming : Set :=
| Query (now : Z) (msg : Message) (question : string) (strategy : Domain.Strategy)
| Tick (now : Z).

Definition incoming_time (i : incoming) : Z :=
  match i with
  | Query now _ _ _ => now
  | Tick now => now
  end.

Definition handle (st : state) (i : incoming) : state :=
  match i with
  | Query now msg question strategy =>
      processQueryWithStrategy now msg question strategy st
  | Tick now =>
      {| rateLimiter := cleanup_tick now (rateLimiter st); world := world st;
         effects := effects st; panicked := panicked st |}
  end.

(** [New] gives the bot a fresh limiter. *)
Definition start (RequestsPerMinute : Z) (w : World) : state :=
  {| rateLimiter := New {| Ratelimit.RequestsPerMinute := RequestsPerMinute |};
     world := w; effects := []; panicked := false |}.

Definition serve (RequestsPerMinute : Z) (w : World) (inbox : list incoming)
  : state :=
  fold_left handle inbox (start RequestsPerMinute w).

End ProcessQuery.

(** The times at which [Process] was called for a sender. *)
Definition processed_at (fromID : Z) (es : list effect) : list Z :=
  omap (fun e =>
          match e with
          | Processed now u _ => if u =? fromID then Some now else None
          | _ => None
          end) es.

(** The event of the limiter that an incoming thing brings about. *)
Definition limiter_event (i : incoming) : event :=
  match i with
  | Query now msg _ _ => EvAllow now (FromID msg)
  | Tick now => EvCleanup now
  end.

Definition message_from (fromID : Z) (text : string) : Message :=
  {| FromID := fromID; FromUserName := "reader"; ChatID := fromID;
     MsgText := text |}.

Definition inbox_example : list incoming :=
  [Query 0 (message_from 7 "rates") "rates" Domain.QuickStrategy;
   Query 5 (message_from 7 "rates again") "rates again" Domain.QuickStrategy;
   Query 9 (message_from 7 "and again") "and again" Domain.QuickStrategy;
   Tick 20;
   Query 30 (message_from 8 "banks") "banks" Domain.StandardStrategy].

Definition user_service (telegramID : Z) (username : string) (w : nat)
  : option User * nat :=
  (Some {| UserID := telegramID + 100; TelegramID := telegramID;
           Username := username; UserCreatedAt := 0 |}, w).

Definition query_service (req : Domain.QueryRequest) (w : nat)
  : (error + QueryResponse) * nat :=
  (inr QueryService.reply_example, S w).

End Handler.

(** ** [internal/service/query.go]: the trust of a result's domain *)

Module TrustLabels.
Import GoStrings Search Critic Service QueryService.

(** [strings.Cut] at a byte, the part before it. *)
Definition cut_at (c : ascii) (s : string) : string :=
  match IndexByte s c with
  | Some i => take i s
  | None => s
  end.

(** Enough of [url.Parse] for an address made of a scheme, a colon and
    two slashes, a host, and then nothing, a path, a query or a
    fragment: the fragment and then the query are cut off, the scheme is
    put in lower case, and the host is what stands between the two
    slashes and the next one.  User names, ports and escapes are not
    looked at. *)
Definition url_Parse_authority (url : string) : option ParsedURL :=
  let url := cut_at "#" url in
  match IndexByte url ":" with
  | None => None
  | Some i =>
      let rest := cut_at "?" (drop (S i) url) in
      if HasPrefix rest "//"
      then Some {| Scheme := ToLower_ascii (take i url);
                   Host := cut_at "/" (drop 2 rest) |}
      else None
  end.

(** A source of user 123 with this address. *)
Definition source_at (url : string) (level : TrustLevel) : Source :=
  {| ID := 1; SourceUserID := 123; SourceURL := url; Name := "";
     TrustLevel_ := level; IsUserAdded := true; CreatedAt := 0 |}.

(** The one source of the user: the Bank of Russia, rated high. *)
Definition sources_rated (userID : Z) (w : nat) : option (list Source) * nat :=
  (Some [source_at "https://cbr.ru" TrustHigh], w).

(** Three results from that site: a page, the front page with a query,
    and a page under a scheme in capitals. *)
Definition results_cbr : list SearchResult :=
  [Fanout.result "https://cbr.ru/press" (9 # 10);
   Fanout.result "https://cbr.ru?from=rss" (8 # 10);
   Fanout.result "HTTPS://cbr.ru/press" (7 # 10)].

Definition search_cbr (w : nat) (query : string) (domains : list string)
    (maxResults : Z) : option (list SearchResult) := Some results_cbr.

(** One run of [Process] for that user: the search finds the three
    results; the rest is as in [run_example]. *)
Definition run_cbr : result QueryResponse * state nat :=
  Eval vm_compute in
    Process nat TrimSpace_ascii GoSort.insertion_sort url_Parse_authority
      json_none None sources_rated llm_down search_cbr (fun _ l => l)
      (fun w => w) (fun _ => false) None analyze_fixed (Some picky_critic)
      eager_model {| MaxRetries := 2; StrictMode := false |}
      (Domain.request "key rate")
      {| world := 0%nat; calls := [] |}.

End TrustLabels.

(** ** [internal/service/source.go]: the calls of [Add] as goroutines interleave them *)

Module AddSteps.
Import GoStrings Service QueryService SourceStore.

(** The repository, and the sources of the calls of [Add] that have
    counted and have not yet called [Create], by goroutine.  The bot
    handles every update in a goroutine of its own, and [Add] takes the
    lock of the repository twice: in [CountByUser] and in [Create]. *)
Record store := {
  repo : MockSourceRepository;
  waiting : gmap nat Source
}.

(** What takes the lock of the repository once: [Add] down to
    [CountByUser], the [Create] of such a call, [Remove] and
    [SetTrustLevel]. *)
Inductive op : Set :=
| OpAddCount (g : nat) (userID : Z) (url : string)
| OpAddCreate (g : nat) (now : Z)
| OpRemove (userID sourceID : Z)
| OpSetTrustLevel (userID sourceID : Z) (level : TrustLevel).

(** The calls of [Add] of a user that have counted and not yet
    created. *)
Definition in_flight (userID : Z) (st : store) : Z :=
  Z.of_nat (length (List.filter (fun gs => SourceUserID (snd gs) =? userID)
                      (map_to_list (waiting st)))).

Section Steps.
Variable url_Parse : string -> option ParsedURL.
Variable visit : gmap Z Source -> list (Z * Source).

(** [Add] down to its call of [Create]: the error it returns, or the
    source it goes on to create. *)
Definition Add_until_Create (userID : Z) (url : string)
    (m : MockSourceRepository) : error + Source :=
  let source :=
    {| ID := 0; SourceUserID := userID; SourceURL := url; Name := "";
       TrustLevel_ := TrustMedium; IsUserAdded := true; CreatedAt := 0 |} in
  match Source_Validate url_Parse source with
  | Some err => inl err
  | None =>
      let count := CountByUser visit userID m in
      if MaxSourcesPerUser <=? count then inl ErrSourceLimitReached
      else
        inr {| ID := 0; SourceUserID := userID; SourceURL := url;
               Name := Source_Domain url_Parse source;
               TrustLevel_ := TrustMedium; IsUserAdded := true;
               CreatedAt := 0 |}
  end.

(** A goroutine that is inside [Add] starts no other call, and one that
    is not has nothing to create. *)
Definition step (st : store) (o : op) : store :=
  match o with
  | OpAddCount g userID url =>
      match waiting st !! g with
      | Some _ => st
      | None =>
          match Add_until_Create userID url (repo st) with
          | inl _ => st
          | inr source =>
              {| repo := repo st; waiting := <[g := source]> (waiting st) |}
          end
      end
  | OpAddCreate g now =>
      match waiting st !! g with
      | None => st
      | Some source =>
          {| repo := fst (Create visit now source (repo st));
             waiting := delete g (waiting st) |}
      end
  | OpRemove userID sourceID =>
      {| repo := fst (Remove userID sourceID (repo st)); waiting := waiting st |}
  | OpSetTrustLevel userID sourceID level =>
      {| repo := fst (SetTrustLevel userID sourceID level (repo st));
         waiting := waiting st |}
  end.

Definition run_from (st : store) (ops : list op) : store :=
  fold_left step ops st.

(** The largest number of calls of [Add] of a user that are between
    their count and their [Create] at one time of a run. *)
Fixpoint peak (userID : Z) (st : store) (ops : list op) : Z :=
  match ops with
  | [] => in_flight userID st
  | o :: rest => Z.max (in_flight userID st) (peak userID (step st o) rest)
  end.

End Steps.

Definition start : store :=
  {| repo := NewMockSourceRepository; waiting := ∅ |}.

(** A call of the service that runs alone, as steps. *)
Definition serial (e : event) : list op :=
  match e with
  | EvAdd now userID url => [OpAddCount 0 userID url; OpAddCreate 0 now]
  | EvRemove userID sourceID => [OpRemove userID sourceID]
  | EvSetTrustLevel userID sourceID level =>
      [OpSetTrustLevel userID sourceID level]
  | EvImportSeed _ _ _ => []
  end.

(** Addresses that differ from one number to the next. *)
Fixpoint letters (n : nat) : string :=
  match n with
  | O => EmptyString
  | S n' => String "a" (letters n')
  end.

Definition site (n : nat) : string := "https://s" +:+ letters n +:+ ".example".

(** User 7 adds 99 sources, one call after the other. *)
Definition events_99 : list event :=
  List.map (fun n => EvAdd (Z.of_nat n) 7 (site n)) (seq 1 99).

(** Then two more calls of [Add] of that user count before either of
    them creates. *)
Definition ops_two_more : list op :=
  [OpAddCount 1 7 (site 100); OpAddCount 2 7 (site 101);
   OpAddCreate 1 100; OpAddCreate 2 101].

End AddSteps.

(** * Properties *)

(** ** Facts on the byte-string functions *)

Section GoStringsFacts.
Import GoStrings.

Lemma length_take n s : String.length (take n s) = Nat.min n (String.length s).
Proof.
  revert s; induction n as [|n IH]; intros [|c s]; simpl; auto.
Qed.

Lemma take_all n s : (String.length s <= n)%nat -> take n s = s.
Proof.
  revert s; induction n as [|n IH]; intros [|c s]; simpl; intros H; auto.
  - lia.
  - f_equal. apply IH. lia.
Qed.

Lemma length_TrimLeft_ascii s :
  (String.length (TrimLeft_ascii s) <= String.length s)%nat.
Proof.
  induction s as [|c s IH]; simpl; [lia|].
  destruct (asciiSpace c); simpl; lia.
Qed.

Lemma length_TrimRight_ascii s :
  (String.length (TrimRight_ascii s) <= String.length s)%nat.
Proof.
  induction s as [|c s IH]; simpl; [lia|].
  destruct (TrimRight_ascii s); simpl in *.
  - destruct (asciiSpace c); simpl; lia.
  - lia.
Qed.

Lemma TrimRight_ascii_idem s :
  TrimRight_ascii (TrimRight_ascii s) = TrimRight_ascii s.
Proof.
  induction s as [|c s IH]; simpl; [reflexivity|].
  destruct (TrimRight_ascii s) as [|d r] eqn:E.
  - destruct (asciiSpace c) eqn:Ec; simpl; [reflexivity|].
    rewrite Ec. reflexivity.
  - change (TrimRight_ascii (String c (String d r))) with
      (match TrimRight_ascii (String d r) with
       | EmptyString => if asciiSpace c then EmptyString else String c EmptyString
       | r' => String c r'
       end).
    rewrite IH. reflexivity.
Qed.

(** Trimming on the right keeps a first byte that is not a space. *)
Lemma TrimRight_ascii_head c s :
  asciiSpace c = false ->
  exists r, TrimRight_ascii (String c s) = String c r.
Proof.
  intros Hc. simpl. destruct (TrimRight_ascii s).
  - rewrite Hc. eauto.
  - eauto.
Qed.

Lemma TrimLeft_ascii_fix s :
  match s with
  | EmptyString => True
  | String c _ => asciiSpace c = false
  end -> TrimLeft_ascii s = s.
Proof. destruct s as [|c s]; simpl; [reflexivity|]. intros ->. reflexivity. Qed.

Lemma TrimLeft_ascii_head s :
  match TrimLeft_ascii s with
  | EmptyString => True
  | String c _ => asciiSpace c = false
  end.
Proof.
  induction s as [|c s IH]; simpl; [exact I|].
  destruct (asciiSpace c) eqn:E; [exact IH | exact E].
Qed.

Lemma TrimSpace_ascii_idem s :
  TrimSpace_ascii (TrimSpace_ascii s) = TrimSpace_ascii s.
Proof.
  unfold TrimSpace_ascii.
  assert (Hl : TrimLeft_ascii (TrimRight_ascii (TrimLeft_ascii s))
               = TrimRight_ascii (TrimLeft_ascii s)).
  { apply TrimLeft_ascii_fix.
    pose proof (TrimLeft_ascii_head s) as Hh.
    destruct (TrimLeft_ascii s) as [|c t]; [exact I|].
    destruct (TrimRight_ascii_head c t Hh) as [r ->]. exact Hh. }
  rewrite Hl. apply TrimRight_ascii_idem.
Qed.

Lemma len_TrimSpace_ascii s : len (TrimSpace_ascii s) <= len s.
Proof.
  unfold len, TrimSpace_ascii.
  pose proof (length_TrimRight_ascii (TrimLeft_ascii s)).
  pose proof (length_TrimLeft_ascii s). lia.
Qed.

End GoStringsFacts.

(** ** Query requests: validation before sanitizing *)

Section QueryFacts.
Import GoStrings Domain.

Variable TrimSpace : string -> string.

(** What the proofs use of [strings.TrimSpace]: its result has no
    surrounding white space left to remove, and is a slice of its
    argument. *)
Hypothesis TrimSpace_idem : forall s, TrimSpace (TrimSpace s) = TrimSpace s.
Hypothesis TrimSpace_len : forall s, len (TrimSpace s) <= len s.

Lemma Sanitize_Text q :
  Text (Sanitize TrimSpace q) =
  if MaxQueryLength <? len (TrimSpace (Text q))
  then take (Z.to_nat MaxQueryLength) (TrimSpace (Text q))
  else TrimSpace (Text q).
Proof. reflexivity. Qed.

Lemma Sanitize_ext q q' :
  Text (Sanitize TrimSpace q) = Text (Sanitize TrimSpace q') ->
  UserID q = UserID q' -> OnlyReliable q = OnlyReliable q' ->
  Strategy_ q = Strategy_ q' ->
  Sanitize TrimSpace q = Sanitize TrimSpace q'.
Proof.
  intros Ht Hu Ho Hs. unfold Sanitize in *. cbn [Text] in Ht.
  rewrite Ht, Hu, Ho, Hs. reflexivity.
Qed.

Lemma len_Sanitize q : len (Text (Sanitize TrimSpace q)) <= MaxQueryLength.
Proof.
  rewrite Sanitize_Text.
  destruct (MaxQueryLength <? len (TrimSpace (Text q))) eqn:E.
  - unfold len. rewrite length_take. unfold MaxQueryLength. lia.
  - apply Z.ltb_ge in E. exact E.
Qed.

Lemma Sanitize_fits q :
  len (TrimSpace (Text q)) <= MaxQueryLength ->
  Text (Sanitize TrimSpace q) = TrimSpace (Text q).
Proof.
  intros H. rewrite Sanitize_Text.
  apply Z.ltb_ge in H. rewrite H. reflexivity.
Qed.

Lemma Sanitize_twice_fits q :
  len (TrimSpace (Text q)) <= MaxQueryLength ->
  Sanitize TrimSpace (Sanitize TrimSpace q) = Sanitize TrimSpace q.
Proof.
  intros Hfit. apply Sanitize_ext; try reflexivity.
  assert (Hq : Text (Sanitize TrimSpace q) = TrimSpace (Text q))
    by (apply Sanitize_fits; exact Hfit).
  rewrite (Sanitize_fits (Sanitize TrimSpace q)).
  - rewrite Hq. apply TrimSpace_idem.
  - rewrite Hq, TrimSpace_idem. exact Hfit.
Qed.

(** C8 (amended).  [Sanitize] trims surrounding white space and then cuts
    the text to its first 1000 bytes, so its result never exceeds 1000
    bytes.  Whenever the trimmed text fits in 1000 bytes, [Sanitize]
    returns the trimmed text and a second application changes nothing.
    In every case a third application changes nothing. *)
Theorem Sanitize_idempotent_when_fits q :
  len (Text (Sanitize TrimSpace q)) <= MaxQueryLength /\
  (len (TrimSpace (Text q)) <= MaxQueryLength ->
   Text (Sanitize TrimSpace q) = TrimSpace (Text q) /\
   Sanitize TrimSpace (Sanitize TrimSpace q) = Sanitize TrimSpace q) /\
  Sanitize TrimSpace (Sanitize TrimSpace (Sanitize TrimSpace q))
  = Sanitize TrimSpace (Sanitize TrimSpace q).
Proof.
  split; [apply len_Sanitize|]. split.
  - intros Hfit. split; [apply Sanitize_fits | apply Sanitize_twice_fits];
      exact Hfit.
  - apply Sanitize_twice_fits.
    pose proof (TrimSpace_len (Text (Sanitize TrimSpace q))).
    pose proof (len_Sanitize q). lia.
Qed.

(** C10 (amended).  [Process] validates before it sanitizes.  A request
    whose raw text exceeds 1000 bytes is always rejected, whatever
    trimming would leave of it: with [ErrEmptyQuery] when the text is
    white space only, with [ErrQueryTooLong] otherwise.  For a request
    that passes validation [Sanitize] only trims: it returns the trimmed
    text whole, of at most 1000 bytes, and that is the request [Process]
    goes on with. *)
Theorem Validate_before_Sanitize q :
  (MaxQueryLength < len (Text q) ->
   Validate TrimSpace q
   = Some (if String.eqb (TrimSpace (Text q)) "" then ErrEmptyQuery
           else ErrQueryTooLong) /\
   exists err, Process_admit TrimSpace q = inl err) /\
  (Validate TrimSpace q = None ->
   len (TrimSpace (Text q)) <= MaxQueryLength /\
   Text (Sanitize TrimSpace q) = TrimSpace (Text q) /\
   Process_admit TrimSpace q = inr (Sanitize TrimSpace q)).
Proof.
  split.
  - intros Hlong.
    assert (Hv : Validate TrimSpace q
                 = Some (if String.eqb (TrimSpace (Text q)) ""
                         then ErrEmptyQuery else ErrQueryTooLong)).
    { unfold Validate. destruct (String.eqb (TrimSpace (Text q)) "");
        [reflexivity|].
      apply Z.ltb_lt in Hlong. rewrite Hlong. reflexivity. }
    split; [exact Hv|]. unfold Process_admit. rewrite Hv. eauto.
  - intros Hok.
    assert (Hfit : len (TrimSpace (Text q)) <= MaxQueryLength).
    { unfold Validate in Hok.
      destruct (String.eqb (TrimSpace (Text q)) ""); [discriminate|].
      destruct (MaxQueryLength <? len (Text q)) eqn:E; [discriminate|].
      apply Z.ltb_ge in E. pose proof (TrimSpace_len (Text q)). lia. }
    split; [exact Hfit|]. split; [apply Sanitize_fits; exact Hfit|].
    unfold Process_admit. rewrite Hok. reflexivity.
Qed.

End QueryFacts.

(** C8, as stated, fails.  The text of 999 letters, a space and a letter
    is cut after the space; the second application trims that space. *)
Lemma Sanitize_not_idempotent :
  Domain.Text (Domain.Sanitize GoStrings.TrimSpace_ascii Domain.req_space_at_1000)
  = (GoStrings.Repeat "a" 999 +:+ " ") /\
  Domain.Text (Domain.Sanitize GoStrings.TrimSpace_ascii
      (Domain.Sanitize GoStrings.TrimSpace_ascii Domain.req_space_at_1000))
  = GoStrings.Repeat "a" 999 /\
  Domain.Sanitize GoStrings.TrimSpace_ascii
    (Domain.Sanitize GoStrings.TrimSpace_ascii Domain.req_space_at_1000)
  <> Domain.Sanitize GoStrings.TrimSpace_ascii Domain.req_space_at_1000.
Proof.
  split; [vm_compute; reflexivity|]. split; [vm_compute; reflexivity|].
  intros H. apply (f_equal Domain.Text) in H.
  apply (f_equal String.length) in H. vm_compute in H. discriminate H.
Qed.

Lemma Sanitize_idempotent_when_fits_witness :
  Domain.Text (Domain.Sanitize GoStrings.TrimSpace_ascii Domain.req_padded)
  = "What is Go?" /\
  Domain.Sanitize GoStrings.TrimSpace_ascii
    (Domain.Sanitize GoStrings.TrimSpace_ascii Domain.req_padded)
  = Domain.Sanitize GoStrings.TrimSpace_ascii Domain.req_padded.
Proof.
  destruct (Sanitize_idempotent_when_fits GoStrings.TrimSpace_ascii
              TrimSpace_ascii_idem len_TrimSpace_ascii Domain.req_padded)
    as [_ [H _]].
  destruct H as [Ht Hi].
  - vm_compute. discriminate.
  - split; [rewrite Ht; reflexivity | exact Hi].
Defined.

(** C10, as stated, fails.  A text of 1001 spaces exceeds 1000 bytes and
    is rejected as empty, not as too long. *)
Lemma oversized_blank_is_ErrEmptyQuery :
  Domain.MaxQueryLength < GoStrings.len (Domain.Text Domain.req_blank_1001) /\
  Domain.Validate GoStrings.TrimSpace_ascii Domain.req_blank_1001
  = Some Domain.ErrEmptyQuery /\
  Domain.Validate GoStrings.TrimSpace_ascii Domain.req_blank_1001
  <> Some Domain.ErrQueryTooLong.
Proof.
  split; [reflexivity|]. split; [vm_compute; reflexivity|].
  vm_compute. discriminate.
Qed.

Lemma Validate_before_Sanitize_witness :
  Domain.Validate GoStrings.TrimSpace_ascii Domain.req_space_at_1000
  = Some Domain.ErrQueryTooLong /\
  Domain.Text (Domain.Sanitize GoStrings.TrimSpace_ascii Domain.req_padded)
  = GoStrings.TrimSpace_ascii (Domain.Text Domain.req_padded).
Proof.
  split.
  - destruct (Validate_before_Sanitize GoStrings.TrimSpace_ascii
                len_TrimSpace_ascii Domain.req_space_at_1000) as [H _].
    destruct H as [Hv _]; [reflexivity|].
    rewrite Hv. vm_compute. reflexivity.
  - destruct (Validate_before_Sanitize GoStrings.TrimSpace_ascii
                len_TrimSpace_ascii Domain.req_padded) as [_ H].
    destruct H as [_ [Ht _]]; [vm_compute; reflexivity|].
    exact Ht.
Defined.

(** ** The rate limiter *)

Section RatelimitFacts.
Import Ratelimit.

Lemma filter_After_narrow c c' ts :
  c' <= c ->
  List.filter (fun t => After t c) (List.filter (fun t => After t c') ts)
  = List.filter (fun t => After t c) ts.
Proof.
  intros Hc. induction ts as [|t ts IH]; simpl; [reflexivity|].
  destruct (After t c') eqn:E1; simpl; rewrite IH.
  - reflexivity.
  - destruct (After t c) eqn:E2; [|reflexivity].
    unfold After in *. apply Z.ltb_lt in E2. apply Z.ltb_ge in E1. lia.
Qed.

Lemma lookup_requests_Allow now u l u' :
  lookup_requests (fst (Allow now u l)) u' =
  if decide (u = u')
  then List.filter (fun t => After t (now - window l)) (lookup_requests l u)
       ++ (if snd (Allow now u l) then [now] else [])
  else lookup_requests l u'.
Proof.
  unfold Allow.
  destruct (limit l <=? _); unfold lookup_requests at 1; simpl;
    rewrite lookup_insert; destruct (decide (u = u')); simpl;
    rewrite ?app_nil_r; reflexivity.
Qed.

Lemma Allow_config now u l :
  limit (fst (Allow now u l)) = limit l /\
  window (fst (Allow now u l)) = window l.
Proof. unfold Allow. destruct (limit l <=? _); simpl; auto. Qed.

Lemma lookup_requests_cleanup_tick now l u :
  lookup_requests (cleanup_tick now l) u =
  List.filter (fun t => After t (now - window l)) (lookup_requests l u).
Proof.
  unfold lookup_requests, cleanup_tick. simpl. rewrite lookup_omap.
  destruct (requests l !! u) as [ts|]; simpl; [|reflexivity].
  destruct (List.filter _ ts); reflexivity.
Qed.

Lemma admitted_at_snoc u log a :
  admitted_at u (log ++ [a]) =
  admitted_at u log ++
  (if allowed a && (principal a =? u) then [at_time a] else []).
Proof.
  unfold admitted_at. rewrite List.filter_app, List.map_app. simpl.
  destruct (allowed a && (principal a =? u)); reflexivity.
Qed.

Lemma count_within_snoc lo hi ts t :
  count_within lo hi (ts ++ [t]) =
  count_within lo hi ts + (if (lo <=? t) && (t <=? hi) then 1 else 0).
Proof.
  unfold count_within. rewrite List.filter_app, length_app. simpl.
  destruct ((lo <=? t) && (t <=? hi)); simpl; lia.
Qed.

(** Times within an interval shorter than the window that reaches [now]
    are all later than the cutoff of a call at [now]. *)
Lemma count_within_le_After lo hi c ts :
  c < lo ->
  count_within lo hi ts
  <= Z.of_nat (length (List.filter (fun t => After t c) ts)).
Proof.
  intros Hc. unfold count_within. induction ts as [|t ts IH]; simpl; [lia|].
  unfold After at 1.
  destruct (lo <=? t) eqn:E1; simpl.
  - apply Z.leb_le in E1. assert (E : (c <? t) = true) by (apply Z.ltb_lt; lia).
    rewrite E. destruct (t <=? hi); simpl; lia.
  - destruct (c <? t); simpl; lia.
Qed.

(** The stored slice of a principal agrees with the record of its
    admissions on every time that a later call can still count. *)
Definition tracks (T : Z) (st : Limiter * list answer) : Prop :=
  forall u c, T - window (fst st) <= c ->
    List.filter (fun t => After t c) (lookup_requests (fst st) u)
    = List.filter (fun t => After t c) (admitted_at u (snd st)).

Definition bounded (st : Limiter * list answer) : Prop :=
  forall u lo hi, hi - lo < window (fst st) ->
    count_within lo hi (admitted_at u (snd st)) <= limit (fst st).

Lemma step_config st e :
  limit (fst (step st e)) = limit (fst st) /\
  window (fst (step st e)) = window (fst st).
Proof.
  destruct e as [now u|now]; simpl.
  - pose proof (Allow_config now u (fst st)) as H.
    destruct (Allow now u (fst st)); exact H.
  - auto.
Qed.

Lemma step_tracks T st e :
  tracks T st -> T <= event_time e -> tracks (event_time e) (step st e).
Proof.
  intros Htr Hle u' c Hc.
  destruct (step_config st e) as [_ Hw]. rewrite Hw in Hc.
  destruct e as [now u|now]; simpl in *.
  - pose proof (lookup_requests_Allow now u (fst st) u') as Hl.
    destruct (Allow now u (fst st)) as [l' ok]; simpl in *.
    rewrite Hl, admitted_at_snoc; simpl.
    destruct (decide (u = u')) as [->|Hne].
    + rewrite Z.eqb_refl, andb_true_r, !List.filter_app.
      rewrite filter_After_narrow by lia.
      rewrite (Htr u' c) by lia. destruct ok; reflexivity.
    + assert (E : (u =? u') = false) by (apply Z.eqb_neq; exact Hne).
      rewrite E, andb_false_r, app_nil_r. apply Htr. lia.
  - rewrite lookup_requests_cleanup_tick, filter_After_narrow by lia.
    apply Htr. lia.
Qed.

Lemma step_bounded T st e :
  tracks T st -> bounded st -> T <= event_time e -> bounded (step st e).
Proof.
  intros Htr Hb Hle u' lo hi Hwin.
  destruct (step_config st e) as [Hlim Hw]. rewrite Hw in Hwin. rewrite Hlim.
  destruct e as [now u|now]; simpl in *; [|apply Hb; exact Hwin].
  unfold Allow.
  set (fresh := List.filter (fun t => After t (now - window (fst st)))
                  (lookup_requests (fst st) u)).
  destruct (limit (fst st) <=? Z.of_nat (length fresh)) eqn:E; simpl;
    rewrite admitted_at_snoc; simpl.
  - rewrite app_nil_r. apply Hb. exact Hwin.
  - destruct (u =? u') eqn:Eu; simpl; [|rewrite app_nil_r; apply Hb; exact Hwin].
    apply Z.eqb_eq in Eu. subst u'. rewrite count_within_snoc.
    destruct ((lo <=? now) && (now <=? hi)) eqn:Ein.
    + apply andb_true_iff in Ein. destruct Ein as [E1 E2].
      apply Z.leb_le in E1, E2. apply Z.leb_gt in E.
      pose proof (count_within_le_After lo hi (now - window (fst st))
                    (admitted_at u (snd st))) as Hc.
      rewrite <- (Htr u (now - window (fst st))) in Hc by lia.
      fold fresh in Hc. lia.
    + pose proof (Hb u lo hi Hwin). lia.
Qed.

Lemma fold_step_bounded es : forall T st,
  tracks T st -> bounded st ->
  StronglySorted Z.le (T :: List.map event_time es) ->
  bounded (fold_left step es st) /\
  limit (fst (fold_left step es st)) = limit (fst st) /\
  window (fst (fold_left step es st)) = window (fst st).
Proof.
  induction es as [|e es IH]; intros T st Htr Hb Hs; simpl; [auto|].
  inversion Hs as [|? ? Hs' Hall]; subst.
  simpl in Hs', Hall. inversion Hall as [|? ? Hte _]; subst.
  destruct (step_config st e) as [Hlim Hw].
  destruct (IH (event_time e) (step st e)) as (H1 & H2 & H3).
  - eapply step_tracks; eauto.
  - eapply step_bounded; eauto.
  - exact Hs'.
  - rewrite H2, H3. auto.
Qed.

Lemma New_limit_pos cfg : 1 <= limit (New cfg).
Proof.
  unfold New; simpl. destruct (RequestsPerMinute cfg <=? 0) eqn:E; [lia|].
  apply Z.leb_gt in E. lia.
Qed.

Lemma New_bounded cfg : bounded (New cfg, []).
Proof.
  intros u lo hi _. pose proof (New_limit_pos cfg). cbn [fst snd].
  change (count_within lo hi (admitted_at u [])) with 0. lia.
Qed.

Lemma run_New_bounded cfg es :
  StronglySorted Z.le (List.map event_time es) ->
  bounded (run (New cfg) es) /\
  limit (fst (run (New cfg) es)) = limit (New cfg) /\
  window (fst (run (New cfg) es)) = Minute.
Proof.
  intros Hs. unfold run.
  destruct es as [|e es]; simpl.
  - split; [|auto]. apply New_bounded.
  - assert (H0 : tracks (event_time e) (New cfg, [])).
    { intros u c _. reflexivity. }
    pose proof (New_bounded cfg) as Hb0.
    destruct (fold_step_bounded es (event_time e) (step (New cfg, []) e))
      as (H1 & H2 & H3).
    + eapply step_tracks; [exact H0|lia].
    + eapply step_bounded; [exact H0|exact Hb0|lia].
    + exact Hs.
    + destruct (step_config (New cfg, []) e) as [Hl Hw].
      rewrite H2, H3, Hl, Hw. auto.
Qed.

(** Two limiters that a principal cannot tell apart. *)
Definition same_for (u : Z) (l1 l2 : Limiter) : Prop :=
  lookup_requests l1 u = lookup_requests l2 u /\
  limit l1 = limit l2 /\ window l1 = window l2.

Lemma Allow_decision now u l :
  snd (Allow now u l) =
  (Z.of_nat (length (List.filter (fun t => After t (now - window l))
                       (lookup_requests l u))) <? limit l).
Proof.
  unfold Allow. rewrite Z.ltb_antisym.
  destruct (limit l <=? _); reflexivity.
Qed.

Lemma Allow_same_for now u l1 l2 :
  same_for u l1 l2 ->
  snd (Allow now u l1) = snd (Allow now u l2) /\
  same_for u (fst (Allow now u l1)) (fst (Allow now u l2)).
Proof.
  intros (Hr & Hl & Hw).
  assert (Hd : snd (Allow now u l1) = snd (Allow now u l2)).
  { rewrite !Allow_decision, Hr, Hl, Hw. reflexivity. }
  split; [exact Hd|]. split.
  - rewrite !lookup_requests_Allow. destruct (decide (u = u)); [|congruence].
    rewrite Hd, Hr, Hw. reflexivity.
  - destruct (Allow_config now u l1) as [-> ->].
    destruct (Allow_config now u l2) as [-> ->]. auto.
Qed.

Lemma answers_of_snoc u log a :
  answers_of u (log ++ [a]) =
  answers_of u log ++ (if principal a =? u then [a] else []).
Proof.
  unfold answers_of. rewrite List.filter_app. simpl.
  destruct (principal a =? u); reflexivity.
Qed.

Lemma fold_step_concerns u es : forall st1 st2,
  same_for u (fst st1) (fst st2) ->
  answers_of u (snd st1) = answers_of u (snd st2) ->
  same_for u (fst (fold_left step es st1))
             (fst (fold_left step (List.filter (concerns u) es) st2)) /\
  answers_of u (snd (fold_left step es st1))
  = answers_of u (snd (fold_left step (List.filter (concerns u) es) st2)).
Proof.
  induction es as [|e es IH]; intros st1 st2 Hsim Hans; simpl; [auto|].
  destruct e as [now u'|now]; simpl.
  - destruct (u' =? u) eqn:Eu; simpl.
    + apply Z.eqb_eq in Eu. subst u'.
      destruct (Allow_same_for now u _ _ Hsim) as [Hd Hs].
      destruct (Allow now u (fst st1)) as [l1 ok1].
      destruct (Allow now u (fst st2)) as [l2 ok2]. simpl in *.
      apply IH; simpl; [exact Hs|].
      rewrite !answers_of_snoc, Hans, Hd. reflexivity.
    + apply Z.eqb_neq in Eu.
      pose proof (lookup_requests_Allow now u' (fst st1) u) as Hl.
      destruct (Allow_config now u' (fst st1)) as [Hc1 Hc2].
      destruct (Allow now u' (fst st1)) as [l1 ok1]. simpl in *.
      destruct (decide (u' = u)); [contradiction|].
      apply IH; simpl.
      * destruct Hsim as (Hr & Hlim & Hw).
        split; [congruence|]. split; congruence.
      * rewrite answers_of_snoc; simpl.
        assert (E : (u' =? u) = false) by (apply Z.eqb_neq; assumption).
        rewrite E, app_nil_r. exact Hans.
  - apply IH; simpl; [|exact Hans].
    destruct Hsim as (Hr & Hlim & Hw). split; [|auto].
    rewrite !lookup_requests_cleanup_tick, Hr, Hw. reflexivity.
Qed.

(** C9.  [Allow] admits a call exactly when fewer than [limit] of the
    principal's recorded times are later than [now] minus the window,
    and an admitted call records [now] after them; the slices of the
    other principals are left as they were.  A limiter made by [New] has
    a window of one minute and the configured capacity (10 when none is
    configured); in every run of calls and sweeps on it whose clock
    readings never decrease, the calls admitted for one principal within
    any interval shorter than the window are at most [limit].  The
    answers a principal receives are the same when the calls of all other
    principals are removed from the run. *)
Theorem Allow_sliding_window (cfg : Config) :
  (forall l now userID,
     let fresh := List.filter (fun t => After t (now - window l))
                    (lookup_requests l userID) in
     snd (Allow now userID l) = (Z.of_nat (length fresh) <? limit l) /\
     lookup_requests (fst (Allow now userID l)) userID
     = (if snd (Allow now userID l) then fresh ++ [now] else fresh) /\
     forall other, other <> userID ->
       lookup_requests (fst (Allow now userID l)) other
       = lookup_requests l other) /\
  (window (New cfg) = Minute /\
   limit (New cfg)
   = if RequestsPerMinute cfg <=? 0 then 10 else RequestsPerMinute cfg) /\
  (forall es userID lo hi,
     StronglySorted Z.le (List.map event_time es) ->
     hi - lo < Minute ->
     count_within lo hi (admitted_at userID (snd (run (New cfg) es)))
     <= limit (New cfg)) /\
  (forall l es userID,
     answers_of userID (snd (run l es))
     = answers_of userID (snd (run l (List.filter (concerns userID) es)))).
Proof.
  split; [|split; [|split]].
  - intros l now userID fresh. split; [apply Allow_decision|]. split.
    + rewrite lookup_requests_Allow. destruct (decide (userID = userID));
        [|congruence].
      fold fresh. destruct (snd (Allow now userID l));
        rewrite ?app_nil_r; reflexivity.
    + intros other Hne. rewrite lookup_requests_Allow.
      destruct (decide (userID = other)); [congruence|reflexivity].
  - split; reflexivity.
  - intros es userID lo hi Hs Hwin.
    destruct (run_New_bounded cfg es Hs) as (Hb & Hl & Hw).
    rewrite <- Hl. apply Hb. rewrite Hw. exact Hwin.
  - intros l es userID. unfold run.
    apply (fold_step_concerns userID es (l, []) (l, [])).
    + split; [|split]; reflexivity.
    + reflexivity.
Qed.

End RatelimitFacts.

Lemma Allow_sliding_window_witness :
  Ratelimit.count_within 0 (Ratelimit.Minute - 1)
    (Ratelimit.admitted_at 7
       (snd (Ratelimit.run
               (Ratelimit.New {| Ratelimit.RequestsPerMinute := 2 |})
               Ratelimit.events_two_principals)))
  <= 2.
Proof.
  apply (proj1 (proj2 (proj2
           (Allow_sliding_window {| Ratelimit.RequestsPerMinute := 2 |})))
           Ratelimit.events_two_principals 7 0 (Ratelimit.Minute - 1)).
  - repeat constructor; vm_compute; discriminate.
  - vm_compute. reflexivity.
Defined.

(** ** Sorting *)

Section SortFacts.
Import GoSort.
Context {A : Type} (less : A -> A -> bool).
Hypothesis less_swo : StrictWeakOrder less.

Lemma less_asym a b : less a b = true -> less b a = false.
Proof.
  intros Hab. destruct (less b a) eqn:Hba; [|reflexivity].
  pose proof (less_trans less less_swo a b a Hab Hba) as H.
  rewrite (less_irrefl less less_swo) in H. discriminate.
Qed.

Lemma insert_sorted_perm x l : Permutation (x :: l) (insert_sorted less x l).
Proof.
  induction l as [|y l IH]; simpl; [reflexivity|].
  destruct (less y x); [|reflexivity].
  rewrite perm_swap. apply perm_skip. exact IH.
Qed.

Lemma insert_sorted_ordered x l :
  ordered_by less l -> ordered_by less (insert_sorted less x l).
Proof.
  unfold ordered_by. induction l as [|y l IH]; intros Hs; simpl.
  - repeat constructor.
  - inversion Hs as [|? ? Hs' Hall]; subst.
    destruct (less y x) eqn:E.
    + constructor; [apply IH; exact Hs'|].
      rewrite List.Forall_forall in *. intros z Hz.
      apply (Permutation_in _ (Permutation_sym (insert_sorted_perm x l))) in Hz.
      destruct Hz as [<-|Hz]; [apply less_asym; exact E | apply Hall; exact Hz].
    + constructor; [exact Hs|]. constructor; [exact E|].
      rewrite List.Forall_forall in *. intros z Hz.
      apply (less_cotrans less less_swo z y x); [apply Hall; exact Hz | exact E].
Qed.

Lemma insertion_sort_spec l :
  Permutation l (insertion_sort A less l) /\
  ordered_by less (insertion_sort A less l).
Proof.
  unfold insertion_sort. induction l as [|x l [IHp IHo]]; simpl.
  - split; [reflexivity | constructor].
  - split.
    + rewrite <- insert_sorted_perm. apply perm_skip. exact IHp.
    + apply insert_sorted_ordered. exact IHo.
Qed.

End SortFacts.

Lemma insertion_sort_SortSlice : GoSort.SortSlice GoSort.insertion_sort.
Proof. intros A less l Hswo. apply insertion_sort_spec. exact Hswo. Qed.

(** ** The search fan-out *)

Section FanoutFacts.
Import Search Fanout GoSort.

Lemma score_greater_true a b :
  score_greater a b = true <-> (Score b < Score a)%Q.
Proof.
  unfold score_greater. rewrite negb_true_iff.
  destruct (Qle_bool (Score a) (Score b)) eqn:E.
  - apply Qle_bool_iff in E. split; [discriminate|].
    intros H. exfalso. apply (Qlt_not_le _ _ H). exact E.
  - split; [|reflexivity]. intros _. apply Qnot_le_lt. intros H.
    apply Qle_bool_iff in H. congruence.
Qed.

Lemma score_greater_false a b :
  score_greater a b = false <-> (Score a <= Score b)%Q.
Proof.
  unfold score_greater. rewrite negb_false_iff. apply Qle_bool_iff.
Qed.

Lemma score_greater_swo : StrictWeakOrder score_greater.
Proof.
  split.
  - intros a. apply score_greater_false. apply Qle_refl.
  - intros a b c. rewrite !score_greater_true. intros H1 H2.
    eapply Qlt_trans; eassumption.
  - intros a b c. rewrite !score_greater_false. intros H1 H2.
    eapply Qle_trans; eassumption.
Qed.

Lemma existsb_eqb_In u seen :
  existsb (String.eqb u) seen = true <-> In u seen.
Proof.
  rewrite existsb_exists. split.
  - intros (x & Hx & E). apply String.eqb_eq in E. subst. exact Hx.
  - intros H. exists u. split; [exact H | apply String.eqb_refl].
Qed.

Lemma first_seen_ext rs : forall s1 s2,
  (forall u, In u s1 <-> In u s2) -> first_seen s1 rs = first_seen s2 rs.
Proof.
  induction rs as [|r rs IH]; intros s1 s2 H; simpl; [reflexivity|].
  assert (E : existsb (String.eqb (URL r)) s1 = existsb (String.eqb (URL r)) s2).
  { apply eq_true_iff_eq. rewrite !existsb_eqb_In. apply H. }
  rewrite E. destruct (existsb _ s2).
  - apply IH. exact H.
  - f_equal. apply IH. intros u. simpl. rewrite H. reflexivity.
Qed.

(** The map [seen] holds exactly the URLs of [allResults]. *)
Definition seen_all (st : gmap string bool * list SearchResult) : Prop :=
  forall u, default false (fst st !! u) = true <-> In u (List.map URL (snd st)).

Lemma collect_first_seen rs : forall st,
  seen_all st ->
  seen_all (fold_left collect rs st) /\
  snd (fold_left collect rs st)
  = snd st ++ first_seen (List.map URL (snd st)) rs.
Proof.
  induction rs as [|r rs IH]; intros [seen acc] Hst; simpl.
  - split; [exact Hst | rewrite app_nil_r; reflexivity].
  - pose proof (Hst (URL r)) as Hr. simpl in Hr.
    destruct (default false (seen !! URL r)) eqn:E; simpl.
    + assert (Ex : existsb (String.eqb (URL r)) (List.map URL acc) = true).
      { apply existsb_eqb_In. apply Hr. reflexivity. }
      rewrite Ex. apply IH. exact Hst.
    + assert (Ex : existsb (String.eqb (URL r)) (List.map URL acc) = false).
      { apply not_true_is_false. rewrite existsb_eqb_In. intros H.
        apply Hr in H. discriminate. }
      rewrite Ex.
      destruct (IH (<[URL r := true]> seen, acc ++ [r])) as [H1 H2].
      * intros u. simpl. rewrite List.map_app, in_app_iff. simpl.
        rewrite lookup_insert. destruct (decide (URL r = u)) as [->|Hne]; simpl.
        -- split; auto.
        -- rewrite (Hst u). simpl. split; [auto|]. intros [H|[H|[]]]; congruence.
      * split; [exact H1|]. rewrite H2. simpl. rewrite <- app_assoc. simpl.
        do 2 f_equal. apply first_seen_ext. intros u.
        rewrite List.map_app, in_app_iff. simpl. tauto.
Qed.

Lemma first_seen_app rs more : forall seen,
  first_seen seen (rs ++ more)
  = first_seen seen rs
    ++ first_seen (List.map URL (first_seen seen rs) ++ seen) more.
Proof.
  induction rs as [|r rs IH]; intros seen; simpl; [reflexivity|].
  destruct (existsb (String.eqb (URL r)) seen) eqn:E; [apply IH|].
  simpl. f_equal. rewrite IH. f_equal. apply first_seen_ext.
  intros u. simpl. rewrite !in_app_iff. simpl. tauto.
Qed.

Lemma merge_fold chan : forall st,
  seen_all st ->
  seen_all (fold_left (fun st results => fold_left collect results st) chan st) /\
  snd (fold_left (fun st results => fold_left collect results st) chan st)
  = snd st ++ first_seen (List.map URL (snd st)) (concat chan).
Proof.
  induction chan as [|rs chan IH]; intros st Hst; simpl.
  - split; [exact Hst | rewrite app_nil_r; reflexivity].
  - destruct (collect_first_seen rs st Hst) as [H1 H2].
    destruct (IH _ H1) as [H3 H4]. split; [exact H3|].
    rewrite H4, H2, <- app_assoc, first_seen_app. do 2 f_equal.
    apply first_seen_ext. intros u.
    rewrite List.map_app, !in_app_iff. tauto.
Qed.

(** The deduplication keeps the first result of every URL. *)
Lemma merge_first_seen chan : snd (merge chan) = first_seen [] (concat chan).
Proof.
  unfold merge. destruct (merge_fold chan (∅, [])) as [_ H].
  - intros u. simpl. rewrite lookup_empty. simpl. split; [discriminate|tauto].
  - exact H.
Qed.

Lemma first_seen_fresh rs : forall seen r,
  In r (first_seen seen rs) -> In r rs /\ ~ In (URL r) seen.
Proof.
  induction rs as [|r0 rs IH]; intros seen r; simpl; [tauto|].
  destruct (existsb (String.eqb (URL r0)) seen) eqn:E.
  - intros H. destruct (IH _ _ H). auto.
  - intros [<-|H].
    + split; [auto|]. rewrite <- existsb_eqb_In, E. discriminate.
    + destruct (IH _ _ H) as [H1 H2]. split; [auto|].
      intros H3. apply H2. right. exact H3.
Qed.

Lemma first_seen_NoDup rs : forall seen,
  List.NoDup (List.map URL (first_seen seen rs)).
Proof.
  induction rs as [|r rs IH]; intros seen; simpl; [constructor|].
  destruct (existsb (String.eqb (URL r)) seen); [apply IH|].
  simpl. constructor; [|apply IH].
  rewrite in_map_iff. intros (r' & Hu & Hr').
  apply first_seen_fresh in Hr'. destruct Hr' as [_ Hn].
  apply Hn. left. symmetry. exact Hu.
Qed.

Lemma first_seen_sublist rs : forall seen, sublist (first_seen seen rs) rs.
Proof.
  induction rs as [|r rs IH]; intros seen; simpl; [constructor|].
  destruct (existsb (String.eqb (URL r)) seen).
  - apply sublist_cons. apply IH.
  - apply sublist_skip. apply IH.
Qed.

Lemma first_seen_covers rs : forall seen r,
  In r rs -> In (URL r) seen \/ In (URL r) (List.map URL (first_seen seen rs)).
Proof.
  induction rs as [|r0 rs IH]; intros seen r; simpl; [tauto|].
  intros [<-|Hr].
  - destruct (existsb (String.eqb (URL r0)) seen) eqn:E.
    + left. apply existsb_eqb_In. exact E.
    + right. left. reflexivity.
  - destruct (existsb (String.eqb (URL r0)) seen) eqn:E.
    + apply IH. exact Hr.
    + destruct (IH (URL r0 :: seen) r Hr) as [[H|H]|H].
      * right. left. exact H.
      * left. exact H.
      * right. right. exact H.
Qed.

(** A kept result is the first of the merged list with its URL. *)
Lemma first_seen_is_first rs : forall seen r,
  In r (first_seen seen rs) ->
  List.find (fun r' => String.eqb (URL r') (URL r)) rs = Some r.
Proof.
  induction rs as [|r0 rs IH]; intros seen r; simpl; [tauto|].
  destruct (existsb (String.eqb (URL r0)) seen) eqn:E.
  - intros H. pose proof (first_seen_fresh _ _ _ H) as [_ Hn].
    destruct (String.eqb (URL r0) (URL r)) eqn:E2.
    + apply String.eqb_eq in E2. rewrite <- E2 in Hn.
      apply existsb_eqb_In in E. contradiction.
    + eapply IH. exact H.
  - intros [<-|H].
    + rewrite String.eqb_refl. reflexivity.
    + pose proof (first_seen_fresh _ _ _ H) as [_ Hn].
      destruct (String.eqb (URL r0) (URL r)) eqn:E2.
      * apply String.eqb_eq in E2. exfalso. apply Hn. left. exact E2.
      * eapply IH. exact H.
Qed.

End FanoutFacts.

Section FanoutTheorems.
Import Search Fanout GoSort.

Variable sort_Slice : forall A : Type, (A -> A -> bool) -> list A -> list A.
Hypothesis sort_Slice_spec : SortSlice sort_Slice.

Lemma In_firstn {A : Type} n (l : list A) x : In x (firstn n l) -> In x l.
Proof.
  revert l. induction n as [|n IH]; intros [|y l]; simpl; try tauto.
  intros [H|H]; [left; exact H | right; apply IH; exact H].
Qed.

Lemma NoDup_firstn {A : Type} n (l : list A) :
  List.NoDup l -> List.NoDup (firstn n l).
Proof.
  revert l. induction n as [|n IH]; intros [|x l] H; simpl; try constructor.
  - inversion H; subst. intros Hin. apply In_firstn in Hin. contradiction.
  - inversion H; subst. apply IH. assumption.
Qed.

Lemma StronglySorted_firstn {A : Type} (R : A -> A -> Prop) n (l : list A) :
  StronglySorted R l -> StronglySorted R (firstn n l).
Proof.
  revert l. induction n as [|n IH]; intros [|x l] H; simpl; try constructor.
  - inversion H; subst. apply IH. assumption.
  - inversion H; subst. rewrite List.Forall_forall in *. intros y Hy.
    apply In_firstn in Hy. auto.
Qed.

Lemma StronglySorted_weaken {A : Type} (R S : A -> A -> Prop) (l : list A) :
  (forall a b, R a b -> S a b) -> StronglySorted R l -> StronglySorted S l.
Proof.
  intros HRS. induction 1 as [|x l Hl IH Hall]; constructor; [exact IH|].
  eapply List.Forall_impl; [|exact Hall]. intros b. apply HRS.
Qed.

(** The slice after [sort.Slice]: the deduplicated results, rearranged
    into non-increasing scores. *)
Lemma ranked_spec chan :
  let ranked := sort_Slice SearchResult score_greater (snd (merge chan)) in
  Permutation (snd (merge chan)) ranked /\
  List.NoDup (List.map URL ranked) /\
  StronglySorted (fun a b => (Score b <= Score a)%Q) ranked.
Proof.
  intros ranked.
  destruct (sort_Slice_spec SearchResult score_greater (snd (merge chan))
              score_greater_swo) as [Hp Ho].
  fold ranked in Hp, Ho. split; [exact Hp|]. split.
  - eapply Permutation_NoDup; [apply Permutation_map; exact Hp|].
    rewrite merge_first_seen. apply first_seen_NoDup.
  - eapply StronglySorted_weaken; [|exact Ho].
    intros a b. apply score_greater_false.
Qed.

Lemma mergeResults_ranked chan maxResults :
  0 <= maxResults ->
  mergeResults sort_Slice chan maxResults
  = Some (firstn (Z.to_nat maxResults)
            (sort_Slice SearchResult score_greater (snd (merge chan)))).
Proof.
  intros Hpos. unfold mergeResults.
  destruct (maxResults <? Z.of_nat (length _)) eqn:E.
  - apply Z.ltb_ge in Hpos. rewrite Hpos. reflexivity.
  - apply Z.ltb_ge in E. rewrite firstn_all2; [reflexivity|]. lia.
Qed.

Lemma mergeResults_Some chan maxResults out :
  mergeResults sort_Slice chan maxResults = Some out -> 0 <= maxResults.
Proof.
  unfold mergeResults.
  destruct (maxResults <? Z.of_nat (length _)) eqn:E.
  - destruct (maxResults <? 0) eqn:E0; [discriminate|].
    intros _. apply Z.ltb_ge in E0. exact E0.
  - intros _. apply Z.ltb_ge in E. lia.
Qed.

Variable searchSingleQuery :
  string -> list string -> Z -> option (list SearchResult).
Variable completion : list string -> list string.

(** C1.  A call of [searchWithCache] with a bound [maxResults] that is
    not negative succeeds, whatever the sub-calls return and in whatever
    order they finish; and the list a successful call returns holds no
    URL twice, has scores that do not increase from first to last, and
    has at most [maxResults] elements. *)
Theorem searchWithCache_unique_ranked_bounded
    (queries domains : list string) (maxResults : Z) :
  (0 <= maxResults ->
   exists out,
     searchWithCache sort_Slice searchSingleQuery completion
       queries domains maxResults = Some out) /\
  (forall out,
     searchWithCache sort_Slice searchSingleQuery completion
       queries domains maxResults = Some out ->
     List.NoDup (List.map URL out) /\
     StronglySorted (fun a b => (Score b <= Score a)%Q) out /\
     Z.of_nat (length out) <= maxResults).
Proof.
  unfold searchWithCache.
  set (chan := resultsChan searchSingleQuery completion queries domains
                 maxResults).
  split.
  - intros Hpos. rewrite mergeResults_ranked by exact Hpos. eauto.
  - intros out Hout.
    destruct (ranked_spec chan) as (_ & Hnd & Hss).
    pose proof (mergeResults_Some _ _ _ Hout) as Hpos.
    rewrite mergeResults_ranked in Hout by exact Hpos.
    injection Hout as <-. split; [|split].
    + rewrite <- firstn_map. apply NoDup_firstn. exact Hnd.
    + apply StronglySorted_firstn. exact Hss.
    + rewrite length_firstn. lia.
Qed.

(** C2 (amended).  The deduplication keeps, for every URL of the merged
    sub-call results, the first result with that URL, and keeps these in
    the order of first appearance.  What a call with a bound that is not
    negative returns is a rearrangement of the deduplicated results into
    non-increasing scores, cut to [maxResults].  The order of two results
    with equal scores is whatever [sort.Slice] leaves. *)
Theorem dedup_first_seen_then_ranked
    (queries domains : list string) (maxResults : Z) :
  let merged :=
    concat (resultsChan searchSingleQuery completion queries domains
              maxResults) in
  let deduped :=
    snd (merge (resultsChan searchSingleQuery completion queries domains
                  maxResults)) in
  deduped = first_seen [] merged /\
  sublist deduped merged /\
  List.NoDup (List.map URL deduped) /\
  (forall r, In r merged -> In (URL r) (List.map URL deduped)) /\
  (forall r, In r deduped ->
     List.find (fun r' => String.eqb (URL r') (URL r)) merged = Some r) /\
  (0 <= maxResults ->
   exists ranked,
     Permutation deduped ranked /\
     StronglySorted (fun a b => (Score b <= Score a)%Q) ranked /\
     searchWithCache sort_Slice searchSingleQuery completion
       queries domains maxResults
     = Some (firstn (Z.to_nat maxResults) ranked)).
Proof.
  intros merged deduped. unfold deduped, merged, searchWithCache.
  set (chan := resultsChan searchSingleQuery completion queries domains
                 maxResults).
  rewrite merge_first_seen.
  split; [reflexivity|]. split; [apply first_seen_sublist|].
  split; [apply first_seen_NoDup|]. split; [|split].
  - intros r Hr. destruct (first_seen_covers _ [] r Hr) as [[]|H]. exact H.
  - intros r Hr. eapply first_seen_is_first. exact Hr.
  - intros Hpos. destruct (ranked_spec chan) as (Hp & _ & Hss).
    rewrite <- merge_first_seen.
    eexists. split; [exact Hp|]. split; [exact Hss|].
    apply mergeResults_ranked. exact Hpos.
Qed.

End FanoutTheorems.

Lemma searchWithCache_unique_ranked_bounded_witness :
  List.NoDup (List.map Search.URL Fanout.out_overlap) /\
  Z.of_nat (length Fanout.out_overlap) <= 3.
Proof.
  destruct (searchWithCache_unique_ranked_bounded GoSort.insertion_sort
              insertion_sort_SortSlice Fanout.provider_overlap (fun l => l)
              Fanout.queries_overlap [] 3) as [_ H].
  destruct (H Fanout.out_overlap) as (H1 & _ & H3).
  - vm_compute. reflexivity.
  - split; assumption.
Defined.

(** C2, as stated, fails.  Thirteen results from one sub-call, the first
    with the lowest score and the others tied: [sort.Slice] partitions
    around the seventh, which it moves to the front of its equals. *)
Lemma equal_scores_out_of_first_seen_order :
  Fanout.searchWithCache GoSort.Slice Fanout.provider_thirteen (fun l => l)
    ["fintech trends"] [] 30
  = Some Fanout.out_thirteen /\
  ~ Fanout.ties_in_first_seen_order
      (Fanout.resultsChan Fanout.provider_thirteen (fun l => l)
         ["fintech trends"] [] 30)
      Fanout.out_thirteen.
Proof.
  split; [vm_compute; reflexivity|].
  intros H.
  destruct (H 0%nat 1%nat
              (Fanout.result "https://a.example/07" (1 # 2))
              (Fanout.result "https://a.example/02" (1 # 2)))
    as (p & q & Hp & Hq & Hlt).
  - lia.
  - reflexivity.
  - reflexivity.
  - reflexivity.
  - vm_compute in Hp, Hq. injection Hp as <-. injection Hq as <-. lia.
Qed.

Lemma dedup_first_seen_then_ranked_witness :
  List.map Search.URL
    (snd (Fanout.merge
            (Fanout.resultsChan Fanout.provider_overlap (fun l => l)
               Fanout.queries_overlap [] 3)))
  = ["https://a.example/x"; "https://a.example/y"; "https://a.example/z";
     "https://a.example/w"] /\
  exists ranked,
    Fanout.searchWithCache GoSort.insertion_sort Fanout.provider_overlap
      (fun l => l) Fanout.queries_overlap [] 3
    = Some (firstn 3 ranked).
Proof.
  destruct (dedup_first_seen_then_ranked GoSort.insertion_sort
              insertion_sort_SortSlice Fanout.provider_overlap (fun l => l)
              Fanout.queries_overlap [] 3)
    as (Hd & _ & _ & _ & _ & Hr).
  split.
  - rewrite Hd. vm_compute. reflexivity.
  - destruct Hr as (ranked & _ & _ & Hs); [lia|].
    exists ranked. exact Hs.
Defined.

(** ** Expert agents *)

Section BaseAgentFacts.
Import GoStrings Agents.

Variable ToLower : string -> string.

Lemma count_matches q kws : forall acc,
  fold_left (fun matches kw =>
               if Contains q (ToLower kw) then matches + 1 else matches) kws acc
  = acc + Z.of_nat (length (List.filter (fun kw => Contains q (ToLower kw)) kws)).
Proof.
  induction kws as [|kw kws IH]; intros acc; simpl; [lia|].
  rewrite IH. destruct (Contains q (ToLower kw)); simpl; lia.
Qed.

Lemma ratio_le_1 m n : 0 < n -> m <= n -> (inject_Z m / inject_Z n <= 1)%Q.
Proof.
  intros Hn Hm. apply Qle_shift_div_r.
  - change 0%Q with (inject_Z 0). rewrite <- Zlt_Qlt. exact Hn.
  - rewrite Qmult_1_l. rewrite <- Zle_Qle. exact Hm.
Qed.

(** C7.  For an agent with at least one keyword, [CanHandle] counts the
    keywords whose lower-case form occurs in the lower-case question; it
    returns 0 when none occurs, and otherwise the larger of 0.5 and the
    share of matching keywords, a value between 0.5 and 1. *)
Theorem CanHandle_keyword_share (b : BaseAgent) (question : string) :
  keywords b <> [] ->
  let matches :=
    Z.of_nat (length (List.filter
                        (fun kw => Contains (ToLower question) (ToLower kw))
                        (keywords b))) in
  let total := Z.of_nat (length (keywords b)) in
  (matches = 0 -> BaseAgent_CanHandle ToLower b question = 0%Q) /\
  (0 < matches ->
   (BaseAgent_CanHandle ToLower b question
    == Qmax (1 # 2) (inject_Z matches / inject_Z total))%Q /\
   (1 # 2 <= BaseAgent_CanHandle ToLower b question)%Q /\
   (BaseAgent_CanHandle ToLower b question <= 1)%Q).
Proof.
  intros Hne matches total.
  assert (Htot : 0 < total).
  { unfold total. destruct (keywords b); [congruence|]. simpl. lia. }
  assert (Hle : matches <= total).
  { unfold matches, total. pose proof (filter_length_le
      (fun kw => Contains (ToLower question) (ToLower kw)) (keywords b)). lia. }
  unfold BaseAgent_CanHandle. rewrite count_matches, Z.add_0_l.
  fold matches total.
  assert (E : (total =? 0) = false) by (apply Z.eqb_neq; lia). rewrite E.
  split.
  - intros ->. reflexivity.
  - intros Hpos.
    assert (E' : (matches =? 0) = false) by (apply Z.eqb_neq; lia). rewrite E'.
    pose proof (ratio_le_1 matches total Htot Hle) as H1.
    destruct (Qle_bool (1 # 2) (inject_Z matches / inject_Z total)) eqn:Eh; simpl.
    + apply Qle_bool_iff in Eh. split; [|split; assumption].
      symmetry. apply Q.max_r. exact Eh.
    + assert (Hlt : (inject_Z matches / inject_Z total < 1 # 2)%Q).
      { apply Qnot_le_lt. intros H. apply Qle_bool_iff in H. congruence. }
      split; [|split].
      * symmetry. apply Q.max_l. apply Qlt_le_weak. exact Hlt.
      * apply Qle_refl.
      * discriminate.
Qed.

End BaseAgentFacts.

Lemma CanHandle_keyword_share_witness :
  (Agents.BaseAgent_CanHandle GoStrings.ToLower_ascii Agents.market_agent
     "investment stock MARKET price"
   == Qmax (1 # 2) (4 # 5))%Q.
Proof.
  destruct (CanHandle_keyword_share GoStrings.ToLower_ascii Agents.market_agent
              "investment stock MARKET price") as [_ H].
  - discriminate.
  - destruct H as [H _]; [reflexivity | exact H].
Defined.

(** ** The agent coordinator *)

Section CoordinatorFacts.
Import GoSort Agents.
Context {T : Type} `{Agent T}.

Variable sort_Slice : forall A : Type, (A -> A -> bool) -> list A -> list A.
Hypothesis sort_Slice_spec : SortSlice sort_Slice.
Variable TrimSpace : string -> string.
Variable completion : list T -> list T.
(** Every selected agent is run once. *)
Hypothesis completion_perm : forall l, Permutation (completion l) l.
Variable synthesis : list AgentResponse -> string -> option string.

Lemma scored_greater_swo : StrictWeakOrder (@scored_greater T).
Proof.
  unfold scored_greater. split.
  - intros a. apply negb_false_iff, Qle_bool_iff, Qle_refl.
  - intros a b c. rewrite !negb_true_iff. intros H1 H2.
    apply not_true_is_false. intros H3. apply Qle_bool_iff in H3.
    assert (Hab : (snd b < snd a)%Q).
    { apply Qnot_le_lt. intros Hle. apply Qle_bool_iff in Hle. congruence. }
    assert (Hbc : (snd c < snd b)%Q).
    { apply Qnot_le_lt. intros Hle. apply Qle_bool_iff in Hle. congruence. }
    apply (Qlt_not_le _ _ (Qlt_trans _ _ _ Hbc Hab)). exact H3.
  - intros a b c. rewrite !negb_false_iff, !Qle_bool_iff.
    intros H1 H2. eapply Qle_trans; eassumption.
Qed.

Lemma StronglySorted_map {A B : Type} (g : A -> B) (R : B -> B -> Prop) l :
  StronglySorted R (List.map g l) ->
  StronglySorted (fun a b => R (g a) (g b)) l.
Proof.
  induction l as [|x l IH]; simpl; intros Hs; [constructor|].
  inversion Hs as [|? ? Hs' Hall]; subst. constructor; [apply IH; exact Hs'|].
  rewrite List.Forall_forall in *. intros y Hy. apply Hall.
  apply in_map. exact Hy.
Qed.

Lemma map_fst_filter_scored (f : T -> Q) (p : Q -> bool) l :
  List.map fst (List.filter (fun s : T * Q => p (snd s))
                  (List.map (fun a => (a, f a)) l))
  = List.filter (fun a => p (f a)) l.
Proof.
  induction l as [|a l IH]; simpl; [reflexivity|].
  destruct (p (f a)); simpl; rewrite IH; reflexivity.
Qed.

(** The scored slice after [sort.Slice] pairs a ranking of the agents
    with their scores. *)
Lemma ranking (c : Coordinator T) (question : string) :
  let scores :=
    sort_Slice (T * Q)%type scored_greater
      (List.map (fun a => (a, CanHandle a question)) (agents c)) in
  let ranked := List.map fst scores in
  scores = List.map (fun a => (a, CanHandle a question)) ranked /\
  Permutation (agents c) ranked /\
  StronglySorted
    (fun a b => (CanHandle b question <= CanHandle a question)%Q) ranked.
Proof.
  intros scores ranked.
  destruct (sort_Slice_spec (T * Q)%type scored_greater
              (List.map (fun a => (a, CanHandle a question)) (agents c))
              scored_greater_swo) as [Hp Ho].
  fold scores in Hp, Ho.
  assert (Hs : scores = List.map (fun a => (a, CanHandle a question)) ranked).
  { unfold ranked. rewrite List.map_map.
    assert (Hall : forall s, In s scores -> s = (fst s, CanHandle (fst s) question)).
    { intros s Hs. apply (Permutation_in _ (Permutation_sym Hp)) in Hs.
      apply in_map_iff in Hs. destruct Hs as (a & <- & _). reflexivity. }
    clear -Hall. induction scores as [|s l IH]; simpl; [reflexivity|].
    rewrite <- (Hall s) by (left; reflexivity). f_equal.
    apply IH. intros s' Hs'. apply Hall. right. exact Hs'. }
  split; [exact Hs|]. split.
  - unfold ranked.
    rewrite <- (List.map_id (agents c)) at 1.
    rewrite <- (List.map_ext (fun a => fst (a, CanHandle a question)) id)
      by reflexivity.
    rewrite <- (List.map_map (fun a => (a, CanHandle a question)) fst).
    apply Permutation_map. exact Hp.
  - unfold ordered_by in Ho. rewrite Hs in Ho.
    apply StronglySorted_map in Ho.
    eapply StronglySorted_weaken; [|exact Ho].
    intros a b. unfold scored_greater; simpl.
    rewrite negb_false_iff. apply Qle_bool_iff.
Qed.

Lemma selectAgents_ranked (c : Coordinator T) (question : string) maxAgents :
  0 <= maxAgents ->
  let ranked :=
    List.map fst
      (sort_Slice (T * Q)%type scored_greater
         (List.map (fun a => (a, CanHandle a question)) (agents c))) in
  let kept :=
    List.filter (fun a => Qle_bool (minConfidence c) (CanHandle a question))
      ranked in
  selectAgents sort_Slice c question maxAgents
  = Some (firstn (Z.to_nat maxAgents)
            (if Z.of_nat (length kept) =? 0 then ranked else kept)).
Proof.
  intros Hpos ranked kept.
  destruct (ranking c question) as (Hs & Hp & _). fold ranked in Hs, Hp.
  unfold selectAgents.
  destruct (Z.of_nat (length (agents c)) =? 0) eqn:E0.
  - apply Z.eqb_eq in E0.
    assert (Hnil : ranked = []).
    { apply Permutation_length in Hp. destruct ranked; [reflexivity|].
      simpl in Hp. lia. }
    unfold kept. rewrite Hnil. simpl. rewrite firstn_nil. reflexivity.
  - set (scores := sort_Slice (T * Q)%type scored_greater
                     (List.map (fun a => (a, CanHandle a question)) (agents c))).
    fold scores in Hs. change (List.map fst scores) with ranked.
    assert (Hk : List.map fst
                   (List.filter
                      (fun s : T * Q => Qle_bool (minConfidence c) (snd s))
                      scores) = kept).
    { rewrite Hs.
      apply (map_fst_filter_scored (fun a => CanHandle a question)
               (fun x => Qle_bool (minConfidence c) x) ranked). }
    rewrite Hk.
    set (result := if Z.of_nat (length kept) =? 0 then ranked else kept).
    destruct (maxAgents <? Z.of_nat (length result)) eqn:E.
    + apply Z.ltb_ge in Hpos. rewrite Hpos. reflexivity.
    + apply Z.ltb_ge in E. rewrite firstn_all2; [reflexivity|].
      clearbody result. lia.
Qed.

Lemma length_omap_le {A B : Type} (f : A -> option B) (l : list A) :
  (length (omap f l) <= length l)%nat.
Proof.
  induction l as [|x l IH]; csimpl; [lia|].
  destruct (f x); csimpl; lia.
Qed.

Lemma maxAgentsFor_cases (s : Domain.Strategy) :
  (Domain.Type_ s = Domain.StrategyQuick -> maxAgentsFor s = 1) /\
  (Domain.Type_ s = Domain.StrategyStandard -> maxAgentsFor s = 2) /\
  (Domain.Type_ s = Domain.StrategyDeep -> maxAgentsFor s = 4) /\
  (Domain.Type_ s <> Domain.StrategyQuick ->
   Domain.Type_ s <> Domain.StrategyStandard ->
   Domain.Type_ s <> Domain.StrategyDeep -> maxAgentsFor s = 2).
Proof.
  unfold maxAgentsFor. repeat split.
  - intros ->. reflexivity.
  - intros ->. reflexivity.
  - intros ->. reflexivity.
  - intros H1 H2 H3.
    apply String.eqb_neq in H1, H2, H3. rewrite H1, H2, H3. reflexivity.
Qed.

(** C6.  [maxAgentsFor] is 1 for quick, 2 for standard, 4 for deep and 2
    for anything else.  [selectAgents] scores every agent with
    [CanHandle] and ranks the agents by non-increasing score; it keeps,
    in that order, those whose score reaches [minConfidence], which
    [NewCoordinator] sets to 0.3, or all of them when none does, and
    returns the first [maxAgents] of these.  The agents a response of
    [Process] names never exceed [maxAgentsFor] of the strategy. *)
Theorem selectAgents_quota (agents : list T) (question : string) :
  let c := NewCoordinator agents in
  (forall s,
     (Domain.Type_ s = Domain.StrategyQuick -> maxAgentsFor s = 1) /\
     (Domain.Type_ s = Domain.StrategyStandard -> maxAgentsFor s = 2) /\
     (Domain.Type_ s = Domain.StrategyDeep -> maxAgentsFor s = 4) /\
     (Domain.Type_ s <> Domain.StrategyQuick ->
      Domain.Type_ s <> Domain.StrategyStandard ->
      Domain.Type_ s <> Domain.StrategyDeep -> maxAgentsFor s = 2)) /\
  (forall maxAgents, 0 <= maxAgents ->
   exists ranked,
     Permutation agents ranked /\
     StronglySorted
       (fun a b => (CanHandle b question <= CanHandle a question)%Q) ranked /\
     let kept :=
       List.filter (fun a => Qle_bool (3 # 10) (CanHandle a question)) ranked in
     selectAgents sort_Slice c question maxAgents
     = Some (firstn (Z.to_nat maxAgents)
               (match kept with [] => ranked | _ => kept end))) /\
  (forall maxAgents selected,
     0 <= maxAgents ->
     selectAgents sort_Slice c question maxAgents = Some selected ->
     Z.of_nat (length selected) <= maxAgents) /\
  (forall req resp,
     Coordinator_Process sort_Slice TrimSpace completion synthesis c req
     = Some (inr resp) ->
     Z.of_nat (length (AgentsUsed resp)) <= maxAgentsFor (Strategy req)).
Proof.
  intros c. split; [apply maxAgentsFor_cases|].
  assert (Hquota : forall q maxAgents selected,
            0 <= maxAgents ->
            selectAgents sort_Slice c q maxAgents = Some selected ->
            Z.of_nat (length selected) <= maxAgents).
  { intros q maxAgents selected Hle Hsel.
    rewrite selectAgents_ranked in Hsel by exact Hle.
    injection Hsel as <-. rewrite length_firstn. lia. }
  split; [|split].
  - intros maxAgents Hle.
    destruct (ranking c question) as (_ & Hp & Hss).
    eexists. split; [exact Hp|]. split; [exact Hss|].
    cbv zeta. rewrite selectAgents_ranked by exact Hle.
    do 2 f_equal. simpl minConfidence.
    destruct (List.filter _ _); reflexivity.
  - intros maxAgents selected. apply Hquota.
  - intros req resp Hresp. unfold Coordinator_Process in Hresp.
    destruct (AgentRequest_Validate TrimSpace req); [discriminate|].
    destruct (selectAgents sort_Slice c (Question req)
                (maxAgentsFor (Strategy req))) as [selected|] eqn:Hsel;
      [|discriminate].
    assert (Hmax : 0 <= maxAgentsFor (Strategy req)).
    { unfold maxAgentsFor. repeat destruct (String.eqb _ _); lia. }
    pose proof (Hquota _ _ _ Hmax Hsel) as Hq.
    assert (Hrun : (length (runParallel completion selected req)
                    <= length selected)%nat).
    { unfold runParallel.
      rewrite <- (Permutation_length (completion_perm selected)).
      apply length_omap_le. }
    destruct (Z.of_nat (length (runParallel completion selected req)) =? 0);
      [discriminate|].
    destruct (match runParallel completion selected req with
              | [r] => Some (Content r)
              | _ => synthesize synthesis (runParallel completion selected req)
                       (Question req)
              end); [|discriminate].
    injection Hresp as <-. simpl. rewrite length_map. lia.
Qed.

End CoordinatorFacts.

Lemma selectAgents_quota_witness :
  option_map (List.map Agents.mock_name)
    (Agents.selectAgents GoSort.insertion_sort
       (Agents.NewCoordinator Agents.mock_agents) "test" 2)
  = Some ["high"; "medium"] /\
  exists resp,
    Agents.Coordinator_Process GoSort.insertion_sort GoStrings.TrimSpace_ascii
      (fun l => l) (fun _ _ => Some "synthesis")
      (Agents.NewCoordinator Agents.mock_agents) Agents.mock_request
    = Some (inr resp) /\
    Z.of_nat (length (Agents.AgentsUsed resp)) <= 2.
Proof.
  destruct (selectAgents_quota GoSort.insertion_sort insertion_sort_SortSlice
              GoStrings.TrimSpace_ascii (fun l => l)
              (fun l => Permutation_refl l) (fun _ _ => Some "synthesis")
              Agents.mock_agents "test") as (_ & H2 & _ & H4).
  split.
  - destruct (H2 2) as (ranked & _ & _ & Hsel); [lia|].
    vm_compute. reflexivity.
  - eexists. split; [vm_compute; reflexivity|].
    apply (H4 Agents.mock_request). vm_compute. reflexivity.
Defined.


(** ** Source references *)

Section SourceRefFacts.
Import Search Service.

Lemma toSourceRefs_loop_spec trustMap results : forall i refs,
  length refs = (i + length results)%nat ->
  length (toSourceRefs_loop trustMap i results refs) = length refs /\
  (forall j, (j < i)%nat ->
     toSourceRefs_loop trustMap i results refs !! j = refs !! j) /\
  (forall k r, results !! k = Some r ->
     toSourceRefs_loop trustMap i results refs !! (i + k)%nat
     = Some (sourceRef trustMap (i + k) r)).
Proof.
  induction results as [|r0 rest IH]; intros i refs Hlen; simpl.
  - split; [reflexivity|]. split; [reflexivity|]. intros k r Hk.
    discriminate Hk.
  - destruct (IH (S i) (<[i := sourceRef trustMap i r0]> refs))
      as (H1 & H2 & H3).
    { rewrite length_insert. simpl in Hlen. lia. }
    split; [rewrite H1; apply length_insert|]. split.
    + intros j Hj. rewrite H2 by lia. apply list_lookup_insert_ne. lia.
    + intros [|k] r Hk; simpl in Hk.
      * injection Hk as <-. rewrite Nat.add_0_r, H2 by lia.
        apply list_lookup_insert_eq. simpl in Hlen. lia.
      * replace (i + S k)%nat with (S i + k)%nat by lia. apply H3. exact Hk.
Qed.

End SourceRefFacts.

(** ** The critic *)

Section CriticFacts.
Import GoStrings Critic.

Variable json_Unmarshal : string -> option CriticResult.
Variable CriticSystemPrompt : string.
Variable CompleteWithSystem : string -> string -> option string.

(** C4.  When [json.Unmarshal] fails on what [extractJSON] takes out of
    the response, [parseResponse] returns the result that is approved,
    has confidence 0.3 and a single issue, the text
    "critic_parse_failed: could not parse LLM response", in which the
    tests look for the marker critic_parse_failed; and [Review],
    when its context is live and the model has answered with that
    response, returns this result and no error. *)
Theorem parseResponse_tolerates_failure (llmResponse : string) :
  json_Unmarshal (extractJSON llmResponse) = None ->
  parseResponse json_Unmarshal llmResponse = parse_failed /\
  Approved parse_failed = true /\
  Confidence parse_failed = (3 # 10)%Q /\
  Issues parse_failed = ["critic_parse_failed: could not parse LLM response"] /\
  Exists (fun issue => Contains issue "critic_parse_failed" = true)
    (Issues parse_failed) /\
  (forall answer sources question,
     CompleteWithSystem CriticSystemPrompt
       (buildPrompt answer sources question) = Some llmResponse ->
     Review json_Unmarshal CriticSystemPrompt CompleteWithSystem
       false answer sources question
     = inr parse_failed).
Proof.
  intros Hfail.
  assert (Hp : parseResponse json_Unmarshal llmResponse = parse_failed).
  { unfold parseResponse. rewrite Hfail. reflexivity. }
  split; [exact Hp|]. split; [reflexivity|]. split; [reflexivity|].
  split; [reflexivity|]. split.
  - apply Exists_cons_hd. reflexivity.
  - intros answer sources question Hllm. unfold Review.
    rewrite Hllm, Hp. reflexivity.
Qed.

End CriticFacts.

Lemma parseResponse_tolerates_failure_witness :
  Critic.Review Critic.json_reject "system"
    (fun _ _ => Some "I cannot judge this answer.") false "draft" [] "why?"
  = inr Critic.parse_failed.
Proof.
  destruct (parseResponse_tolerates_failure Critic.json_reject "system"
              (fun _ _ => Some "I cannot judge this answer.")
              "I cannot judge this answer.") as (_ & _ & _ & _ & _ & H).
  - reflexivity.
  - apply H. reflexivity.
Defined.

(** ** The critic loop *)

Section CriticLoopFacts.
Import Search Critic Service.

Variable World : Type.
Variable critic_Review :
  string -> list SearchResult -> string -> World -> option CriticResult * World.
Variable improve_llm :
  string -> CriticResult -> list SearchResult -> string ->
  World -> option string * World.
Variable criticConfig : CriticConfig.
Variable sources : list SearchResult.
Variable question : string.

Local Abbreviation loop := (critic_loop World critic_Review improve_llm criticConfig
                    sources question).
Local Abbreviation R := (MaxRetries criticConfig).

Lemma count_reviews_snoc cs c :
  count_reviews (cs ++ [c])
  = count_reviews cs + match c with CallReview _ => 1 | _ => 0 end.
Proof.
  unfold count_reviews. rewrite List.filter_app, length_app.
  destruct c; simpl; lia.
Qed.

Lemma count_improves_snoc cs c :
  count_improves (cs ++ [c])
  = count_improves cs + match c with CallImprove _ => 1 | _ => 0 end.
Proof.
  unfold count_improves. rewrite List.filter_app, length_app.
  destruct c; simpl; lia.
Qed.

(** One turn of the loop, as the source has it. *)
Lemma loop_turn attempt currentAnswer st :
  loop attempt currentAnswer st =
  if attempt <=? R then
    let (result, w) :=
      critic_Review currentAnswer sources question (world World st) in
    let st1 := {| world := w;
                  calls := calls World st ++ [CallReview currentAnswer] |} in
    match result with
    | None => (currentAnswer, st1)
    | Some result =>
        if negb (NeedsRevisionStrict result (StrictMode criticConfig))
        then (currentAnswer, st1)
        else if R <=? attempt then (currentAnswer, st1)
        else
          let (improved, w') :=
            improve_llm currentAnswer result sources question w in
          let st2 := {| world := w';
                        calls := calls World st1 ++ [CallImprove currentAnswer] |} in
          match improved with
          | None => (currentAnswer, st2)
          | Some improvedAnswer => loop (attempt + 1) improvedAnswer st2
          end
    end
  else (currentAnswer, st).
Proof.
  simp critic_loop.
  destruct (Z_le_gt_dec attempt R) as [Hle|Hgt]; simpl.
  - assert (E : (attempt <=? R) = true) by (apply Z.leb_le; exact Hle).
    rewrite E. unfold bind, Review.
    destruct (critic_Review currentAnswer sources question (world World st))
      as [[result|] w]; [|reflexivity].
    destruct (negb (NeedsRevisionStrict result (StrictMode criticConfig)));
      [reflexivity|].
    destruct (R <=? attempt); [reflexivity|].
    unfold improveAnswer; simpl.
    destruct (improve_llm currentAnswer result sources question w)
      as [[improved|] w']; reflexivity.
  - assert (E : (attempt <=? R) = false) by (apply Z.leb_gt; lia).
    rewrite E. reflexivity.
Qed.

Lemma loop_calls (n : nat) : forall attempt currentAnswer st,
  Z.to_nat (R + 1 - attempt) = n ->
  count_reviews (calls World (snd (loop attempt currentAnswer st)))
  - count_reviews (calls World st) <= Z.max 0 (R + 1 - attempt) /\
  count_improves (calls World (snd (loop attempt currentAnswer st)))
  - count_improves (calls World st) <= Z.max 0 (R - attempt).
Proof.
  induction n as [|n IH]; intros attempt cur st Hn; rewrite loop_turn.
  - assert (E : (attempt <=? R) = false) by (apply Z.leb_gt; lia).
    rewrite E. simpl. lia.
  - assert (E : (attempt <=? R) = true) by (apply Z.leb_le; lia).
    rewrite E.
    destruct (critic_Review cur sources question (world World st))
      as [[result|] w]; simpl.
    2:{ rewrite count_reviews_snoc, count_improves_snoc. lia. }
    destruct (negb (NeedsRevisionStrict result (StrictMode criticConfig))); simpl.
    { rewrite count_reviews_snoc, count_improves_snoc. lia. }
    destruct (R <=? attempt) eqn:E2; simpl.
    { rewrite count_reviews_snoc, count_improves_snoc. lia. }
    apply Z.leb_gt in E2.
    destruct (improve_llm cur result sources question w) as [[improved|] w'];
      simpl.
    2:{ rewrite !count_reviews_snoc, !count_improves_snoc. lia. }
    match goal with
    | |- context [loop (attempt + 1) improved ?s] =>
        destruct (IH (attempt + 1) improved s) as [H1 H2]; [lia|];
        simpl in H1, H2;
        rewrite !count_reviews_snoc in H1;
        rewrite !count_improves_snoc in H2
    end.
    lia.
Qed.

(** C3.  The critic loop is a total function of the draft and of what
    the critic and the model answer, so it ends and returns an answer.
    With [MaxRetries] at least 0 it calls [Review] at most
    [MaxRetries + 1] times and the improving model at most [MaxRetries]
    times.  In a turn of the loop, an error of [Review] ends the loop
    with the answer at hand, and so does an error of the improving
    call. *)
Theorem reviewWithCritic_bounded (answer : string) (st : state World) :
  0 <= R ->
  (exists final st',
     reviewWithCritic World critic_Review improve_llm criticConfig
       sources question answer st = (final, st') /\
     count_reviews (calls World st') - count_reviews (calls World st) <= R + 1 /\
     count_improves (calls World st') - count_improves (calls World st) <= R) /\
  (forall attempt currentAnswer st1,
     attempt <= R ->
     fst (critic_Review currentAnswer sources question (world World st1)) = None ->
     fst (loop attempt currentAnswer st1) = currentAnswer) /\
  (forall attempt currentAnswer st1 result w,
     attempt <= R ->
     critic_Review currentAnswer sources question (world World st1)
     = (Some result, w) ->
     fst (improve_llm currentAnswer result sources question w) = None ->
     fst (loop attempt currentAnswer st1) = currentAnswer).
Proof.
  intros HR. split; [|split].
  - unfold reviewWithCritic.
    destruct (loop 0 answer st) as [final st'] eqn:E.
    exists final, st'. split; [reflexivity|].
    destruct (loop_calls _ 0 answer st eq_refl) as [H1 H2].
    rewrite E in H1, H2. simpl in H1, H2. lia.
  - intros attempt cur st1 Hle Herr. rewrite loop_turn.
    assert (E : (attempt <=? R) = true) by (apply Z.leb_le; exact Hle).
    rewrite E.
    destruct (critic_Review cur sources question (world World st1))
      as [[result|] w]; [discriminate Herr | reflexivity].
  - intros attempt cur st1 result w Hle Hrev Herr. rewrite loop_turn.
    assert (E : (attempt <=? R) = true) by (apply Z.leb_le; exact Hle).
    rewrite E, Hrev.
    destruct (negb (NeedsRevisionStrict result (StrictMode criticConfig)));
      [reflexivity|].
    destruct (R <=? attempt); [reflexivity|].
    destruct (improve_llm cur result sources question w) as [[improved|] w'];
      [discriminate Herr | reflexivity].
Qed.

End CriticLoopFacts.

Lemma reviewWithCritic_bounded_witness :
  exists final st',
    Service.reviewWithCritic nat Service.picky_critic Service.eager_model
      {| Critic.MaxRetries := 2; Critic.StrictMode := false |} [] "why?"
      "draft" {| Service.world := 0%nat; Service.calls := [] |}
    = (final, st') /\
    Service.count_reviews (Service.calls nat st') <= 3 /\
    Service.count_improves (Service.calls nat st') <= 2.
Proof.
  destruct (reviewWithCritic_bounded nat Service.picky_critic
              Service.eager_model
              {| Critic.MaxRetries := 2; Critic.StrictMode := false |}
              [] "why?" "draft"
              {| Service.world := 0%nat; Service.calls := [] |})
    as [(final & st' & H1 & H2 & H3) _].
  - simpl. lia.
  - exists final, st'. split; [exact H1|]. simpl in H2, H3.
    change (Service.count_reviews []) with 0 in H2.
    change (Service.count_improves []) with 0 in H3. split; lia.
Defined.


(** The loop reads the configuration that [NewQueryService] has kept: a
    service made with no retries configured runs with two. *)
Remark NewQueryService_retries (c : Critic.CriticConfig) :
  0 <= Critic.MaxRetries c ->
  1 <= Critic.MaxRetries (Service.NewQueryService_criticConfig c) /\
  (Critic.MaxRetries c <> 0 ->
   Critic.MaxRetries (Service.NewQueryService_criticConfig c)
   = Critic.MaxRetries c).
Proof.
  intros H. unfold Service.NewQueryService_criticConfig; simpl.
  destruct (Critic.MaxRetries c =? 0) eqn:E.
  - split; [lia|]. apply Z.eqb_eq in E. congruence.
  - apply Z.eqb_neq in E. split; [lia | reflexivity].
Qed.

(** ** The tests of the repository, replayed on the embedding *)

Section RepositoryTests.
Import GoStrings.

(** [TestQueryRequest_Validate] *)
Example Validate_cases :
  Domain.Validate TrimSpace_ascii (Domain.request "What is Go?") = None /\
  Domain.Validate TrimSpace_ascii (Domain.request "") = Some Domain.ErrEmptyQuery /\
  Domain.Validate TrimSpace_ascii (Domain.request "   ") = Some Domain.ErrEmptyQuery /\
  Domain.Validate TrimSpace_ascii (Domain.request (Repeat "a" 1000)) = None /\
  Domain.Validate TrimSpace_ascii (Domain.request (Repeat "a" 1001))
  = Some Domain.ErrQueryTooLong.
Proof. repeat split; vm_compute; reflexivity. Qed.

(** [TestQueryRequest_Sanitize] *)
Example Sanitize_cases :
  Domain.Text (Domain.Sanitize TrimSpace_ascii (Domain.request "   Hello World   "))
  = "Hello World" /\
  Domain.Text (Domain.Sanitize TrimSpace_ascii (Domain.request "  Hello   World  "))
  = "Hello   World" /\
  Domain.Text (Domain.Sanitize TrimSpace_ascii (Domain.request "   ")) = "" /\
  Domain.Text (Domain.Sanitize TrimSpace_ascii
                 (Domain.request ("  " +:+ Repeat "a" 1100 +:+ "  ")))
  = Repeat "a" 1000.
Proof. repeat split; vm_compute; reflexivity. Qed.

(** [TestLimiter_Allow] and [TestLimiter_DifferentUsers] *)
Example Limiter_cases :
  List.map Ratelimit.allowed
    (snd (Ratelimit.run (Ratelimit.New {| Ratelimit.RequestsPerMinute := 3 |})
            [Ratelimit.EvAllow 1 12345; Ratelimit.EvAllow 2 12345;
             Ratelimit.EvAllow 3 12345; Ratelimit.EvAllow 4 12345]))
  = [true; true; true; false] /\
  List.map Ratelimit.allowed
    (snd (Ratelimit.run (Ratelimit.New {| Ratelimit.RequestsPerMinute := 1 |})
            [Ratelimit.EvAllow 1 111; Ratelimit.EvAllow 2 222;
             Ratelimit.EvAllow 3 111; Ratelimit.EvAllow 4 222]))
  = [true; true; false; false].
Proof. split; vm_compute; reflexivity. Qed.

(** [TestCoordinator_SelectAgents], with the sort of Go 1.24 *)
Example selectAgents_cases :
  option_map (List.map Agents.mock_name)
    (Agents.selectAgents GoSort.Slice
       (Agents.NewCoordinator
          [Agents.mock "high" (4 # 5); Agents.mock "medium" (1 # 2); Agents.mock "low" (1 # 5)])
       "test question" 4)
  = Some ["high"; "medium"] /\
  option_map (@length _)
    (Agents.selectAgents GoSort.Slice
       (Agents.NewCoordinator
          [Agents.mock "a1" (9 # 10); Agents.mock "a2" (4 # 5); Agents.mock "a3" (7 # 10);
           Agents.mock "a4" (3 # 5)])
       "test" 2)
  = Some 2%nat /\
  option_map (@length _)
    (Agents.selectAgents GoSort.Slice
       {| Agents.agents := [Agents.mock "a1" (1 # 10); Agents.mock "a2" (1 # 5)];
          Agents.minConfidence := 1 # 2 |}
       "test" 4)
  = Some 2%nat /\
  option_map (List.map Agents.mock_name)
    (Agents.selectAgents GoSort.Slice
       {| Agents.agents := [Agents.mock "low" (3 # 10); Agents.mock "high" (9 # 10);
                            Agents.mock "medium" (3 # 5)];
          Agents.minConfidence := 1 # 5 |}
       "test" 2)
  = Some ["high"; "medium"].
Proof. repeat split; vm_compute; reflexivity. Qed.

(** Scenario 6 of the specification: five sub-calls of two results each,
    with overlapping URLs; the bound of the deep strategy. *)
Example deep_dedup_and_rank :
  option_map (List.map Search.URL)
    (Fanout.mergeResults GoSort.Slice
       [[Fanout.result "u1" (9 # 10); Fanout.result "u2" (1 # 2)];
        [Fanout.result "u2" (3 # 5); Fanout.result "u3" (7 # 10)];
        [Fanout.result "u3" (1 # 10); Fanout.result "u4" (4 # 5)];
        [Fanout.result "u1" (1 # 5); Fanout.result "u5" (3 # 10)];
        [Fanout.result "u5" (1 # 1); Fanout.result "u6" (2 # 5)]]
       30)
  = Some ["u1"; "u4"; "u3"; "u2"; "u6"; "u5"].
Proof. vm_compute. reflexivity. Qed.

End RepositoryTests.

(** * Properties of the code around the claims *)

(** ** The cache *)

Section CacheFacts.
Import Cache.
Context {V : Type}.

Lemma Get_Set_same (c : Cache V) (now ttl later : Z) (key : string) (v : V) :
  Get later key (Set_ now key v ttl c)
  = (if later <=? now + ttl then Some v else None).
Proof.
  unfold Get, Set_; simpl.
  rewrite lookup_insert_eq. simpl. unfold Ratelimit.After.
  destruct (later <=? now + ttl) eqn:E.
  - apply Z.leb_le in E.
    assert (E' : (now + ttl <? later) = false) by (apply Z.ltb_ge; lia).
    rewrite E'. reflexivity.
  - apply Z.leb_gt in E.
    assert (E' : (now + ttl <? later) = true) by (apply Z.ltb_lt; lia).
    rewrite E'. reflexivity.
Qed.

(** X1.  [Set] then [Get]: the value is served up to and including the
    instant of expiry and never after; the other keys are untouched; a
    deleted key is gone. *)
Theorem cache_set_get (c : Cache V) (now ttl later : Z) (key other : string)
    (v : V) :
  Get later key (Set_ now key v ttl c)
  = (if later <=? now + ttl then Some v else None) /\
  (other <> key ->
   Get later other (Set_ now key v ttl c) = Get later other c /\
   Get later other (Delete key c) = Get later other c) /\
  Get later key (Delete key c) = None /\
  Get later key (Delete key (Set_ now key v ttl c)) = None.
Proof.
  split; [|unfold Get, Set_, Delete; simpl; split; [|split]].
  - apply Get_Set_same.
  - intros Hne. rewrite lookup_insert_ne by congruence.
    rewrite lookup_delete_ne by congruence. auto.
  - rewrite lookup_delete_eq. reflexivity.
  - rewrite lookup_delete_eq. reflexivity.
Qed.

(** X2.  A sweep changes no answer of [Get] at the time of the sweep or
    later: what it removes was already a miss. *)
Theorem cache_sweep_unobservable (c : Cache V) (sweep later : Z)
    (key : string) :
  sweep <= later ->
  Get later key (removeExpired sweep c) = Get later key c.
Proof.
  intros Hle. unfold Get, removeExpired; simpl.
  destruct (items c !! key) as [it|] eqn:E.
  - destruct (decide (expiresAt it < sweep)) as [Hexp|Hlive].
    + assert (Hnone : filter (fun kv : string * item V => ~ expiresAt (snd kv) < sweep)
                        (items c) !! key = None).
      { apply map_lookup_filter_None. right. intros it' Hit'.
        rewrite E in Hit'. injection Hit' as <-. simpl. tauto. }
      rewrite Hnone. unfold Ratelimit.After.
      assert (E' : (expiresAt it <? later) = true) by (apply Z.ltb_lt; lia).
      rewrite E'. reflexivity.
    + assert (Hsome : filter (fun kv : string * item V => ~ expiresAt (snd kv) < sweep)
                        (items c) !! key = Some it).
      { apply map_lookup_filter_Some. split; [exact E | exact Hlive]. }
      rewrite Hsome. reflexivity.
  - assert (Hnone : filter (fun kv : string * item V => ~ expiresAt (snd kv) < sweep)
                      (items c) !! key = None).
    { apply map_lookup_filter_None. left. exact E. }
    rewrite Hnone. reflexivity.
Qed.

End CacheFacts.

Lemma cache_sweep_unobservable_witness :
  Cache.Get 20 "k" (Cache.removeExpired 15 (Cache.Set_ 0 "k" 7%nat 10 Cache.New))
  = Cache.Get 20 "k" (Cache.Set_ 0 "k" 7%nat 10 Cache.New).
Proof.
  apply (cache_sweep_unobservable (Cache.Set_ 0 "k" 7%nat 10 Cache.New) 15 20 "k").
  lia.
Defined.

Lemma cache_set_get_witness :
  Cache.Get 5 "other" (Cache.Set_ 0 "k" 7%nat 10 (Cache.Set_ 0 "other" 1%nat 10 Cache.New))
  = Some 1%nat.
Proof.
  destruct (cache_set_get (Cache.Set_ 0 "other" 1%nat 10 Cache.New)
              0 10 5 "k" "other" 7%nat) as (_ & H & _).
  destruct H as [H _]; [discriminate|]. rewrite H. reflexivity.
Defined.

(** ** One cached search *)

Section StringOrder.

Lemma ascii_compare_N (a b : ascii) :
  Ascii.compare a b = N.compare (N_of_ascii a) (N_of_ascii b).
Proof. reflexivity. Qed.

Lemma string_compare_Lt_trans (a b c : string) :
  String.compare a b = Lt -> String.compare b c = Lt ->
  String.compare a c = Lt.
Proof.
  revert b c. induction a as [|x a IH]; intros [|y b] [|z c]; simpl;
    try congruence.
  rewrite !ascii_compare_N.
  destruct (N.compare_spec (N_of_ascii x) (N_of_ascii y)) as [Hxy|Hxy|Hxy];
    destruct (N.compare_spec (N_of_ascii y) (N_of_ascii z)) as [Hyz|Hyz|Hyz];
    try congruence; intros H1 H2.
  - rewrite Hxy, Hyz, N.compare_refl. eapply IH; eassumption.
  - rewrite Hxy. apply N.compare_lt_iff in Hyz. rewrite Hyz. reflexivity.
  - rewrite <- Hyz. apply N.compare_lt_iff in Hxy. rewrite Hxy. reflexivity.
  - assert (H : (N_of_ascii x < N_of_ascii z)%N) by lia.
    apply N.compare_lt_iff in H. rewrite H. reflexivity.
Qed.

Lemma string_before_Lt (a b : string) :
  CachedSearch.string_before a b = true <-> String.compare a b = Lt.
Proof.
  unfold CachedSearch.string_before, String.leb.
  rewrite (String.compare_antisym a b).
  destruct (String.compare b a); simpl; split; congruence.
Qed.

Lemma string_before_swo : GoSort.StrictWeakOrder CachedSearch.string_before.
Proof.
  split.
  - intros a. apply not_true_iff_false. rewrite string_before_Lt.
    assert (H : String.compare a a = Eq).
    { induction a as [|x a IH]; simpl; [reflexivity|].
      rewrite ascii_compare_N, N.compare_refl. exact IH. }
    congruence.
  - intros a b c. rewrite !string_before_Lt. apply string_compare_Lt_trans.
  - intros a b c Hab Hbc. apply not_true_iff_false. intros Hac.
    apply not_true_iff_false in Hab, Hbc.
    rewrite string_before_Lt in *.
    destruct (String.compare a b) eqn:E1; try congruence.
    + apply String.compare_eq_iff in E1. subst. congruence.
    + destruct (String.compare b c) eqn:E2; try congruence.
      * apply String.compare_eq_iff in E2. subst. congruence.
      * assert (Hcb : String.compare c b = Lt)
          by (rewrite String.compare_antisym, E2; reflexivity).
        assert (Hba : String.compare b a = Lt)
          by (rewrite String.compare_antisym, E1; reflexivity).
        pose proof (string_compare_Lt_trans _ _ _ Hcb Hba) as Hca.
        rewrite String.compare_antisym, Hac in Hca. discriminate.
Qed.

Lemma sort_Strings_insertion_spec :
  CachedSearch.SortStrings CachedSearch.sort_Strings_insertion.
Proof.
  intros l. unfold CachedSearch.sort_Strings_insertion.
  destruct (insertion_sort_spec CachedSearch.string_before string_before_swo l)
    as [Hp Ho].
  split; [exact Hp|].
  eapply StronglySorted_weaken; [|exact Ho].
  intros a b. unfold CachedSearch.string_before. apply negb_false_iff.
Qed.

Lemma sorted_strings_unique (l1 l2 : list string) :
  StronglySorted (fun a b => String.leb a b = true) l1 ->
  StronglySorted (fun a b => String.leb a b = true) l2 ->
  Permutation l1 l2 -> l1 = l2.
Proof.
  revert l2. induction l1 as [|a l1 IH]; intros l2 H1 H2 Hp.
  - apply Permutation_nil in Hp. congruence.
  - destruct l2 as [|b l2].
    { apply Permutation_sym, Permutation_nil in Hp. discriminate. }
    inversion H1 as [|? ? H1' Ha]; subst.
    inversion H2 as [|? ? H2' Hb]; subst.
    assert (Hab : a = b).
    { assert (Hin : In a (b :: l2))
        by (eapply Permutation_in; [exact Hp | left; reflexivity]).
      assert (Hin' : In b (a :: l1))
        by (eapply Permutation_in;
            [apply Permutation_sym; exact Hp | left; reflexivity]).
      destruct Hin as [->|Hin]; [reflexivity|].
      destruct Hin' as [->|Hin']; [reflexivity|].
      rewrite List.Forall_forall in Ha, Hb.
      apply String.leb_antisym; [apply Ha, Hin' | apply Hb, Hin]. }
    subst b. f_equal. apply IH; [assumption..|].
    eapply Permutation_cons_inv. exact Hp.
Qed.

End StringOrder.

Section CachedSearchFacts.
Import Search CachedSearch.
Variable ToLower TrimSpace : string -> string.
Variable Fields : string -> list string.
Variable sort_Strings : list string -> list string.
Variable sha256_hex8 : string -> string.
Variable CacheTTL : Z.
Hypothesis sort_Strings_spec : CachedSearch.SortStrings sort_Strings.

Local Abbreviation cacheKey :=
  (CachedSearch.cacheKey ToLower TrimSpace Fields sort_Strings sha256_hex8).
Local Abbreviation searchSingleQuery :=
  (CachedSearch.searchSingleQuery ToLower TrimSpace Fields sort_Strings
     sha256_hex8 CacheTTL).

Lemma cacheKey_perm (query : string) (domains domains' : list string) :
  Permutation domains domains' ->
  cacheKey query domains = cacheKey query domains'.
Proof.
  intros Hp. unfold CachedSearch.cacheKey.
  destruct (sort_Strings_spec domains) as [Hp1 Hs1].
  destruct (sort_Strings_spec domains') as [Hp2 Hs2].
  rewrite (sorted_strings_unique _ _ Hs1 Hs2); [reflexivity|].
  rewrite <- Hp1, <- Hp2. exact Hp.
Qed.

(** X3.  The cache key does not depend on the order in which the domains are
    listed, so a search over the same domains in another order is the
    same entry of the cache. *)
Theorem cacheKey_domain_order (query : string) (domains domains' : list string) :
  Permutation domains domains' ->
  cacheKey query domains = cacheKey query domains'.
Proof.
  intros Hp. unfold CachedSearch.cacheKey.
  destruct (sort_Strings_spec domains) as [Hp1 Hs1].
  destruct (sort_Strings_spec domains') as [Hp2 Hs2].
  assert (Hsame : sort_Strings domains = sort_Strings domains').
  { apply sorted_strings_unique; [exact Hs1 | exact Hs2 |].
    rewrite <- Hp1, <- Hp2. exact Hp. }
  rewrite Hsame. reflexivity.
Qed.

(** X4.  Once a search has missed the cache and the provider has answered, the
    same query over the same domains in any order, with any limit on the
    results, is answered from the cache with that same list until the
    entry expires, whatever the provider would say, and the cache is left
    as it is; after expiry the question goes to the provider again. *)
Theorem searchSingleQuery_served_from_cache
    (search search' : SearchRequest -> option SearchResponse)
    (now later now' later' : Z) (query : string)
    (domains domains' : list string) (maxResults maxResults' : Z)
    (c c' : Cache.Cache (list SearchResult)) (results : list SearchResult) :
  Cache.Get now (cacheKey query domains) c = None ->
  searchSingleQuery search now later query domains maxResults c
    = (Some results, c') ->
  Permutation domains domains' ->
  (now' <= later + CacheTTL ->
   searchSingleQuery search' now' later' query domains' maxResults' c'
     = (Some results, c')) /\
  (later + CacheTTL < now' ->
   fst (searchSingleQuery search' now' later' query domains' maxResults' c')
     = option_map Results
         (search' {| Query := query; IncludeDomains := domains';
                     ExcludeDomains := []; MaxResults := maxResults';
                     SearchDepth := "basic"; TimeRange := ""; Topic := "" |})).
Proof.
  intros Hmiss Hfirst Hp.
  unfold CachedSearch.searchSingleQuery in Hfirst. rewrite Hmiss in Hfirst.
  destruct (search _) as [resp|] eqn:Hs; [|discriminate].
  injection Hfirst as Hr Hc. subst results c'.
  unfold CachedSearch.searchSingleQuery.
  rewrite <- (cacheKey_perm query domains domains' Hp).
  pose proof (Get_Set_same c later CacheTTL now' (cacheKey query domains)
                (Results resp)) as Hget.
  split; intros Ht.
  - rewrite Hget. apply Z.leb_le in Ht. rewrite Ht. reflexivity.
  - rewrite Hget. apply Z.leb_gt in Ht. rewrite Ht.
    destruct (search' _); reflexivity.
Qed.

End CachedSearchFacts.

Lemma cacheKey_domain_order_witness :
  CachedSearch.cacheKey GoStrings.ToLower_ascii GoStrings.TrimSpace_ascii
    CachedSearch.Fields_ascii CachedSearch.sort_Strings_insertion
    CachedSearch.plain_digest "Open  Banking" ["cbr.ru"; "arxiv.org"]
  = CachedSearch.cacheKey GoStrings.ToLower_ascii GoStrings.TrimSpace_ascii
      CachedSearch.Fields_ascii CachedSearch.sort_Strings_insertion
      CachedSearch.plain_digest "Open  Banking" ["arxiv.org"; "cbr.ru"].
Proof.
  apply (cacheKey_domain_order GoStrings.ToLower_ascii GoStrings.TrimSpace_ascii
           CachedSearch.Fields_ascii CachedSearch.sort_Strings_insertion
           CachedSearch.plain_digest sort_Strings_insertion_spec).
  apply perm_swap.
Defined.

Lemma searchSingleQuery_served_from_cache_witness :
  CachedSearch.searchSingleQuery GoStrings.ToLower_ascii
    GoStrings.TrimSpace_ascii CachedSearch.Fields_ascii
    CachedSearch.sort_Strings_insertion CachedSearch.plain_digest 3600
    CachedSearch.provider_down 3601 3602 "Open  Banking"
    ["arxiv.org"; "cbr.ru"] 10 CachedSearch.cache_after_first
  = (Some CachedSearch.results_cached, CachedSearch.cache_after_first).
Proof.
  apply (proj1 (searchSingleQuery_served_from_cache GoStrings.ToLower_ascii
           GoStrings.TrimSpace_ascii CachedSearch.Fields_ascii
           CachedSearch.sort_Strings_insertion CachedSearch.plain_digest 3600
           sort_Strings_insertion_spec
           (CachedSearch.provider_fixed CachedSearch.results_cached)
           CachedSearch.provider_down 0 1 3601 3602 "Open  Banking"
           ["cbr.ru"; "arxiv.org"] ["arxiv.org"; "cbr.ru"] 5 10
           Cache.New CachedSearch.cache_after_first
           CachedSearch.results_cached
           eq_refl eq_refl (perm_swap _ _ _))).
  lia.
Defined.


(** ** Reading a limiter *)

Section RatelimitReadFacts.
Import Ratelimit RatelimitRead.

Lemma count_fold_filter (p : Z -> bool) (ts : list Z) (n : Z) :
  fold_left (fun cnt t => if p t then cnt + 1 else cnt) ts n
  = n + Z.of_nat (length (List.filter p ts)).
Proof.
  revert n. induction ts as [|t ts IH]; intros n; simpl; [lia|].
  rewrite IH. destruct (p t); simpl; lia.
Qed.

Lemma RemainingRequests_count now u l :
  RemainingRequests now u l
  = Z.max 0 (limit l - Z.of_nat (length (List.filter
                 (fun t => After t (now - window l)) (lookup_requests l u)))).
Proof.
  unfold RemainingRequests. rewrite count_fold_filter. simpl.
  destruct (0 <? _) eqn:E; [apply Z.ltb_lt in E | apply Z.ltb_ge in E]; lia.
Qed.

Lemma length_filter_le {A} (p : A -> bool) (l : list A) :
  (length (List.filter p l) <= length l)%nat.
Proof.
  induction l as [|a l IH]; simpl; [lia|]. destruct (p a); simpl; lia.
Qed.

Lemma length_filter_narrow c c' ts :
  c' <= c ->
  (length (List.filter (fun t => After t c) ts)
   <= length (List.filter (fun t => After t c') ts))%nat.
Proof.
  intros Hc. rewrite <- (filter_After_narrow c c' ts Hc).
  apply length_filter_le.
Qed.

(** X5.  [Allow] admits exactly when [RemainingRequests] at the same instant
    is positive.  Within the window after an admitted call the principal
    has one request fewer left than it would have had; a refused call
    changes what is left for nobody, and no call changes what is left for
    another principal. *)
Theorem Allow_consumes_one (l : Limiter) (now now' u v : Z) :
  0 < window l ->
  now <= now' < now + window l ->
  let l' := fst (Allow now u l) in
  snd (Allow now u l) = (0 <? RemainingRequests now u l) /\
  RemainingRequests now' u l'
  = (if snd (Allow now u l) then RemainingRequests now' u l - 1
     else RemainingRequests now' u l) /\
  (v <> u -> RemainingRequests now' v l' = RemainingRequests now' v l).
Proof.
  intros Hw Hnow l'. subst l'.
  rewrite !RemainingRequests_count.
  destruct (Allow_config now u l) as [Hlim Hwin]. rewrite Hlim, Hwin.
  rewrite Allow_decision.
  split; [|split].
  - destruct (_ <? limit l) eqn:E;
      [apply Z.ltb_lt in E | apply Z.ltb_ge in E]; symmetry;
      [apply Z.ltb_lt | apply Z.ltb_ge]; lia.
  - rewrite lookup_requests_Allow.
    destruct (decide (u = u)) as [_|]; [|congruence].
    rewrite List.filter_app, length_app, filter_After_narrow by lia.
    rewrite Allow_decision.
    pose proof (length_filter_narrow (now' - window l) (now - window l)
                  (lookup_requests l u) ltac:(lia)) as Hle.
    destruct (_ <? limit l) eqn:E;
      [apply Z.ltb_lt in E | apply Z.ltb_ge in E]; simpl.
    + unfold After at 2.
      assert (Hin : (now' - window l <? now) = true) by (apply Z.ltb_lt; lia).
      rewrite Hin. simpl. lia.
    + lia.
  - intros Hv. rewrite lookup_requests_Allow.
    destruct (decide (u = v)); [congruence|reflexivity].
Qed.

Lemma Allow_stored_within_limit now u l :
  stored_within_limit l -> stored_within_limit (fst (Allow now u l)).
Proof.
  intros Hb v. rewrite lookup_requests_Allow.
  destruct (Allow_config now u l) as [Hlim _]. rewrite Hlim.
  destruct (decide (u = v)) as [->|]; [|apply Hb].
  rewrite length_app, Allow_decision.
  pose proof (length_filter_le (fun t => After t (now - window l))
                (lookup_requests l v)) as Hle.
  specialize (Hb v).
  destruct (_ <? limit l) eqn:E;
    [apply Z.ltb_lt in E | apply Z.ltb_ge in E]; simpl; lia.
Qed.

Lemma step_stored_within_limit st e :
  stored_within_limit (fst st) -> stored_within_limit (fst (step st e)).
Proof.
  intros Hb. destruct e as [now u|now]; simpl.
  - pose proof (Allow_stored_within_limit now u (fst st) Hb) as H.
    destruct (Allow now u (fst st)); exact H.
  - intros v. rewrite lookup_requests_cleanup_tick. simpl.
    pose proof (length_filter_le (fun t => After t (now - window (fst st)))
                  (lookup_requests (fst st) v)) as Hle.
    specialize (Hb v). lia.
Qed.

Lemma run_stored_within_limit cfg es :
  stored_within_limit (fst (run (New cfg) es)) /\
  1 <= limit (fst (run (New cfg) es)).
Proof.
  unfold run.
  assert (H : forall st, stored_within_limit (fst st) -> 1 <= limit (fst st) ->
            stored_within_limit (fst (fold_left step es st)) /\
            1 <= limit (fst (fold_left step es st))).
  { induction es as [|e es IH]; intros st Hb Hl; simpl; [auto|].
    apply IH; [apply step_stored_within_limit; exact Hb|].
    destruct (step_config st e) as [-> _]. exact Hl. }
  apply H; simpl.
  - intros u. unfold lookup_requests. simpl. rewrite lookup_empty. simpl.
    pose proof (New_limit_pos cfg). simpl in *. lia.
  - apply New_limit_pos.
Qed.

Lemma oldest_spec (rest : list Z) (t0 : Z) :
  let oldest := fold_left (fun oldest t => if Before t oldest then t else oldest)
                  rest t0 in
  In oldest (t0 :: rest) /\ forall t, In t (t0 :: rest) -> oldest <= t.
Proof.
  revert t0. induction rest as [|t rest IH]; intros t0; simpl.
  - split; [auto|]. intros t [->|[]]. lia.
  - specialize (IH (if Before t t0 then t else t0)). simpl in IH.
    destruct IH as [Hin Hmin]. unfold Before in *. split.
    + destruct Hin as [Hin|Hin]; [|auto].
      rewrite <- Hin. destruct (t <? t0); auto.
    + intros x Hx.
      assert (Hm : fold_left (fun oldest t1 => if t1 <? oldest then t1 else oldest)
                     rest (if t <? t0 then t else t0)
                   <= (if t <? t0 then t else t0)) by (apply Hmin; auto).
      destruct (t <? t0) eqn:E;
        [apply Z.ltb_lt in E | apply Z.ltb_ge in E];
        destruct Hx as [<-|[<-|Hx]]; try lia; apply Hmin; auto.
Qed.

Lemma length_filter_lt {A} (p : A -> bool) (l : list A) (a : A) :
  In a l -> p a = false -> (length (List.filter p l) < length l)%nat.
Proof.
  induction l as [|b l IH]; simpl; [tauto|]. intros [->|Hin] Hp.
  - rewrite Hp. pose proof (length_filter_le p l). lia.
  - specialize (IH Hin Hp). destruct (p b); simpl; lia.
Qed.

(** X6.  On a limiter that has run from [New], a call of the principal at the
    time [ResetTime] reports, or at any time from then on, is admitted;
    and right after a refused call that time lies in the future. *)
Theorem ResetTime_admits (cfg : Config) (es : list event) (now u t : Z) :
  let l := fst (run (New cfg) es) in
  (ResetTime now u l <= t -> snd (Allow t u l) = true) /\
  (snd (Allow now u l) = false ->
   now < ResetTime now u (fst (Allow now u l))).
Proof.
  intros l. destruct (run_stored_within_limit cfg es) as [Hb Hl].
  fold l in Hb, Hl. split.
  - intros Ht. rewrite Allow_decision. apply Z.ltb_lt.
    specialize (Hb u). unfold ResetTime in Ht.
    destruct (lookup_requests l u) as [|t0 rest] eqn:E; [simpl; lia|].
    destruct (oldest_spec rest t0) as [Hin _]. cbv zeta in Hin.
    pose proof (length_filter_lt (fun x => After x (t - window l))
                  (t0 :: rest) _ Hin) as Hlt.
    assert (Hd : After (fold_left (fun oldest x => if Before x oldest then x else oldest)
                          rest t0) (t - window l) = false).
    { unfold After. apply Z.ltb_ge. lia. }
    specialize (Hlt Hd). lia.
  - intros Hden. unfold ResetTime.
    rewrite lookup_requests_Allow. destruct (Allow_config now u l) as [_ ->].
    destruct (decide (u = u)); [|congruence]. rewrite Hden, app_nil_r.
    rewrite Allow_decision in Hden. apply Z.ltb_ge in Hden.
    destruct (List.filter _ (lookup_requests l u)) as [|t0 rest] eqn:E;
      [simpl in Hden; lia|].
    destruct (oldest_spec rest t0) as [Hin _]. cbv zeta in Hin.
    rewrite <- E in Hin. apply List.filter_In in Hin. destruct Hin as [_ Hin].
    unfold After in Hin. apply Z.ltb_lt in Hin. lia.
Qed.

Lemma in_step_later T T' st1 st2 :
  T <= T' -> in_step T st1 st2 -> in_step T' st1 st2.
Proof.
  intros Hle (Ha & Hl & Hw & Hf).
  split; [assumption|]. split; [assumption|]. split; [assumption|].
  intros u c Hc. apply Hf. lia.
Qed.

Lemma in_step_call T now u st1 st2 :
  in_step T st1 st2 -> T <= now ->
  in_step now (step st1 (EvAllow now u)) (step st2 (EvAllow now u)).
Proof.
  intros (Ha & Hl & Hw & Hf) Hle. simpl.
  pose proof (lookup_requests_Allow now u (fst st1)) as L1.
  pose proof (lookup_requests_Allow now u (fst st2)) as L2.
  pose proof (Allow_config now u (fst st1)) as [C1 W1].
  pose proof (Allow_config now u (fst st2)) as [C2 W2].
  assert (Hd : snd (Allow now u (fst st1)) = snd (Allow now u (fst st2))).
  { rewrite !Allow_decision, <- Hw, <- Hl, Hf by lia. reflexivity. }
  destruct (Allow now u (fst st1)) as [l1 ok1].
  destruct (Allow now u (fst st2)) as [l2 ok2]. simpl in *. subst ok2.
  unfold in_step; cbn [fst snd].
  split; [congruence|]. split; [congruence|]. split; [congruence|].
  intros v c Hc. rewrite L1, L2. rewrite W1 in Hc.
  destruct (decide (u = v)) as [->|]; [|apply Hf; lia].
  rewrite !List.filter_app, !filter_After_narrow by lia.
  rewrite Hf by lia. reflexivity.
Qed.

Lemma in_step_tick T now st1 st2 :
  in_step T st1 st2 -> T <= now ->
  in_step now (step st1 (EvCleanup now)) st2.
Proof.
  intros (Ha & Hl & Hw & Hf) Hle. unfold in_step; simpl.
  split; [assumption|]. split; [assumption|]. split; [assumption|].
  intros v c Hc. rewrite lookup_requests_cleanup_tick.
  rewrite filter_After_narrow by lia. apply Hf. lia.
Qed.

Lemma fold_step_in_step es : forall T st1 st2,
  in_step T st1 st2 ->
  StronglySorted Z.le (T :: List.map event_time es) ->
  snd (fold_left step es st1)
  = snd (fold_left step (List.filter is_call es) st2).
Proof.
  induction es as [|e es IH]; intros T st1 st2 Hin Hs; simpl.
  - apply Hin.
  - inversion Hs as [|? ? Hs' Hall]; subst. simpl in Hs', Hall.
    inversion Hall as [|? ? Hte _]; subst.
    destruct e as [now u|now]; simpl.
    + apply (IH now); [|exact Hs'].
      apply (in_step_call T now u st1 st2 Hin Hte).
    + apply (IH now); [|exact Hs'].
      apply (in_step_tick T now st1 st2 Hin Hte).
Qed.

(** X7.  The sweeps of [cleanup] cannot be observed: when the clock does not
    run backwards, a run answers every call as the same run without its
    ticks does. *)
Theorem cleanup_unobservable (cfg : Config) (es : list event) :
  StronglySorted Z.le (List.map event_time es) ->
  snd (run (New cfg) es) = snd (run (New cfg) (List.filter is_call es)).
Proof.
  intros Hs. unfold run. destruct es as [|e es]; [reflexivity|].
  apply (fold_step_in_step (e :: es) (event_time e)).
  - repeat split; reflexivity.
  - constructor; [exact Hs|]. simpl in Hs.
    inversion Hs as [|? ? _ Hall]; subst.
    constructor; [apply Z.le_refl|exact Hall].
Qed.

End RatelimitReadFacts.

Lemma Allow_consumes_one_witness :
  RatelimitRead.RemainingRequests 5 7
    (fst (Ratelimit.Allow 0 7 (Ratelimit.New {| Ratelimit.RequestsPerMinute := 2 |})))
  = 1.
Proof.
  destruct (Allow_consumes_one
              (Ratelimit.New {| Ratelimit.RequestsPerMinute := 2 |}) 0 5 7 8)
    as (_ & H & _).
  - reflexivity.
  - vm_compute. split; [discriminate | reflexivity].
  - rewrite H. reflexivity.
Defined.

Lemma ResetTime_admits_witness :
  snd (Ratelimit.Allow Ratelimit.Minute 7
         (fst (Ratelimit.run
                 (Ratelimit.New {| Ratelimit.RequestsPerMinute := 2 |})
                 RatelimitRead.events_burst))) = true.
Proof.
  apply (proj1 (ResetTime_admits {| Ratelimit.RequestsPerMinute := 2 |}
                  RatelimitRead.events_burst 30 7 Ratelimit.Minute)).
  vm_compute. discriminate.
Defined.

Lemma cleanup_unobservable_witness :
  snd (Ratelimit.run (Ratelimit.New {| Ratelimit.RequestsPerMinute := 2 |})
         Ratelimit.events_two_principals)
  = snd (Ratelimit.run (Ratelimit.New {| Ratelimit.RequestsPerMinute := 2 |})
           (List.filter RatelimitRead.is_call Ratelimit.events_two_principals)).
Proof.
  apply (cleanup_unobservable {| Ratelimit.RequestsPerMinute := 2 |}
           Ratelimit.events_two_principals).
  repeat constructor; vm_compute; discriminate.
Defined.


(** ** The JSON object in a response of the critic *)

Section ExtractJSONFacts.
Import GoStrings Critic CriticText.

Lemma append_nil (s : string) : EmptyString +:+ s = s.
Proof. reflexivity. Qed.

Lemma append_cons (c : ascii) (s t : string) :
  String c s +:+ t = String c (s +:+ t).
Proof. reflexivity. Qed.

Lemma append_empty_r (s : string) : s +:+ EmptyString = s.
Proof.
  induction s as [|c s IH]; [reflexivity|]. rewrite append_cons, IH. reflexivity.
Qed.

Lemma IndexByte_app_skip (pre s : string) (c : ascii) :
  IndexByte pre c = None ->
  IndexByte (pre +:+ s) c = option_map (Nat.add (String.length pre)) (IndexByte s c).
Proof.
  induction pre as [|d pre IH]; rewrite ?append_nil, ?append_cons; cbn;
    intros H.
  - destruct (IndexByte s c); reflexivity.
  - destruct (Ascii.eqb d c); [discriminate|].
    destruct (IndexByte pre c); [discriminate|].
    rewrite IH by reflexivity. destruct (IndexByte s c); reflexivity.
Qed.

Lemma drop_app_length (pre s : string) : drop (String.length pre) (pre +:+ s) = s.
Proof.
  induction pre as [|d pre IH]; rewrite ?append_nil, ?append_cons; cbn;
    [reflexivity | exact IH].
Qed.

Lemma take_app_length (s post : string) : take (String.length s) (s +:+ post) = s.
Proof.
  induction s as [|d s IH]; rewrite ?append_nil, ?append_cons; cbn;
    [destruct post; reflexivity|].
  rewrite IH. reflexivity.
Qed.

Lemma balanced_group (s post : string) : forall d,
  0 < d ->
  d + brace_depth s = 0 ->
  (forall n, (0 < n < String.length s)%nat -> 0 < d + brace_depth (take n s)) ->
  balanced d (s +:+ post) = Some (String.length s).
Proof.
  induction s as [|c s IH]; intros d Hd Hz Hpos; [simpl in Hz; lia|].
  rewrite append_cons. cbn in *.
  assert (Hone : s <> EmptyString -> 0 < d + ((if Ascii.eqb c "{" then 1
                   else if Ascii.eqb c "}" then -1 else 0) + 0)).
  { intros Hs. specialize (Hpos 1%nat). cbn in Hpos.
    destruct s; [congruence|]. apply Hpos. cbn. lia. }
  assert (Hshift : forall n, (0 < n < String.length s)%nat ->
            0 < d + (if Ascii.eqb c "{" then 1
                     else if Ascii.eqb c "}" then -1 else 0)
                + brace_depth (take n s)).
  { intros n Hn. specialize (Hpos (S n)). cbn in Hpos.
    assert (Hlt : (0 < S n < S (String.length s))%nat) by lia.
    specialize (Hpos Hlt). lia. }
  destruct (Ascii.eqb c "{") eqn:E1.
  - rewrite (IH (d + 1)); [reflexivity | lia | lia | exact Hshift].
  - destruct (Ascii.eqb c "}") eqn:E2.
    + destruct (d - 1 =? 0) eqn:E3.
      * apply Z.eqb_eq in E3.
        destruct s as [|c' s]; [reflexivity|].
        assert (H : 0 < d + (-1 + 0)) by (apply Hone; congruence). lia.
      * apply Z.eqb_neq in E3.
        assert (Hs : s <> EmptyString).
        { intros ->. cbn in Hz. lia. }
        specialize (Hone Hs).
        rewrite (IH (d - 1)); [reflexivity | lia | lia |].
        intros n Hn. specialize (Hshift n Hn). lia.
    + rewrite (IH d); [reflexivity | lia | lia |].
      intros n Hn. specialize (Hshift n Hn). lia.
Qed.

Lemma brace_group_spec (obj : string) :
  brace_group obj = true ->
  exists rest, obj = String "{" rest /\
    1 + brace_depth rest = 0 /\
    forall n, (0 < n < String.length rest)%nat ->
      0 < 1 + brace_depth (take n rest).
Proof.
  unfold brace_group. rewrite !andb_true_iff.
  intros [[Hp Hd] Hall]. apply Z.eqb_eq in Hd.
  destruct obj as [|c rest]; [discriminate|].
  cbn in Hp. destruct (Ascii.eqb_spec c "{") as [->|]; [|discriminate].
  exists rest. split; [reflexivity|]. cbn in Hd. split; [lia|].
  intros n Hn. rewrite forallb_forall in Hall.
  specialize (Hall (S n)). cbn in Hall.
  assert (Hin : In (S n) (seq 1 (String.length rest - 0))).
  { apply in_seq. lia. }
  apply Hall in Hin. apply Z.ltb_lt in Hin. lia.
Qed.

Lemma balanced_take (s : string) : forall d n,
  balanced d s = Some n ->
  balanced d (take n s) = Some n /\ String.length (take n s) = n.
Proof.
  induction s as [|c s IH]; intros d n H; cbn in H; [discriminate|].
  destruct (Ascii.eqb c "{") eqn:E1.
  - destruct (balanced (d + 1) s) as [m|] eqn:E; [|discriminate].
    injection H as <-. cbn. rewrite E1.
    destruct (IH _ _ E) as [-> ->]. split; reflexivity.
  - destruct (Ascii.eqb c "}") eqn:E2.
    + destruct (d - 1 =? 0) eqn:E3.
      * injection H as <-. cbn. rewrite E1, E2, E3. split; reflexivity.
      * destruct (balanced (d - 1) s) as [m|] eqn:E; [|discriminate].
        injection H as <-. cbn. rewrite E1, E2, E3.
        destruct (IH _ _ E) as [-> ->]. split; reflexivity.
    + destruct (balanced d s) as [m|] eqn:E; [|discriminate].
      injection H as <-. cbn. rewrite E1, E2.
      destruct (IH _ _ E) as [-> ->]. split; reflexivity.
Qed.

Lemma IndexByte_drop (s : string) (c : ascii) (i : nat) :
  IndexByte s c = Some i ->
  exists rest, drop i s = String c rest /\
    s = take i s +:+ String c rest /\ IndexByte (take i s) c = None.
Proof.
  revert i. induction s as [|d s IH]; intros i H; cbn in H; [discriminate|].
  destruct (Ascii.eqb_spec d c) as [->|Hne].
  - injection H as <-. exists s. repeat split.
  - destruct (IndexByte s c) as [j|] eqn:E; [|discriminate].
    injection H as <-. destruct (IH j eq_refl) as (rest & H1 & H2 & H3).
    exists rest. cbn. split; [exact H1|]. split.
    { rewrite append_cons. f_equal. exact H2. }
    destruct (Ascii.eqb_spec d c); [congruence|]. rewrite H3. reflexivity.
Qed.

Lemma take_length_id (s : string) : take (String.length s) s = s.
Proof. induction s as [|c s IH]; cbn; congruence. Qed.

Lemma take_drop_id (s : string) (n : nat) : take n s +:+ drop n s = s.
Proof.
  revert n. induction s as [|c s IH]; intros [|n]; cbn; try reflexivity.
  rewrite append_cons, IH. reflexivity.
Qed.

(** X8.  A JSON object whose braces pair up is taken out of the prose around
    it, whatever follows, when no brace comes before it. *)
Theorem extractJSON_unwraps (pre obj post : string) :
  IndexByte pre "{" = None ->
  brace_group obj = true ->
  extractJSON (pre +:+ obj +:+ post) = obj.
Proof.
  intros Hpre Hg. destruct (brace_group_spec obj Hg) as (rest & -> & Hz & Hpos).
  unfold extractJSON. rewrite IndexByte_app_skip by exact Hpre.
  rewrite (append_cons "{" rest post). cbn [IndexByte].
  change (Ascii.eqb "{" "{") with true.
  cbn [option_map]. rewrite Nat.add_0_r, drop_app_length.
  cbn [balanced]. change (Ascii.eqb "{" "{") with true.
  rewrite (balanced_group rest post (0 + 1)); [|lia|lia|exact Hpos].
  cbn [option_map]. rewrite <- (append_cons "{" rest post).
  apply (take_app_length (String "{" rest) post).
Qed.

(** X9.  What [extractJSON] returns is a piece of the response: the whole of
    it when it holds no opening brace, otherwise a piece that starts at
    the first opening brace; and [extractJSON] takes its own result as it
    is. *)
Theorem extractJSON_piece (s : string) :
  (exists pre post, s = pre +:+ extractJSON s +:+ post /\
     IndexByte pre "{" = None /\
     (IndexByte s "{" = None /\ extractJSON s = s \/
      HasPrefix (extractJSON s) "{" = true)) /\
  extractJSON (extractJSON s) = extractJSON s.
Proof.
  destruct (IndexByte s "{") as [start|] eqn:Hi.
  - destruct (IndexByte_drop s "{" start Hi) as (rest & Hd & Hs & Hpre).
    destruct (balanced 0 (String "{" rest)) as [n|] eqn:Hb.
    + destruct (balanced_take _ _ _ Hb) as [Hb' Hlen].
      assert (Hn : exists m, n = S m).
      { cbn in Hb. change (Ascii.eqb "{" "{") with true in Hb.
        destruct (balanced (0 + 1) rest); [|discriminate].
        injection Hb as <-. eauto. }
      destruct Hn as [m ->].
      assert (E : extractJSON s = take (S m) (String "{" rest)).
      { unfold extractJSON. rewrite Hi, Hd, Hb. reflexivity. }
      rewrite !E. split.
      * exists (take start s), (drop (S m) (String "{" rest)).
        split; [|split; [exact Hpre|right]].
        { rewrite take_drop_id. exact Hs. }
        cbn. destruct (take m rest); reflexivity.
      * unfold extractJSON. cbn [take IndexByte].
        change (Ascii.eqb "{" "{") with true. cbn [drop].
        change (String "{" (take m rest)) with (take (S m) (String "{" rest)).
        rewrite Hb'. rewrite <- Hlen at 1. apply take_length_id.
    + assert (E : extractJSON s = String "{" rest).
      { unfold extractJSON. rewrite Hi, Hd, Hb. reflexivity. }
      rewrite !E. split.
      * exists (take start s), EmptyString.
        split; [|split; [exact Hpre|right]].
        { rewrite append_empty_r. exact Hs. }
        cbn. destruct rest; reflexivity.
      * unfold extractJSON. cbn [IndexByte].
        change (Ascii.eqb "{" "{") with true. cbn [drop]. rewrite Hb. reflexivity.
  - assert (E : extractJSON s = s).
    { unfold extractJSON. rewrite Hi. reflexivity. }
    rewrite !E. split; [|reflexivity].
    exists EmptyString, EmptyString.
    split; [|split; [reflexivity|left; split; reflexivity]].
    rewrite append_nil, append_empty_r. reflexivity.
Qed.

End ExtractJSONFacts.

Lemma extractJSON_unwraps_witness :
  Critic.extractJSON "My verdict: {approved: false, detail: {issues: 2}} I hope this {helps}."
  = "{approved: false, detail: {issues: 2}}".
Proof.
  apply (extractJSON_unwraps "My verdict: " "{approved: false, detail: {issues: 2}}"
           " I hope this {helps}."); reflexivity.
Defined.


(** ** The order of the calls of the critic loop *)

Section CriticProtocolFacts.
Import Search Critic Service CriticProtocol.

Variable World : Type.
Variable critic_Review :
  string -> list SearchResult -> string -> World -> option CriticResult * World.
Variable improve_llm :
  string -> CriticResult -> list SearchResult -> string ->
  World -> option string * World.
Variable criticConfig : CriticConfig.
Variable sources : list SearchResult.
Variable question : string.

Lemma loop_protocol (n : nat) : forall attempt currentAnswer st last,
  Z.to_nat (MaxRetries criticConfig + 1 - attempt) = n ->
  attempt <= MaxRetries criticConfig ->
  let out :=
    critic_loop World critic_Review improve_llm criticConfig sources question
      attempt currentAnswer st in
  exists cs,
    calls World (snd out) = calls World st ++ CallReview currentAnswer :: cs /\
    replay World critic_Review improve_llm sources question
      (ExpectReview currentAnswer) last (world World st)
      (CallReview currentAnswer :: cs)
    = Some (Some (fst out), world World (snd out)).
Proof.
  induction n as [|n IH]; intros attempt cur st last Hn Hle; [lia|].
  cbv zeta. rewrite loop_turn.
  assert (E : (attempt <=? MaxRetries criticConfig) = true)
    by (apply Z.leb_le; lia).
  rewrite E. cbn [replay]. rewrite String.eqb_refl.
  destruct (critic_Review cur sources question (world World st))
    as [[result|] w]; cbn [fst snd calls world].
  2:{ exists []. split; reflexivity. }
  destruct (negb (NeedsRevisionStrict result (StrictMode criticConfig)));
    cbn [fst snd calls world].
  { exists []. split; reflexivity. }
  destruct (MaxRetries criticConfig <=? attempt) eqn:E2;
    cbn [fst snd calls world].
  { exists []. split; reflexivity. }
  apply Z.leb_gt in E2.
  destruct (improve_llm cur result sources question w) as [[improved|] w']
    eqn:EI; cbn [fst snd calls world].
  2:{ exists [CallImprove cur]. rewrite <- app_assoc.
      split; [reflexivity|]. cbn [replay].
      rewrite String.eqb_refl, EI. reflexivity. }
  match goal with
  | |- context [critic_loop _ _ _ _ _ _ (attempt + 1) improved ?s] =>
      destruct (IH (attempt + 1) improved s (Some cur)) as (cs & H1 & H2);
        [lia | lia |]
  end.
  cbn [world] in H2.
  exists (CallImprove cur :: CallReview improved :: cs).
  split; [rewrite H1; cbn [calls]; rewrite <- !app_assoc; reflexivity|].
  cbn [replay]. rewrite String.eqb_refl, EI. exact H2.
Qed.

(** X10.  With [MaxRetries] at least 0 the calls the loop makes are these and
    no others: first the critic on the draft; after a review that
    returned a result, at most the improving model, on the answer just
    reviewed and with that result; after an answer of the model, the
    critic, on exactly that answer; after a call that failed, nothing.
    The answer returned is the one of the last call of the critic, so no
    answer of the model leaves the loop without the critic having seen
    it, and the world is left as those calls leave it. *)
Theorem reviewWithCritic_protocol (answer : string) (st : state World) :
  0 <= MaxRetries criticConfig ->
  let out :=
    reviewWithCritic World critic_Review improve_llm criticConfig sources
      question answer st in
  exists cs,
    calls World (snd out) = calls World st ++ CallReview answer :: cs /\
    replay World critic_Review improve_llm sources question
      (ExpectReview answer) None (world World st) (CallReview answer :: cs)
    = Some (Some (fst out), world World (snd out)).
Proof.
  intros HR. unfold reviewWithCritic.
  exact (loop_protocol (Z.to_nat (MaxRetries criticConfig + 1 - 0)) 0 answer st
           None eq_refl HR).
Qed.

End CriticProtocolFacts.

Lemma reviewWithCritic_protocol_witness :
  0 <= 2 /\
  exists cs,
    Service.calls nat
      (snd (Service.reviewWithCritic nat Service.picky_critic Service.eager_model
              {| Critic.MaxRetries := 2; Critic.StrictMode := false |}
              [] "why?" "draft"
              {| Service.world := 0%nat; Service.calls := [] |}))
    = [] ++ Service.CallReview "draft" :: cs /\
    CriticProtocol.replay nat Service.picky_critic Service.eager_model
      [] "why?" (CriticProtocol.ExpectReview "draft") None 0%nat
      (Service.CallReview "draft" :: cs)
    = Some (Some (fst (Service.reviewWithCritic nat Service.picky_critic
                         Service.eager_model
                         {| Critic.MaxRetries := 2; Critic.StrictMode := false |}
                         [] "why?" "draft"
                         {| Service.world := 0%nat; Service.calls := [] |})),
            Service.world nat
              (snd (Service.reviewWithCritic nat Service.picky_critic
                      Service.eager_model
                      {| Critic.MaxRetries := 2; Critic.StrictMode := false |}
                      [] "why?" "draft"
                      {| Service.world := 0%nat; Service.calls := [] |}))).
Proof.
  split; [lia|].
  apply (reviewWithCritic_protocol nat Service.picky_critic Service.eager_model
           {| Critic.MaxRetries := 2; Critic.StrictMode := false |}
           [] "why?" "draft" {| Service.world := 0%nat; Service.calls := [] |}).
  simpl. lia.
Defined.


(** ** The domain of a result *)

Section ExtractDomainFacts.
Import GoStrings Service.

Lemma IndexByte_drop_None (s : string) (c : ascii) (n : nat) :
  IndexByte s c = None -> IndexByte (drop n s) c = None.
Proof.
  revert n. induction s as [|d s IH]; intros [|n] H; cbn in *; try exact H.
  destruct (Ascii.eqb d c); [discriminate|].
  apply IH. destruct (IndexByte s c); [discriminate | reflexivity].
Qed.

Lemma IndexByte_TrimPrefix_None (s p : string) (c : ascii) :
  IndexByte s c = None -> IndexByte (TrimPrefix s p) c = None.
Proof.
  intros H. unfold TrimPrefix. destruct (HasPrefix s p); [|exact H].
  apply IndexByte_drop_None. exact H.
Qed.

Lemma HasPrefix_app (p s : string) : HasPrefix (p +:+ s) p = true.
Proof.
  induction p as [|c p IH]; rewrite ?append_nil, ?append_cons; cbn.
  - destruct s; reflexivity.
  - rewrite Ascii.eqb_refl. exact IH.
Qed.

Lemma TrimPrefix_app (p s : string) : TrimPrefix (p +:+ s) p = s.
Proof.
  unfold TrimPrefix. rewrite HasPrefix_app. apply drop_app_length.
Qed.

Lemma IndexByte_app_first (h t : string) (c : ascii) :
  IndexByte h c = None ->
  IndexByte (h +:+ String c t) c = Some (String.length h).
Proof.
  intros H. rewrite IndexByte_app_skip by exact H. cbn.
  rewrite Ascii.eqb_refl. cbn. rewrite Nat.add_0_r. reflexivity.
Qed.

(** A host that does not begin with http, followed by nothing or by a
    path, carries neither scheme. *)
Lemma host_no_scheme (h tail : string) :
  HasPrefix h "http" = false ->
  tail = EmptyString \/ (exists path, tail = String "/" path) ->
  HasPrefix (h +:+ tail) "https://" = false /\
  HasPrefix (h +:+ tail) "http://" = false.
Proof.
  intros Hh Ht.
  assert (Hs : HasPrefix (h +:+ tail) "http" = false).
  { destruct h as [|c1 [|c2 [|c3 [|c4 h]]]];
      rewrite ?append_cons, ?append_nil;
      destruct Ht as [->|[path ->]]; cbn in *;
      repeat match goal with
             | |- context [Ascii.eqb ?a ?b] =>
                 destruct (Ascii.eqb_spec a b); subst; cbn in *
             end;
      try reflexivity; try discriminate; try congruence;
      destruct h; discriminate. }
  remember (h +:+ tail) as r eqn:Er. clear - Hs.
  destruct r as [|c1 [|c2 [|c3 [|c4 r]]]]; cbn in *;
    repeat match goal with
           | |- context [Ascii.eqb ?a ?b] =>
               destruct (Ascii.eqb_spec a b); subst; cbn in *
           end;
    try (split; reflexivity); try discriminate.
  destruct r; discriminate.
Qed.

Lemma extractDomain_bare (r : string) :
  HasPrefix r "https://" = false -> HasPrefix r "http://" = false ->
  extractDomain r
  = TrimPrefix (match IndexByte r "/" with
                | Some idx => take idx r
                | None => r
                end) "www.".
Proof.
  intros H1 H2. unfold extractDomain.
  assert (E1 : TrimPrefix r "https://" = r)
    by (unfold TrimPrefix; rewrite H1; reflexivity).
  assert (E2 : TrimPrefix r "http://" = r)
    by (unfold TrimPrefix; rewrite H2; reflexivity).
  rewrite E1, E2. reflexivity.
Qed.

Lemma no_http_no_scheme (r : string) :
  HasPrefix r "http" = false ->
  HasPrefix r "https://" = false /\ HasPrefix r "http://" = false.
Proof.
  intros Hr.
  destruct r as [|c1 [|c2 [|c3 [|c4 r]]]]; cbn in *;
    repeat match goal with
           | |- context [Ascii.eqb ?a ?b] =>
               destruct (Ascii.eqb_spec a b); subst; cbn in *
           end;
    try (split; reflexivity); try discriminate.
  destruct r; discriminate.
Qed.

Lemma extractDomain_scheme (r : string) :
  HasPrefix r "http" = false ->
  extractDomain ("http://" +:+ r) = extractDomain r /\
  extractDomain ("https://" +:+ r) = extractDomain r.
Proof.
  intros Hr. destruct (no_http_no_scheme r Hr) as [A B].
  assert (E2 : TrimPrefix r "http://" = r)
    by (unfold TrimPrefix; rewrite B; reflexivity).
  rewrite (extractDomain_bare r A B). split.
  - unfold extractDomain.
    assert (E : TrimPrefix ("http://" +:+ r) "https://" = "http://" +:+ r)
      by reflexivity.
    rewrite E, (TrimPrefix_app "http://" r). reflexivity.
  - unfold extractDomain. rewrite (TrimPrefix_app "https://" r), E2.
    reflexivity.
Qed.

(** X11.  The domain of a result never holds a slash.  For a host that holds
    no slash and does not begin with http, the domain is the host
    without a leading www., whether the address carries a scheme or
    not and whatever path follows. *)
Theorem extractDomain_host :
  (forall url, IndexByte (extractDomain url) "/" = None) /\
  (forall h path : string,
     IndexByte h "/" = None -> HasPrefix h "http" = false ->
     let d := TrimPrefix h "www." in
     extractDomain h = d /\
     extractDomain (h +:+ "/" +:+ path) = d /\
     extractDomain ("http://" +:+ h) = d /\
     extractDomain ("http://" +:+ h +:+ "/" +:+ path) = d /\
     extractDomain ("https://" +:+ h) = d /\
     extractDomain ("https://" +:+ h +:+ "/" +:+ path) = d).
Proof.
  split.
  - intros url. unfold extractDomain.
    apply IndexByte_TrimPrefix_None.
    remember (TrimPrefix (TrimPrefix url "https://") "http://") as u.
    destruct (IndexByte u "/") as [idx|] eqn:E; [|exact E].
    destruct (IndexByte_drop _ _ _ E) as (_ & _ & _ & H). exact H.
  - intros h path Hs Hh d.
    change ("/" +:+ path) with (String "/" path).
    assert (H0 : extractDomain h = d).
    { destruct (host_no_scheme h EmptyString Hh (or_introl eq_refl)) as [A B].
      rewrite append_empty_r in A, B.
      rewrite (extractDomain_bare h A B), Hs. reflexivity. }
    assert (H1 : extractDomain (h +:+ String "/" path) = d).
    { destruct (host_no_scheme h (String "/" path) Hh
                  (or_intror (ex_intro _ path eq_refl))) as [A B].
      rewrite (extractDomain_bare _ A B).
      rewrite (IndexByte_app_first h path "/" Hs), take_app_length.
      reflexivity. }
    assert (Hhp : HasPrefix (h +:+ String "/" path) "http" = false).
    { clear - Hh.
      destruct h as [|c1 [|c2 [|c3 [|c4 h]]]];
        rewrite ?append_cons, ?append_nil; cbn in *;
        repeat match goal with
               | |- context [Ascii.eqb ?a ?b] =>
                   destruct (Ascii.eqb_spec a b); subst; cbn in *
               end;
        try reflexivity; try discriminate; try congruence;
        destruct h; discriminate. }
    destruct (extractDomain_scheme h Hh) as [-> ->].
    destruct (extractDomain_scheme _ Hhp) as [-> ->].
    repeat split; assumption.
Qed.

End ExtractDomainFacts.

Lemma extractDomain_host_witness :
  Service.extractDomain "https://www.cbr.ru/press/event/" = "cbr.ru".
Proof.
  destruct extractDomain_host as [_ H].
  destruct (H "www.cbr.ru" "press/event/" eq_refl eq_refl)
    as (_ & _ & _ & _ & _ & H6).
  exact H6.
Defined.


(** ** Cutting a reply into messages *)

Section SplitMessageFacts.
Import GoStrings Telegram.

Lemma length_drop n s : String.length (drop n s) = (String.length s - n)%nat.
Proof.
  revert s; induction n as [|n IH]; intros [|c s]; simpl; auto.
Qed.

Lemma length_append (s t : string) :
  String.length (s +:+ t) = (String.length s + String.length t)%nat.
Proof.
  induction s as [|c s IH]; [reflexivity|].
  rewrite append_cons. simpl. rewrite IH. reflexivity.
Qed.

Lemma get_in_range (text : string) (i : nat) :
  (i < String.length text)%nat -> exists c, String.get i text = Some c.
Proof.
  revert i. induction text as [|d text IH]; intros i Hi; simpl in Hi; [lia|].
  destruct i as [|i]; simpl; [eauto|]. apply IH. lia.
Qed.

Lemma byte_at_in_range (text : string) (i : Z) :
  0 <= i < len text -> exists c, byte_at text i = Some c.
Proof.
  intros Hi. unfold byte_at, len in *.
  assert (E : (i <? 0) = false) by (apply Z.ltb_ge; lia). rewrite E.
  apply get_in_range. lia.
Qed.

Lemma get_not_absent (text : string) (c : ascii) : forall i d,
  IndexByte text c = None -> String.get i text = Some d -> Ascii.eqb d c = false.
Proof.
  induction text as [|e text IH]; intros i d Hn Hg; simpl in *; [discriminate|].
  destruct (Ascii.eqb e c) eqn:E; [discriminate|].
  destruct i as [|i].
  - injection Hg as <-. exact E.
  - apply (IH i); [|exact Hg]. destruct (IndexByte text c); [discriminate|reflexivity].
Qed.

Lemma isInsideHTMLTag_plain (text : string) (pos : Z) :
  IndexByte text "<" = None -> isInsideHTMLTag text pos = false.
Proof.
  intros Hn. unfold isInsideHTMLTag.
  destruct ((len text <=? pos) || (pos <? 0)); [reflexivity|].
  induction (Z.to_nat pos) as [|i IH]; simpl.
  - destruct (String.get 0 text) as [c|] eqn:E; [|reflexivity].
    rewrite (get_not_absent text "<" _ _ Hn E).
    destruct (Ascii.eqb c ">"); reflexivity.
  - destruct (String.get (S i) text) as [c|] eqn:E; [|reflexivity].
    rewrite (get_not_absent text "<" _ _ Hn E).
    destruct (Ascii.eqb c ">"); [reflexivity | exact IH].
Qed.

Lemma split_backwards_spec (text : string) (turns : nat) : forall i,
  Z.of_nat turns <= i -> i < len text ->
  exists r, split_backwards text turns i = Some r /\
    forall p, r = Some p -> 1 <= p <= i + 1.
Proof.
  induction turns as [|turns IH]; intros i Ht Hi; simpl.
  - exists None. split; [reflexivity | discriminate].
  - assert (Hrec : exists r, split_backwards text turns (i - 1) = Some r /\
                     forall p, r = Some p -> 1 <= p <= i + 1).
    { destruct (IH (i - 1)) as (r & Hr & Hp); [lia | lia |].
      exists r. split; [exact Hr|]. intros p E. specialize (Hp p E). lia. }
    destruct (len text <=? i); [exact Hrec|].
    destruct (isInsideHTMLTag text i); [exact Hrec|].
    destruct (byte_at_in_range text i) as [c Hc]; [lia|]. rewrite Hc.
    destruct (is_break c); [|exact Hrec].
    exists (Some (i + 1)). split; [reflexivity|].
    intros p E. injection E as <-. lia.
Qed.

Lemma split_last_break_spec (text : string) (turns : nat) : forall i,
  Z.of_nat turns <= i -> i < len text ->
  exists r, split_last_break text turns i = Some r /\
    forall p, r = Some p -> 1 <= p <= i + 1.
Proof.
  induction turns as [|turns IH]; intros i Ht Hi; simpl.
  - exists None. split; [reflexivity | discriminate].
  - destruct (byte_at_in_range text i) as [c Hc]; [lia|]. rewrite Hc.
    destruct (is_break c).
    + exists (Some (i + 1)). split; [reflexivity|].
      intros p E. injection E as <-. lia.
    + destruct (IH (i - 1)) as (r & Hr & Hp); [lia | lia |].
      exists r. split; [exact Hr|]. intros p E. specialize (Hp p E). lia.
Qed.

Lemma split_after_tag_spec (text : string) (turns : nat) : forall j,
  0 <= j -> j + Z.of_nat turns <= len text ->
  exists r, split_after_tag text turns j = Some r /\
    forall p, r = Some p -> 1 <= p <= len text.
Proof.
  induction turns as [|turns IH]; intros j Hj Ht; simpl.
  - exists None. split; [reflexivity | discriminate].
  - destruct (byte_at_in_range text j) as [c Hc]; [lia|]. rewrite Hc.
    destruct (is_break c).
    + exists (Some (j + 1)). split; [reflexivity|].
      intros p E. injection E as <-. lia.
    + apply IH; lia.
Qed.

Lemma split_at_tag_end_spec (text : string) (turns : nat) : forall i,
  0 <= i -> i + Z.of_nat turns <= len text ->
  exists r, split_at_tag_end text turns i = Some r /\
    forall p, r = Some p -> 1 <= p <= len text.
Proof.
  induction turns as [|turns IH]; intros i Hi Ht; simpl.
  - exists None. split; [reflexivity | discriminate].
  - destruct (byte_at_in_range text i) as [c Hc]; [lia|]. rewrite Hc.
    destruct (Ascii.eqb c ">"); [|apply IH; lia].
    destruct (split_after_tag_spec text
                (Z.to_nat (Z.min (len text) (i + 50) - (i + 1))) (i + 1))
      as (r & Hr & Hp); [lia | lia |].
    rewrite Hr. destruct r as [p|].
    + exists (Some p). split; [reflexivity|].
      intros q E. injection E as <-. apply Hp. reflexivity.
    + exists (Some (i + 1)). split; [reflexivity|].
      intros q E. injection E as <-. lia.
Qed.

Lemma findSafeSplitPoint_spec (text : string) (maxLen : Z) :
  1 <= maxLen < len text ->
  exists p, findSafeSplitPoint text maxLen = Some p /\
    1 <= p <= len text /\
    (IndexByte text "<" = None -> p <= maxLen).
Proof.
  intros Hm. unfold findSafeSplitPoint.
  assert (Hq : 0 <= Z.quot maxLen 2) by (apply Z.quot_pos; lia).
  destruct (split_backwards_spec text
              (Z.to_nat (maxLen - 1 - Z.quot maxLen 2)) (maxLen - 1))
    as (r1 & Hr1 & Hp1); [lia | lia |].
  rewrite Hr1. destruct r1 as [p|].
  { exists p. specialize (Hp1 p eq_refl). split; [reflexivity|]. lia. }
  destruct (split_last_break_spec text (Z.to_nat (maxLen - 1)) (maxLen - 1))
    as (r3 & Hr3 & Hp3); [lia | lia |].
  assert (Hthird : exists p,
            match split_last_break text (Z.to_nat (maxLen - 1)) (maxLen - 1) with
            | None => None
            | Some (Some p) => Some p
            | Some None => Some maxLen
            end = Some p /\ 1 <= p <= maxLen).
  { rewrite Hr3. destruct r3 as [p|].
    - exists p. specialize (Hp3 p eq_refl). split; [reflexivity|]. lia.
    - exists maxLen. split; [reflexivity|]. lia. }
  destruct Hthird as (p3 & Hthird & Hb3).
  destruct ((maxLen <? len text) && isInsideHTMLTag text maxLen) eqn:Etag.
  - destruct (split_at_tag_end_spec text (Z.to_nat (len text - maxLen)) maxLen)
      as (r2 & Hr2 & Hp2); [lia | lia |].
    rewrite Hr2. destruct r2 as [p|].
    + exists p. specialize (Hp2 p eq_refl). split; [reflexivity|].
      split; [lia|]. intros Hplain.
      rewrite (isInsideHTMLTag_plain text maxLen Hplain), andb_false_r in Etag.
      discriminate.
    + exists p3. split; [exact Hthird|]. split; lia.
  - exists p3. split; [exact Hthird|]. split; lia.
Qed.

Lemma concat_messages_app (ms1 ms2 : list string) :
  concat_messages (ms1 ++ ms2) = concat_messages ms1 +:+ concat_messages ms2.
Proof.
  unfold concat_messages. induction ms1 as [|m ms1 IH]; simpl.
  - rewrite append_nil. reflexivity.
  - rewrite IH. clear. induction m as [|c m IHm]; [reflexivity|].
    rewrite !append_cons, IHm. reflexivity.
Qed.

Lemma SplitMessage_loop_spec (maxLen : Z) (turns : nat) :
  1 <= maxLen ->
  forall text messages,
    (String.length text <= turns)%nat ->
    exists ms,
      SplitMessage_loop turns text maxLen messages = Returns (messages ++ ms) /\
      concat_messages ms = text /\
      (text <> EmptyString -> ms <> []) /\
      List.Forall (fun m => m <> EmptyString) ms /\
      (IndexByte text "<" = None -> List.Forall (fun m => len m <= maxLen) ms).
Proof.
  intros Hm. induction turns as [|turns IH]; intros text messages Hlen.
  - destruct text; [|simpl in Hlen; lia]. exists []. simpl.
    rewrite app_nil_r. repeat split; auto; congruence.
  - cbn [SplitMessage_loop].
    destruct (0 <? len text) eqn:E0.
    2:{ apply Z.ltb_ge in E0. destruct text; [|unfold len in E0; simpl in E0; lia].
        exists []. rewrite app_nil_r. repeat split; auto; congruence. }
    apply Z.ltb_lt in E0.
    destruct (len text <=? maxLen) eqn:E1.
    { apply Z.leb_le in E1. exists [text]. split; [reflexivity|].
      split; [apply append_empty_r|]. split; [congruence|].
      split; constructor; auto.
      intros ->. unfold len in E0. simpl in E0. lia. }
    apply Z.leb_gt in E1.
    destruct (findSafeSplitPoint_spec text maxLen) as (p & Hp & Hr & Hplain);
      [lia|].
    rewrite Hp.
    assert (Ea : ((p <=? 0) || (len text <? p)) = false).
    { apply orb_false_iff. split; [apply Z.leb_gt | apply Z.ltb_ge]; lia. }
    rewrite Ea.
    assert (Eb : ((p <? 0) || (len text <? p)) = false).
    { apply orb_false_iff. split; apply Z.ltb_ge; lia. }
    rewrite Eb.
    destruct (IH (drop (Z.to_nat p) text) (messages ++ [take (Z.to_nat p) text]))
      as (ms & Hms & Hcat & _ & Hne & Hle).
    { rewrite length_drop. unfold len in *. lia. }
    exists (take (Z.to_nat p) text :: ms). rewrite Hms, <- app_assoc.
    split; [reflexivity|]. split.
    { unfold concat_messages in *. simpl. rewrite Hcat. apply take_drop_id. }
    split; [congruence|]. split.
    + constructor; [|exact Hne].
      intros E. apply (f_equal String.length) in E.
      rewrite length_take in E. unfold len in *. simpl in E. lia.
    + intros Hplain'. constructor.
      * unfold len. rewrite length_take. specialize (Hplain Hplain'). lia.
      * apply Hle. apply IndexByte_drop_None. exact Hplain'.
Qed.

(** X12.  With a limit of at least one byte [SplitMessage] returns: it neither
    panics nor loops for ever.  The messages put together are the text;
    there is at least one, and none is empty unless the text is.  When
    the text holds no opening angle bracket, no message is longer than
    the limit. *)
Theorem SplitMessage_cuts (text : string) (maxLen : Z) :
  1 <= maxLen ->
  exists ms,
    SplitMessage text maxLen = Returns ms /\
    concat_messages ms = text /\
    ms <> [] /\
    (text <> EmptyString -> List.Forall (fun m => m <> EmptyString) ms) /\
    (IndexByte text "<" = None -> List.Forall (fun m => len m <= maxLen) ms).
Proof.
  intros Hm. unfold SplitMessage.
  destruct (len text <=? maxLen) eqn:E.
  - apply Z.leb_le in E. exists [text]. split; [reflexivity|].
    split; [apply append_empty_r|]. split; [congruence|].
    split; intros H; constructor; auto.
  - apply Z.leb_gt in E.
    destruct (SplitMessage_loop_spec maxLen (String.length text) Hm text [])
      as (ms & H1 & H2 & H3 & H4 & H5); [lia|].
    exists ms. split; [exact H1|]. split; [exact H2|].
    split; [|split; [intros _; exact H4 | exact H5]].
    apply H3. intros ->. unfold len in E. simpl in E. lia.
Qed.

(** X13.  A limit below one byte is not survived by a text without an opening
    angle bracket: with the limit 0 the loop of [SplitMessage] appends
    empty messages and never ends, with a negative limit the slice
    expression panics. *)
Theorem SplitMessage_bad_limit (text : string) (maxLen : Z) :
  text <> EmptyString -> IndexByte text "<" = None ->
  (forall turns messages,
     SplitMessage_loop turns text 0 messages = Unfinished) /\
  (maxLen < 0 -> SplitMessage text maxLen = Panics).
Proof.
  intros Hne Hplain.
  assert (Hlen : 0 < len text).
  { destruct text; [congruence|]. unfold len. simpl. lia. }
  assert (Hfind : forall m, m <= 0 -> findSafeSplitPoint text m = Some m).
  { intros m Hm0. unfold findSafeSplitPoint.
    assert (Hq : m <= Z.quot m 2).
    { destruct (Z.eq_dec m 0) as [->|]; [reflexivity|].
      pose proof (Z.quot_opp_l m 2 ltac:(lia)) as Ho.
      pose proof (Z.quot_le_upper_bound (- m) 2 (- m) ltac:(lia) ltac:(lia)).
      lia. }
    assert (E1 : Z.to_nat (m - 1 - Z.quot m 2) = 0%nat) by lia.
    rewrite E1. simpl.
    rewrite (isInsideHTMLTag_plain text m Hplain), andb_false_r.
    assert (E3 : Z.to_nat (m - 1) = 0%nat) by lia.
    rewrite E3. reflexivity. }
  split.
  - intros turns. induction turns as [|turns IH]; intros messages;
      cbn [SplitMessage_loop].
    + assert (E : (0 <? len text) = true) by (apply Z.ltb_lt; lia).
      rewrite E. reflexivity.
    + assert (E : (0 <? len text) = true) by (apply Z.ltb_lt; lia).
      rewrite E.
      assert (E1 : (len text <=? 0) = false) by (apply Z.leb_gt; lia).
      rewrite E1, (Hfind 0) by lia. simpl.
      assert (E2 : (len text <? 0) = false) by (apply Z.ltb_ge; lia).
      rewrite E2. simpl. apply IH.
  - intros Hneg. unfold SplitMessage.
    assert (E1 : (len text <=? maxLen) = false) by (apply Z.leb_gt; lia).
    rewrite E1. destruct text as [|c text]; [congruence|].
    cbn [String.length SplitMessage_loop].
    assert (E : (0 <? len (String c text)) = true) by (apply Z.ltb_lt; lia).
    rewrite E, E1, (Hfind maxLen) by lia.
    assert (E2 : (maxLen <=? 0) = true) by (apply Z.leb_le; lia).
    rewrite E2. simpl.
    assert (E3 : (maxLen <? 0) = true) by (apply Z.ltb_lt; lia).
    rewrite E3. reflexivity.
Qed.

(** X14.  For a limit of at least three bytes [truncateURL] returns at most
    that many bytes: the address itself when it fits, otherwise its first
    bytes up to three short of the limit and three dots.  Below three it
    panics on an address that does not fit. *)
Theorem truncateURL_fits (url : string) (maxLen : Z) :
  (3 <= maxLen ->
   exists short, truncateURL url maxLen = Some short /\
     len short <= maxLen /\
     (len url <= maxLen -> short = url) /\
     (maxLen < len url ->
      short = take (Z.to_nat (maxLen - 3)) url +:+ "..." /\ len short = maxLen)) /\
  (maxLen < 3 -> maxLen < len url -> truncateURL url maxLen = None).
Proof.
  unfold truncateURL. split.
  - intros Hm. destruct (len url <=? maxLen) eqn:E.
    + apply Z.leb_le in E. exists url. repeat split; auto; lia.
    + apply Z.leb_gt in E.
      assert (E2 : ((maxLen - 3 <? 0) || (len url <? maxLen - 3)) = false).
      { apply orb_false_iff. split; apply Z.ltb_ge; lia. }
      rewrite E2.
      assert (Hl : len (take (Z.to_nat (maxLen - 3)) url +:+ "...") = maxLen).
      { unfold len in *. rewrite length_append, length_take. simpl. lia. }
      eexists. split; [reflexivity|]. split; [lia|]. split; [lia|].
      intros _. split; [reflexivity | exact Hl].
  - intros Hm Hl.
    assert (E : (len url <=? maxLen) = false) by (apply Z.leb_gt; lia).
    rewrite E.
    assert (E2 : (maxLen - 3 <? 0) = true) by (apply Z.ltb_lt; lia).
    rewrite E2. reflexivity.
Qed.

End SplitMessageFacts.

Lemma SplitMessage_cuts_witness :
  exists ms,
    Telegram.SplitMessage Telegram.text_plain 20 = Telegram.Returns ms /\
    Telegram.concat_messages ms = Telegram.text_plain /\
    ms <> [] /\
    (Telegram.text_plain <> EmptyString ->
     List.Forall (fun m => m <> EmptyString) ms) /\
    (GoStrings.IndexByte Telegram.text_plain "<" = None ->
     List.Forall (fun m => GoStrings.len m <= 20) ms).
Proof.
  apply (SplitMessage_cuts Telegram.text_plain 20). lia.
Defined.

Lemma SplitMessage_bad_limit_witness :
  Telegram.SplitMessage Telegram.text_plain (-1) = Telegram.Panics.
Proof.
  apply (proj2 (SplitMessage_bad_limit Telegram.text_plain (-1)
                  ltac:(discriminate) eq_refl)).
  lia.
Defined.

Lemma truncateURL_fits_witness :
  exists short,
    Telegram.truncateURL "https://www.cbr.ru/press/event/" 20 = Some short /\
    GoStrings.len short <= 20 /\
    (GoStrings.len "https://www.cbr.ru/press/event/" <= 20 ->
     short = "https://www.cbr.ru/press/event/") /\
    (20 < GoStrings.len "https://www.cbr.ru/press/event/" ->
     short = GoStrings.take (Z.to_nat (20 - 3)) "https://www.cbr.ru/press/event/"
             +:+ "..." /\ GoStrings.len short = 20).
Proof.
  apply (proj1 (truncateURL_fits "https://www.cbr.ru/press/event/" 20)). lia.
Defined.


(** ** What an agent makes of the model's text *)

Section ParseSourceRefsFacts.
Import GoStrings Agents AgentProcess.

Lemma HasPrefix_split (s p : string) :
  HasPrefix s p = true -> s = p +:+ drop (String.length p) s.
Proof.
  revert s. induction p as [|c p IH]; intros s H.
  - rewrite append_nil. reflexivity.
  - destruct s as [|d s]; [discriminate|]. cbn in H.
    apply andb_true_iff in H. destruct H as [Hc Hp].
    apply Ascii.eqb_eq in Hc. subst d.
    rewrite append_cons. cbn. f_equal. apply IH. exact Hp.
Qed.

Lemma HasPrefix_app_assoc (p q rest : string) :
  HasPrefix (p +:+ q +:+ rest) (p +:+ q) = true.
Proof.
  induction p as [|c p IH]; rewrite ?append_nil; [apply HasPrefix_app|].
  rewrite !append_cons. cbn. rewrite Ascii.eqb_refl. exact IH.
Qed.

Lemma Contains_prefix (s m : string) : HasPrefix s m = true -> Contains s m = true.
Proof. intros H. destruct s; cbn in *; rewrite H; reflexivity. Qed.

Lemma Contains_tail (c : ascii) (s m : string) :
  Contains s m = true -> Contains (String c s) m = true.
Proof. intros H. cbn. rewrite H. apply orb_true_r. Qed.

Lemma digits_prefix_idem (s : string) :
  digits_prefix (digits_prefix s) = digits_prefix s.
Proof.
  induction s as [|c s IH]; [reflexivity|]. cbn.
  destruct (is_digit c) eqn:E; [|reflexivity]. cbn. rewrite E, IH. reflexivity.
Qed.

Lemma digits_prefix_split (s : string) :
  s = digits_prefix s +:+ drop (String.length (digits_prefix s)) s.
Proof.
  induction s as [|c s IH]; [reflexivity|]. cbn.
  destruct (is_digit c); [|reflexivity].
  rewrite append_cons. cbn. f_equal. exact IH.
Qed.

Lemma digits_prefix_closed (ds rest : string) :
  digits_prefix ds = ds ->
  digits_prefix (ds +:+ String "]" rest) = ds.
Proof.
  induction ds as [|c ds IH]; intros H.
  - rewrite append_nil. reflexivity.
  - rewrite append_cons. cbn in *. destruct (is_digit c); [|discriminate].
    injection H as H. rewrite (IH H). reflexivity.
Qed.

Lemma match_ref_marker (s ds : string) :
  HasPrefix s ("[S" +:+ ds +:+ "]") = true ->
  ds <> EmptyString -> digits_prefix ds = ds ->
  match_ref s = Some ("[S" +:+ ds +:+ "]").
Proof.
  intros Hp Hne Hd. apply HasPrefix_split in Hp.
  remember (drop (String.length ("[S" +:+ ds +:+ "]")) s) as rest eqn:Er.
  clear Er. subst s. unfold match_ref.
  change (("[S" +:+ ds +:+ "]") +:+ rest)
    with (String "[" (String "S" ((ds +:+ "]") +:+ rest))).
  cbn [HasPrefix drop]. change (Ascii.eqb "[" "[") with true.
  change (Ascii.eqb "S" "S") with true. cbn [andb].
  assert (Ea : (ds +:+ "]") +:+ rest = ds +:+ String "]" rest).
  { clear. induction ds as [|c ds IH]; [reflexivity|].
    rewrite !append_cons, IH. reflexivity. }
  rewrite Ea.
  assert (Hh : forall t, HasPrefix t EmptyString = true) by (intros []; reflexivity).
  rewrite Hh, (digits_prefix_closed ds rest Hd).
  assert (El : (0 <? len ds) = true).
  { apply Z.ltb_lt. destruct ds; [congruence|]. unfold len. simpl. lia. }
  rewrite El. cbn [andb].
  change (drop (2 + String.length ds)
            (String "[" (String "S" (ds +:+ String "]" rest))))
    with (drop (String.length ds) (ds +:+ String "]" rest)).
  rewrite drop_app_length. cbn. rewrite Hh. reflexivity.
Qed.

Lemma match_ref_inv (s m : string) :
  match_ref s = Some m ->
  exists ds rest, m = "[S" +:+ ds +:+ "]" /\ ds <> EmptyString /\
    digits_prefix ds = ds /\ s = "[S" +:+ ds +:+ String "]" rest.
Proof.
  unfold match_ref. destruct (HasPrefix s "[S") eqn:Hp; [|discriminate].
  apply HasPrefix_split in Hp. cbn [String.length] in Hp.
  remember (drop 2 s) as t eqn:Et. clear Et. subst s.
  change (drop (2 + String.length (digits_prefix t)) ("[S" +:+ t))
    with (drop (String.length (digits_prefix t)) t).
  destruct (0 <? len (digits_prefix t)) eqn:El; [|discriminate].
  destruct (HasPrefix (drop (String.length (digits_prefix t)) t) "]") eqn:Hb;
    [|discriminate].
  cbn [andb]. intros E. injection E as <-.
  apply HasPrefix_split in Hb. cbn [String.length] in Hb.
  exists (digits_prefix t), (drop 1 (drop (String.length (digits_prefix t)) t)).
  split; [reflexivity|]. split.
  { intros E. rewrite E in El. discriminate. }
  split; [apply digits_prefix_idem|].
  change ("[S" +:+ t) with (String "[" (String "S" t)).
  change ("[S" +:+ digits_prefix t +:+ String "]"
            (drop 1 (drop (String.length (digits_prefix t)) t)))
    with (String "[" (String "S" (digits_prefix t +:+ String "]"
            (drop 1 (drop (String.length (digits_prefix t)) t))))).
  do 2 f_equal.
  change (String "]" (drop 1 (drop (String.length (digits_prefix t)) t)))
    with ("]" +:+ drop 1 (drop (String.length (digits_prefix t)) t)).
  rewrite <- Hb. apply digits_prefix_split.
Qed.

Lemma marker_prefix (ds rest : string) :
  HasPrefix ("[S" +:+ ds +:+ String "]" rest) ("[S" +:+ ds +:+ "]") = true.
Proof.
  change ("[S" +:+ ds +:+ String "]" rest)
    with (String "[" (String "S" (ds +:+ String "]" rest))).
  change ("[S" +:+ ds +:+ "]") with (String "[" (String "S" (ds +:+ "]"))).
  cbn. clear. induction ds as [|c ds IH].
  - rewrite !append_nil. cbn. destruct rest; reflexivity.
  - rewrite !append_cons. cbn. rewrite Ascii.eqb_refl. exact IH.
Qed.

Lemma FindAll_sound (s : string) : forall skip m,
  In m (FindAll skip s) -> is_marker m /\ Contains s m = true.
Proof.
  induction s as [|c s IH]; intros skip m Hin; [destruct Hin|].
  cbn [FindAll] in Hin. destruct skip as [|k].
  - destruct (match_ref (String c s)) as [m'|] eqn:Em.
    + destruct Hin as [<-|Hin].
      * destruct (match_ref_inv _ _ Em) as (ds & rest & -> & Hne & Hd & Hs).
        split; [exists ds; auto|].
        apply Contains_prefix. rewrite Hs. apply marker_prefix.
      * destruct (IH _ _ Hin) as [A B]. split; [exact A|].
        apply Contains_tail. exact B.
    + destruct (IH _ _ Hin) as [A B]. split; [exact A|].
      apply Contains_tail. exact B.
  - destruct (IH _ _ Hin) as [A B]. split; [exact A|].
    apply Contains_tail. exact B.
Qed.

Lemma is_digit_not_bracket (c : ascii) : is_digit c = true -> Ascii.eqb c "[" = false.
Proof.
  intros H. destruct (Ascii.eqb_spec c "[") as [->|]; [|reflexivity].
  vm_compute in H. discriminate.
Qed.

Lemma bracket_free_digits (ds rest : string) :
  digits_prefix ds = ds ->
  bracket_free (String.length ds + 1) (ds +:+ String "]" rest) = true.
Proof.
  induction ds as [|c ds IH]; intros H.
  - rewrite append_nil. reflexivity.
  - rewrite append_cons. cbn in *. destruct (is_digit c) eqn:E; [|discriminate].
    injection H as H. rewrite (is_digit_not_bracket c E). cbn. apply IH. exact H.
Qed.

Lemma length_marker (ds : string) :
  String.length ("[S" +:+ ds +:+ "]") = S (S (String.length ds + 1)).
Proof.
  change ("[S" +:+ ds +:+ "]") with (String "[" (String "S" (ds +:+ "]"))).
  cbn. rewrite length_append. reflexivity.
Qed.

Lemma FindAll_complete (m : string) :
  is_marker m ->
  forall s skip, bracket_free skip s = true -> Contains s m = true ->
    In m (FindAll skip s).
Proof.
  intros (ds & -> & Hne & Hd).
  induction s as [|c s IH]; intros skip Hfree Hc.
  - cbn in Hc. discriminate.
  - cbn [Contains] in Hc. cbn [FindAll]. destruct skip as [|k].
    + destruct (HasPrefix (String c s) ("[S" +:+ ds +:+ "]")) eqn:Hp.
      * rewrite (match_ref_marker _ ds Hp Hne Hd). left. reflexivity.
      * cbn [orb] in Hc.
        destruct (match_ref (String c s)) as [m'|] eqn:Em.
        -- right. apply IH; [|exact Hc].
           destruct (match_ref_inv _ _ Em) as (ds' & rest & -> & _ & Hd' & Hs).
           rewrite length_marker. cbn [Nat.sub].
           change ("[S" +:+ ds' +:+ String "]" rest)
             with (String "[" (String "S" (ds' +:+ String "]" rest))) in Hs.
           injection Hs as _ ->. cbn [bracket_free].
           change (Ascii.eqb "S" "[") with false. cbn [negb andb].
           apply bracket_free_digits. exact Hd'.
        -- apply IH; [reflexivity | exact Hc].
    + cbn [bracket_free] in Hfree. apply andb_true_iff in Hfree.
      destruct Hfree as [Hb Hfree]. apply negb_true_iff in Hb.
      assert (Hp : HasPrefix (String c s) ("[S" +:+ ds +:+ "]") = false).
      { change ("[S" +:+ ds +:+ "]") with (String "[" (String "S" (ds +:+ "]"))).
        cbn. rewrite Hb. reflexivity. }
      rewrite Hp in Hc. cbn [orb] in Hc. apply IH; assumption.
Qed.

Lemma keep_new_fold (matches : list string) : forall seen refs,
  List.NoDup refs ->
  (forall m, default false (seen !! m) = true <-> In m refs) ->
  let out := snd (fold_left keep_new matches (seen, refs)) in
  List.NoDup out /\ forall m, In m out <-> In m refs \/ In m matches.
Proof.
  induction matches as [|x matches IH]; intros seen refs Hnd Hseen; cbn.
  - split; [exact Hnd|]. intros m. tauto.
  - destruct (default false (seen !! x)) eqn:Ex; cbn [negb].
    + destruct (IH seen refs Hnd Hseen) as [A B]. split; [exact A|].
      intros m. rewrite B. apply Hseen in Ex.
      split; [tauto|]. intros [H|[<-|H]]; auto.
    + assert (Hx : ~ In x refs).
      { intros H. apply Hseen in H. congruence. }
      destruct (IH (<[x := true]> seen) (refs ++ [x])) as [A B].
      * apply (Permutation_NoDup (l := x :: refs));
          [apply Permutation_cons_append | constructor; assumption].
      * intros m. rewrite in_app_iff. cbn.
        destruct (decide (x = m)) as [->|Hne].
        -- rewrite lookup_insert_eq. cbn. tauto.
        -- rewrite lookup_insert_ne by exact Hne. rewrite Hseen. tauto.
      * split; [exact A|]. intros m. rewrite B, in_app_iff. cbn. tauto.
Qed.

(** X15.  [parseSourceRefs] returns the markers that occur in the text, each
    once: a string is among the references exactly when it is an opening
    bracket, the letter S, one or more digits and a closing bracket, and
    the text holds it. *)
Theorem parseSourceRefs_markers (content : string) :
  List.NoDup (parseSourceRefs content) /\
  forall r, In r (parseSourceRefs content) <->
            is_marker r /\ Contains content r = true.
Proof.
  unfold parseSourceRefs.
  destruct (keep_new_fold (FindAll 0 content) ∅ []) as [Hnd Hin].
  - constructor.
  - intros m. rewrite lookup_empty. cbn. split; [discriminate | tauto].
  - split; [exact Hnd|]. intros r. rewrite Hin. split.
    + intros [[]|H]. apply (FindAll_sound _ _ _ H).
    + intros [Hm Hc]. right. apply (FindAll_complete r Hm); [reflexivity | exact Hc].
Qed.

End ParseSourceRefsFacts.

Section BaseAgentProcessFacts.
Import GoStrings Agents AgentProcess.

Variable ToLower : string -> string.
Variable TrimSpace : string -> string.
Variable CompleteWithSystem : string -> string -> option string.
Variable parseInsights : string -> list string.

Lemma CanHandle_le_1 (b : BaseAgent) (question : string) :
  (BaseAgent_CanHandle ToLower b question <= 1)%Q.
Proof.
  unfold BaseAgent_CanHandle. rewrite count_matches, Z.add_0_l.
  destruct (Z.of_nat (length (keywords b)) =? 0) eqn:E; [discriminate|].
  apply Z.eqb_neq in E.
  destruct (_ =? 0); [discriminate|].
  pose proof (filter_length_le
                (fun kw => Contains (ToLower question) (ToLower kw)) (keywords b)).
  destruct (Qle_bool (1 # 2) _); cbn [negb]; [|discriminate].
  apply ratio_le_1; lia.
Qed.

(** X16.  A response of [Process] carries the name of the agent, the text of
    the model and a confidence between 0.5 and 1, whatever [CanHandle]
    says of the question; so [Validate] can refuse it for a blank text
    only, never for its confidence.  A request with a blank question gets
    no response. *)
Theorem BaseAgent_Process_response (b : BaseAgent) (req : AgentRequest)
    (resp : AgentResponse) :
  BaseAgent_Process ToLower TrimSpace CompleteWithSystem parseInsights b req
  = inr resp ->
  TrimSpace (Question req) <> EmptyString /\
  CompleteWithSystem (systemPrompt b) (buildUserPrompt req)
  = Some (Agents.Content resp) /\
  AgentName resp = name b /\
  (1 # 2 <= Confidence resp)%Q /\ (Confidence resp <= 1)%Q /\
  SourceRefs resp = parseSourceRefs (Agents.Content resp) /\
  AgentResponse_Validate TrimSpace resp
  = (if String.eqb (TrimSpace (Agents.Content resp)) "" then Some ErrEmptyContent
     else None).
Proof.
  unfold BaseAgent_Process, AgentRequest_Validate.
  destruct (String.eqb_spec (TrimSpace (Question req)) "") as [|Hq];
    [discriminate|].
  destruct (CompleteWithSystem _ _) as [content|] eqn:Ec; [|discriminate].
  intros E. injection E as <-. cbn [AgentName Agents.Content Confidence SourceRefs].
  assert (Hconf : (1 # 2 <= (if negb (Qle_bool (1 # 2)
                                 (BaseAgent_CanHandle ToLower b (Question req)))
                    then 1 # 2 else BaseAgent_CanHandle ToLower b (Question req)))%Q
                  /\
                  ((if negb (Qle_bool (1 # 2)
                                 (BaseAgent_CanHandle ToLower b (Question req)))
                    then 1 # 2 else BaseAgent_CanHandle ToLower b (Question req))
                   <= 1)%Q).
  { pose proof (CanHandle_le_1 b (Question req)) as Hle.
    destruct (Qle_bool (1 # 2) _) eqn:E; cbn [negb].
    - apply Qle_bool_iff in E. split; assumption.
    - split; [apply Qle_refl | discriminate]. }
  destruct Hconf as [Hlo Hhi].
  repeat (split; [first [exact Hq | exact Ec | reflexivity | exact Hlo | exact Hhi]|]).
  unfold AgentResponse_Validate. cbn [Agents.Content Confidence].
  destruct (String.eqb (TrimSpace content) ""); [reflexivity|].
  assert (H0 : Qle_bool 0 (if negb (Qle_bool (1 # 2)
                                 (BaseAgent_CanHandle ToLower b (Question req)))
                    then 1 # 2 else BaseAgent_CanHandle ToLower b (Question req))
               = true).
  { apply Qle_bool_iff. eapply Qle_trans; [|exact Hlo]. discriminate. }
  assert (H1 : Qle_bool (if negb (Qle_bool (1 # 2)
                                 (BaseAgent_CanHandle ToLower b (Question req)))
                    then 1 # 2 else BaseAgent_CanHandle ToLower b (Question req)) 1
               = true).
  { apply Qle_bool_iff. exact Hhi. }
  rewrite H0, H1. reflexivity.
Qed.

End BaseAgentProcessFacts.

Lemma BaseAgent_Process_response_witness :
  AgentProcess.AgentResponse_Validate GoStrings.TrimSpace_ascii
    {| Agents.AgentName := "market-analyst";
       Agents.Content := AgentProcess.answer_with_markers;
       Agents.Confidence := 1 # 2;
       Agents.SourceRefs := ["[S1]"; "[S12]"];
       Agents.Insights := [] |}
  = None.
Proof.
  destruct (BaseAgent_Process_response GoStrings.ToLower_ascii
              GoStrings.TrimSpace_ascii
              (fun _ _ => Some AgentProcess.answer_with_markers)
              (fun _ => [])
              Agents.market_agent Agents.mock_request
              {| Agents.AgentName := "market-analyst";
                 Agents.Content := AgentProcess.answer_with_markers;
                 Agents.Confidence := 1 # 2;
                 Agents.SourceRefs := ["[S1]"; "[S12]"];
                 Agents.Insights := [] |})
    as (_ & _ & _ & _ & _ & _ & H).
  - vm_compute. reflexivity.
  - rewrite H. vm_compute. reflexivity.
Defined.


(** ** [Process] from the request to the reply *)

Section ProcessFacts.
Import GoStrings Search Critic Service QueryService.

Variable World : Type.
Variable TrimSpace : string -> string.
Variable sort_Slice : forall A : Type, (A -> A -> bool) -> list A -> list A.
Variable url_Parse : string -> option ParsedURL.
Variable json_queries : string -> option (list string).
Variable worldModel : option (Z -> string -> World -> string * World).
Variable sources_ListByUser : Z -> World -> option (list Source) * World.
Variable expand_llm : string -> Z -> World -> option string * World.
Variable searchSingleQuery :
  World -> string -> list string -> Z -> option (list SearchResult).
Variable completion : World -> list string -> list string.
Variable searched : World -> World.
Variable ctx_Err : World -> bool.
Variable coordinator :
  option (AgentCoordinatorRequest -> World ->
          option (option CoordinatorResponse) * World).
Variable analyze_llm :
  string -> list SearchResult -> World -> option string * World.
Variable critic :
  option (string -> list SearchResult -> string -> World ->
          option CriticResult * World).
Variable improve_llm :
  string -> CriticResult -> list SearchResult -> string ->
  World -> option string * World.
Variable criticConfig : CriticConfig.

Hypothesis sort_Slice_spec : GoSort.SortSlice sort_Slice.

Local Abbreviation searchQueries_for :=
  (QueryService.searchQueries_for World json_queries expand_llm).
Local Abbreviation Process :=
  (QueryService.Process World TrimSpace sort_Slice url_Parse json_queries
     worldModel sources_ListByUser expand_llm searchSingleQuery completion
     searched ctx_Err coordinator analyze_llm critic improve_llm criticConfig).

Lemma Validate_Strategy (req : Domain.QueryRequest) :
  Domain.Validate TrimSpace req = None ->
  1 <= Domain.MaxQueries (Domain.Strategy_ req) <= 10 /\
  1 <= Domain.MaxResults (Domain.Strategy_ req) <= 100.
Proof.
  unfold Domain.Validate, Domain.Strategy_Validate.
  destruct (String.eqb _ _); [discriminate|].
  destruct (Domain.MaxQueryLength <? _); [discriminate|].
  destruct (negb _); [discriminate|].
  destruct ((Domain.MaxQueries _ <? 1) || _) eqn:E1; [discriminate|].
  destruct ((Domain.MaxResults _ <? 1) || _) eqn:E2; [discriminate|].
  intros _. apply orb_false_iff in E1, E2.
  destruct E1 as [A B]. destruct E2 as [C D].
  apply Z.ltb_ge in A, B, C, D. lia.
Qed.

Lemma searchQueries_for_spec (req : Domain.QueryRequest) (st : state World) :
  let maxQueries :=
    if Domain.MaxQueries (Domain.Strategy_ req) <=? 0 then 3
    else Domain.MaxQueries (Domain.Strategy_ req) in
  exists qs,
    fst (searchQueries_for req st) = Ok qs /\
    1 <= Z.of_nat (length qs) <= maxQueries /\
    calls World (snd (searchQueries_for req st)) = calls World st /\
    (forall q, In q qs ->
       q = Domain.Text req \/
       exists response queries,
         fst (expand_llm (Domain.Text req) maxQueries (world World st))
         = Some response /\
         json_queries response = Some queries /\ In q queries).
Proof.
  intros maxQueries.
  assert (Hm : 1 <= maxQueries).
  { unfold maxQueries. destruct (_ <=? 0) eqn:E; [lia|].
    apply Z.leb_gt in E. lia. }
  unfold QueryService.searchQueries_for, QueryService.expandQuery,
    Service.bind, Service.ret, QueryService.call_out.
  fold maxQueries.
  destruct (expand_llm (Domain.Text req) maxQueries (world World st))
    as [[response|] w] eqn:El; cbn [fst snd calls].
  2:{ exists [Domain.Text req]. cbn. repeat split; auto; try lia.
      intros q [<-|[]]. left. reflexivity. }
  destruct (json_queries response) as [queries|] eqn:Ej; cbn [fst snd calls].
  2:{ exists [Domain.Text req]. cbn. repeat split; auto; try lia.
      intros q [<-|[]]. left. reflexivity. }
  destruct (Z.of_nat (length queries) =? 0) eqn:E0; cbn [fst snd calls].
  { exists [Domain.Text req]. cbn. repeat split; auto; try lia.
    intros q [<-|[]]. left. reflexivity. }
  apply Z.eqb_neq in E0.
  destruct (maxQueries <? Z.of_nat (length queries)) eqn:E1; cbn [fst snd calls].
  - assert (E2 : (maxQueries <? 0) = false) by (apply Z.ltb_ge; lia).
    rewrite E2. cbn [fst snd calls]. apply Z.ltb_lt in E1.
    exists (firstn (Z.to_nat maxQueries) queries).
    split; [reflexivity|]. rewrite length_firstn.
    split; [lia|]. split; [reflexivity|].
    intros q Hq. right. exists response, queries.
    repeat split; auto. eapply In_firstn. exact Hq.
  - apply Z.ltb_ge in E1. exists queries.
    split; [reflexivity|]. split; [lia|]. split; [reflexivity|].
    intros q Hq. right. exists response, queries. repeat split; auto.
Qed.

(** X17.  The search is always given at least one query and at most
    [MaxQueries] of the strategy, 3 when that is not positive; for a
    request that [Validate] accepts that is at most 10.  Each query is
    one the language model proposed or, when the model fails, answers no
    JSON or proposes nothing, the text of the request alone. *)
Theorem searchQueries_for_bounds (req : Domain.QueryRequest) (st : state World) :
  exists qs,
    fst (searchQueries_for req st) = Ok qs /\
    1 <= Z.of_nat (length qs) /\
    Z.of_nat (length qs)
    <= (if Domain.MaxQueries (Domain.Strategy_ req) <=? 0 then 3
        else Domain.MaxQueries (Domain.Strategy_ req)) /\
    (Domain.Validate TrimSpace req = None ->
     Z.of_nat (length qs) <= Domain.MaxQueries (Domain.Strategy_ req) <= 10) /\
    (forall q, In q qs ->
       q = Domain.Text req \/
       exists response queries,
         fst (expand_llm (Domain.Text req)
                (if Domain.MaxQueries (Domain.Strategy_ req) <=? 0 then 3
                 else Domain.MaxQueries (Domain.Strategy_ req))
                (world World st)) = Some response /\
         json_queries response = Some queries /\ In q queries).
Proof.
  destruct (searchQueries_for_spec req st) as (qs & H1 & H2 & _ & H4).
  exists qs. split; [exact H1|]. split; [lia|]. split; [lia|].
  split; [|exact H4].
  intros Hv. destruct (Validate_Strategy req Hv) as [Hq _].
  assert (E : (Domain.MaxQueries (Domain.Strategy_ req) <=? 0) = false)
    by (apply Z.leb_gt; lia).
  rewrite E in H2. lia.
Qed.

Lemma toSourceRefs_lookup (results : list SearchResult)
    (trustMap : gmap string TrustLevel) :
  length (toSourceRefs results trustMap) = length results /\
  forall (i : nat) (r : SearchResult),
    results !! i = Some r ->
    toSourceRefs results trustMap !! i = Some (sourceRef trustMap i r).
Proof.
  unfold toSourceRefs.
  destruct (toSourceRefs_loop_spec trustMap results 0
              (replicate (length results) zero_SourceRef)) as (H1 & _ & H3).
  { rewrite length_replicate. reflexivity. }
  split; [rewrite H1; apply length_replicate|].
  intros i r Hi. change i with (0 + i)%nat at 1. apply H3. exact Hi.
Qed.

Lemma toSourceRefs_URLs (results : list SearchResult)
    (trustMap : gmap string TrustLevel) :
  List.map Service.URL (toSourceRefs results trustMap)
  = List.map Search.URL results.
Proof.
  destruct (toSourceRefs_lookup results trustMap) as [Hlen Hget].
  apply list_eq. intros i. rewrite !list_lookup_fmap.
  destruct (results !! i) as [r|] eqn:E.
  - rewrite (Hget i r E). reflexivity.
  - apply lookup_ge_None in E.
    assert (E' : toSourceRefs results trustMap !! i = None)
      by (apply lookup_ge_None; lia).
    rewrite E'. reflexivity.
Qed.

Lemma searchWithCache_ok (w : World) (queries domains : list string)
    (maxResults : Z) :
  0 <= maxResults ->
  exists results,
    Fanout.searchWithCache sort_Slice (searchSingleQuery w) (completion w)
      queries domains maxResults = Some results /\
    Z.of_nat (length results) <= maxResults /\
    List.NoDup (List.map Search.URL results).
Proof.
  intros Hm. unfold Fanout.searchWithCache.
  rewrite (mergeResults_ranked sort_Slice _ maxResults Hm).
  eexists. split; [reflexivity|].
  split; [rewrite length_firstn; lia|].
  destruct (ranked_spec sort_Slice sort_Slice_spec
              (Fanout.resultsChan (searchSingleQuery w) (completion w)
                 queries domains maxResults)) as (_ & Hnd & _).
  cbv zeta in Hnd. rewrite <- firstn_map. apply NoDup_firstn. exact Hnd.
Qed.

Lemma collect_domains_fold (userSources : list Source) :
  forall (ds : list string) (tm : gmap string TrustLevel),
    fst (fold_left (collect_domain url_Parse) userSources (ds, tm))
    = ds ++ List.filter (fun d => negb (String.eqb d ""))
              (List.map (Source_Domain url_Parse) userSources) /\
    forall d,
      snd (fold_left (collect_domain url_Parse) userSources (ds, tm)) !! d
      = match List.filter (fun s => String.eqb (Source_Domain url_Parse s) d
                                    && negb (String.eqb d ""))
                (rev userSources) with
        | s :: _ => Some (TrustLevel_ s)
        | [] => tm !! d
        end.
Proof.
  induction userSources as [|src rest IH]; intros ds tm.
  - cbn. rewrite app_nil_r. auto.
  - cbn [fold_left List.map List.filter rev].
    unfold collect_domain at 2 4. cbn beta zeta.
    destruct (String.eqb_spec (Source_Domain url_Parse src) "") as [E|E];
      cbn [negb fst snd].
    + destruct (IH ds tm) as [A B]. split; [exact A|].
      intros d. rewrite B, List.filter_app. cbn [List.filter].
      rewrite E.
      destruct (String.eqb_spec "" d) as [<-|Hd]; cbn [andb negb];
        rewrite app_nil_r; reflexivity.
    + destruct (IH (ds ++ [Source_Domain url_Parse src])
                  (<[Source_Domain url_Parse src := TrustLevel_ src]> tm))
        as [A B].
      split; [rewrite A, <- app_assoc; reflexivity|].
      intros d. rewrite B, List.filter_app. cbn [List.filter].
      destruct (List.filter _ (rev rest)) as [|s0 l0]; [|reflexivity].
      cbn [app].
      destruct (String.eqb_spec (Source_Domain url_Parse src) d) as [<-|Hd].
      * apply String.eqb_neq in E. rewrite E. cbn [negb andb].
        apply lookup_insert_eq.
      * cbn [andb]. apply lookup_insert_ne. exact Hd.
Qed.

(** X18.  The domains [Process] searches are the domains of the user's
    sources in their order, those without a domain left out; the trust
    recorded for a domain is that of the last source with this domain,
    and a domain of no source has none. *)
Theorem collect_domains_last_wins (userSources : list Source) (d : string) :
  fst (collect_domains url_Parse userSources)
  = List.filter (fun d => negb (String.eqb d ""))
      (List.map (Source_Domain url_Parse) userSources) /\
  snd (collect_domains url_Parse userSources) !! d
  = match List.filter (fun s => String.eqb (Source_Domain url_Parse s) d)
            (rev userSources) with
    | s :: _ => if String.eqb d "" then None else Some (TrustLevel_ s)
    | [] => None
    end.
Proof.
  unfold collect_domains.
  destruct (collect_domains_fold userSources [] ∅) as [A B].
  split; [exact A|]. rewrite B, lookup_empty.
  destruct (decide (d = "")) as [->|Hd].
  - assert (E : forall l : list Source,
              List.filter (fun s => String.eqb (Source_Domain url_Parse s) ""
                                    && negb (String.eqb "" "")) l = []).
    { induction l as [|s l IH]; [reflexivity|]. cbn.
      rewrite andb_false_r. exact IH. }
    rewrite E.
    destruct (List.filter (fun s => String.eqb (Source_Domain url_Parse s) "")
                (rev userSources)); reflexivity.
  - apply String.eqb_neq in Hd.
    assert (E : forall l : list Source,
              List.filter (fun s => String.eqb (Source_Domain url_Parse s) d
                                    && negb (String.eqb d "")) l
              = List.filter (fun s => String.eqb (Source_Domain url_Parse s) d) l).
    { intros l. apply List.filter_ext. intros s. rewrite Hd. apply andb_true_r. }
    rewrite E, Hd. reflexivity.
Qed.

Ltac unfold_pipeline H :=
  cbv beta iota zeta delta
    [QueryService.Process Service.bind Service.ret QueryService.call_out
     QueryService.searchWithCache QueryService.coordinator_answer] in H.

Ltac step_in H :=
  match type of H with
  | context [match ?x with _ => _ end] =>
      lazymatch x with
      | context [match _ with _ => _ end] => fail
      | _ => destruct x eqn:?
      end
  end; cbn [fst snd world calls] in H.

Lemma reply_shape (w : World) (queries domains : list string)
    (maxResults : Z) (results : list SearchResult) (answer : string)
    (trustMap : gmap string TrustLevel) :
  1 <= maxResults ->
  Fanout.searchWithCache sort_Slice (searchSingleQuery w) (completion w)
    queries domains maxResults = Some results ->
  (Z.of_nat (length results) =? 0) = false ->
  let resp := Process_response answer results trustMap in
  1 <= Z.of_nat (length (Sources resp)) <= maxResults /\
  List.NoDup (List.map Service.URL (Sources resp)) /\
  (forall (i : nat) ref,
     Sources resp !! i = Some ref ->
     Marker ref = "[S" +:+ pretty (Z.of_nat i + 1) +:+ "]" /\
     exists r, results !! i = Some r /\ Service.URL ref = Search.URL r /\
               Service.Title ref = Search.Title r) /\
  Service.Text resp = answer.
Proof.
  intros Hm Hs Hne resp. apply Z.eqb_neq in Hne.
  destruct (searchWithCache_ok w queries domains maxResults) as (rs & E & Hle & Hnd);
    [lia|].
  rewrite Hs in E. injection E as <-.
  destruct (toSourceRefs_lookup results trustMap) as [Hlen Hget].
  unfold resp, Process_response. cbn [Sources Service.Text].
  split; [rewrite Hlen; lia|]. split; [rewrite toSourceRefs_URLs; exact Hnd|].
  split; [|reflexivity].
  intros i ref Hi.
  destruct (results !! i) as [r|] eqn:E.
  - rewrite (Hget i r E) in Hi. injection Hi as <-.
    split; [reflexivity|]. exists r. repeat split.
  - apply lookup_ge_None in E. apply lookup_lt_Some in Hi. lia.
Qed.

(** X19.  A reply of [Process] belongs to a request that [Validate] accepts.
    It lists at least one source and at most [MaxResults] of the
    strategy, which is at most 100; no two of its sources have the same
    URL; the source at place [i], counted from 0, has the marker
    [S(i+1)] and the URL and the title of the search result at that
    place. *)
Theorem Process_reply (req : Domain.QueryRequest) (st st' : state World)
    (resp : QueryResponse) :
  Process req st = (Ok resp, st') ->
  Domain.Validate TrimSpace req = None /\
  1 <= Z.of_nat (length (Sources resp))
    <= Domain.MaxResults (Domain.Strategy_ req) /\
  Domain.MaxResults (Domain.Strategy_ req) <= 100 /\
  List.NoDup (List.map Service.URL (Sources resp)) /\
  (forall (i : nat) ref,
     Sources resp !! i = Some ref ->
     Marker ref = "[S" +:+ pretty (Z.of_nat i + 1) +:+ "]").
Proof.
  intros H. unfold_pipeline H.
  destruct (Domain.Validate TrimSpace req) eqn:Hv; [discriminate|].
  destruct (Validate_Strategy req Hv) as [_ Hr].
  cbn [Domain.Strategy_ Domain.Sanitize] in H.
  assert (E : (Domain.MaxResults (Domain.Strategy_ req) <=? 0) = false)
    by (apply Z.leb_gt; lia).
  rewrite E in H.
  repeat step_in H; try discriminate.
  all: injection H as <- <-.
  all: match goal with
       | Hs : Fanout.searchWithCache _ _ _ _ _ _ = Some ?results,
         Hn : (Z.of_nat (length ?results) =? 0) = false
         |- context [Process_response ?answer ?results ?trustMap] =>
           destruct (reply_shape _ _ _ _ results answer trustMap
                       (proj1 Hr) Hs Hn) as (A & B & C & _)
       end.
  all: split; [reflexivity|]; split; [exact A|]; split; [lia|];
    split; [exact B|]; intros i ref Hi; apply (C i ref Hi).
Qed.

(** X20.  [Process] never panics.  A request that [Validate] refuses is
    answered with that error and nothing else happens: no part outside
    is called.  With [MaxRetries] at least 0, the critic is called at
    most [MaxRetries + 1] times and the improving model at most
    [MaxRetries] times in one call of [Process], and neither is called
    at all when the service has no critic or the strategy does not ask
    for one. *)
Theorem Process_gate (req : Domain.QueryRequest) (st : state World) :
  0 <= MaxRetries criticConfig ->
  fst (Process req st) <> Panicked /\
  (forall err, Domain.Validate TrimSpace req = Some err ->
     Process req st = (Err (ErrValidation err), st)) /\
  (let asked :=
     match critic with
     | Some _ => Domain.UseCritic (Domain.Strategy_ req)
     | None => false
     end in
   count_reviews (calls World (snd (Process req st)))
   - count_reviews (calls World st)
   <= (if asked then MaxRetries criticConfig + 1 else 0) /\
   count_improves (calls World (snd (Process req st)))
   - count_improves (calls World st)
   <= (if asked then MaxRetries criticConfig else 0)).
Proof.
  intros HR. split; [|split].
  - destruct (Process req st) as [r st'] eqn:H. cbn [fst]. intros ->.
    unfold_pipeline H.
    destruct (Domain.Validate TrimSpace req) eqn:Hv; [discriminate|].
    destruct (Validate_Strategy req Hv) as [_ Hr].
    cbn [Domain.Strategy_ Domain.Sanitize] in H.
    assert (E : (Domain.MaxResults (Domain.Strategy_ req) <=? 0) = false)
      by (apply Z.leb_gt; lia).
    rewrite E in H.
    repeat step_in H; try discriminate.
    all: match goal with
         | Hq : QueryService.searchQueries_for _ _ _ ?r ?s = (Panicked, _) |- _ =>
             destruct (searchQueries_for_spec r s) as (qs & Hqs & _);
             rewrite Hq in Hqs; discriminate
         | Hs : Fanout.searchWithCache _ (searchSingleQuery ?w) _ ?q ?d ?m = None
           |- _ =>
             destruct (searchWithCache_ok w q d m) as (rs & Hrs & _); [lia|];
             rewrite Hs in Hrs; discriminate
         end.
  - intros err Hv. unfold QueryService.Process. rewrite Hv. reflexivity.
  - intros asked.
    destruct (Process req st) as [r st'] eqn:H. cbn [snd].
    unfold_pipeline H.
    destruct (Domain.Validate TrimSpace req) eqn:Hv.
    { injection H as _ <-. destruct asked; lia. }
    cbn [Domain.Strategy_ Domain.Sanitize] in H.
    repeat step_in H.
    all: injection H as _ <-; cbn [calls].
    all: repeat match goal with
         | Hq : QueryService.searchQueries_for _ _ _ ?r ?s = (_, ?s0) |- _ =>
             let Hc := fresh "Hc" in
             destruct (searchQueries_for_spec r s) as (? & _ & _ & Hc & _);
             rewrite Hq in Hc; cbn [snd calls] in Hc; clear Hq
         | Hl : reviewWithCritic _ ?cr _ _ ?src ?q ?a ?s = (_, ?s3) |- _ =>
             let Hn := fresh "Hn" in
             pose proof (loop_calls World cr improve_llm criticConfig src q
                           _ 0 a s eq_refl) as Hn;
             fold (reviewWithCritic World cr improve_llm criticConfig src q a s) in Hn;
             rewrite Hl in Hn; cbn [snd calls] in Hn; clear Hl
         end.
    all: unfold asked; cbn [Domain.Strategy_ Domain.Sanitize] in *.
    all: try match goal with
         | Hu : Domain.UseCritic _ = _ |- _ => rewrite Hu
         end.
    all: try match goal with
         | Hc : calls World _ = calls World _ |- _ => rewrite Hc in *
         end.
    all: try match goal with
         | Hn : _ /\ _ |- _ => destruct Hn
         end.
    all: repeat match goal with
         | |- context [if ?b then _ else _] => destruct b
         end; lia.
Qed.

End ProcessFacts.

Lemma Process_reply_witness :
  Domain.Validate GoStrings.TrimSpace_ascii (Domain.request "open banking") = None /\
  1 <= Z.of_nat (length (Service.Sources QueryService.reply_example))
    <= Domain.MaxResults (Domain.Strategy_ (Domain.request "open banking")) /\
  Domain.MaxResults (Domain.Strategy_ (Domain.request "open banking")) <= 100 /\
  List.NoDup (List.map Service.URL (Service.Sources QueryService.reply_example)) /\
  (forall (i : nat) ref,
     Service.Sources QueryService.reply_example !! i = Some ref ->
     Service.Marker ref = "[S" +:+ pretty (Z.of_nat i + 1) +:+ "]").
Proof.
  apply (Process_reply nat GoStrings.TrimSpace_ascii GoSort.insertion_sort
           QueryService.url_Parse_cbr QueryService.json_none None
           QueryService.sources_one QueryService.llm_down
           QueryService.search_two (fun _ l => l) (fun w => w) (fun _ => false)
           None QueryService.analyze_fixed (Some Service.picky_critic)
           Service.eager_model
           {| Critic.MaxRetries := 2; Critic.StrictMode := false |}
           insertion_sort_SortSlice
           (Domain.request "open banking")
           {| Service.world := 0%nat; Service.calls := [] |}
           (snd QueryService.run_example) QueryService.reply_example).
  vm_compute. reflexivity.
Defined.

Lemma Process_gate_witness :
  fst QueryService.run_example <> QueryService.Panicked.
Proof.
  apply (proj1 (Process_gate nat GoStrings.TrimSpace_ascii GoSort.insertion_sort
           QueryService.url_Parse_cbr QueryService.json_none None
           QueryService.sources_one QueryService.llm_down
           QueryService.search_two (fun _ l => l) (fun w => w) (fun _ => false)
           None QueryService.analyze_fixed (Some Service.picky_critic)
           Service.eager_model
           {| Critic.MaxRetries := 2; Critic.StrictMode := false |}
           insertion_sort_SortSlice
           (Domain.request "open banking")
           {| Service.world := 0%nat; Service.calls := [] |}
           ltac:(simpl; lia))).
Defined.


(** ** The source service on the repository kept in memory *)

Section SourceStoreFacts.
Import GoStrings Service QueryService SourceStore.

Variable url_Parse : string -> option ParsedURL.
Variable visit : gmap Z Source -> list (Z * Source).
Hypothesis visit_spec : Visits visit.

Local Abbreviation Create := (SourceStore.Create visit).
Local Abbreviation CountByUser := (SourceStore.CountByUser visit).
Local Abbreviation ExistsByURL := (SourceStore.ExistsByURL visit).
Local Abbreviation ListByUser := (SourceStore.ListByUser visit).
Local Abbreviation Add := (SourceStore.Add url_Parse visit).
Local Abbreviation ImportSeed := (SourceStore.ImportSeed visit).
Local Abbreviation ImportSeed_loop := (SourceStore.ImportSeed_loop visit).
Local Abbreviation step := (SourceStore.step url_Parse visit).
Local Abbreviation run := (SourceStore.run url_Parse visit).

Lemma filter_length_perm {A} (p : A -> bool) (l l' : list A) :
  Permutation l l' -> length (List.filter p l) = length (List.filter p l').
Proof.
  induction 1 as [|x l l' _ IH|x y l|l l' l'' _ IH1 _ IH2]; cbn.
  - reflexivity.
  - destruct (p x); cbn; congruence.
  - destruct (p x), (p y); reflexivity.
  - congruence.
Qed.

Lemma CountByUser_length (userID : Z) (m : MockSourceRepository) :
  CountByUser userID m
  = Z.of_nat (length (List.filter (of_user userID) (map_to_list (sources m)))).
Proof.
  unfold SourceStore.CountByUser.
  rewrite <- (filter_length_perm (of_user userID) _ _ (visit_spec (sources m))).
  generalize (visit (sources m)). intros l.
  assert (H : forall n,
            fold_left (fun count (kv : Z * Source) =>
                         if SourceUserID (snd kv) =? userID then count + 1 else count)
              l n = n + Z.of_nat (length (List.filter (of_user userID) l))).
  { induction l as [|kv l IH]; intros n; cbn; [lia|].
    rewrite IH. unfold of_user at 2. destruct (_ =? userID); cbn; lia. }
  rewrite H. lia.
Qed.

Lemma CountByUser_ListByUser (userID : Z) (m : MockSourceRepository) :
  CountByUser userID m = Z.of_nat (length (ListByUser userID m)).
Proof.
  rewrite CountByUser_length. unfold SourceStore.ListByUser.
  rewrite length_map. f_equal. symmetry.
  apply (filter_length_perm (of_user userID)), visit_spec.
Qed.

Lemma existsb_visit (p : Source -> bool) (m : gmap Z Source) :
  existsb (fun kv => p (snd kv)) (visit m) = true
  <-> exists k s, m !! k = Some s /\ p s = true.
Proof.
  rewrite existsb_exists. split.
  - intros ([k s] & Hin & Hp). exists k, s. split; [|exact Hp].
    apply elem_of_map_to_list. rewrite <- (visit_spec m).
    apply list_elem_of_In. exact Hin.
  - intros (k & s & Hk & Hp). exists (k, s). split; [|exact Hp].
    apply list_elem_of_In. rewrite (visit_spec m).
    apply elem_of_map_to_list. exact Hk.
Qed.

Lemma well_kept_fresh (m : MockSourceRepository) :
  well_kept m -> sources m !! nextID m = None.
Proof.
  intros [Hid _]. destruct (sources m !! nextID m) as [s|] eqn:E; [|reflexivity].
  destruct (Hid _ _ E). lia.
Qed.

Lemma Create_spec (now : Z) (source : Source) (m : MockSourceRepository) :
  well_kept m ->
  (exists k s, sources m !! k = Some s /\
     SourceUserID s = SourceUserID source /\ SourceURL s = SourceURL source) /\
  Create now source m = (m, Some ErrDuplicateSource)
  \/
  (forall k s, sources m !! k = Some s ->
     SourceUserID s = SourceUserID source -> SourceURL s <> SourceURL source) /\
  Create now source m
  = ({| sources := <[nextID m := with_ID source (nextID m) now]> (sources m);
        nextID := nextID m + 1 |}, None).
Proof.
  intros Hk. unfold SourceStore.Create.
  destruct (existsb _ (visit (sources m))) eqn:E.
  - left. split; [|reflexivity].
    apply (existsb_visit (same_user_url (SourceUserID source) (SourceURL source)))
      in E.
    destruct E as (k & s & Hs & Hp). exists k, s. split; [exact Hs|].
    unfold same_user_url in Hp. apply andb_true_iff in Hp.
    destruct Hp as [A B]. apply Z.eqb_eq in A. apply String.eqb_eq in B. auto.
  - right. split; [|reflexivity].
    intros k s Hs Hu Hurl.
    assert (Ht : existsb (fun kv => same_user_url (SourceUserID source)
                                      (SourceURL source) (snd kv))
                   (visit (sources m)) = true).
    { apply (existsb_visit (same_user_url (SourceUserID source) (SourceURL source))).
      exists k, s. split; [exact Hs|]. unfold same_user_url.
      rewrite Hu, Hurl, Z.eqb_refl, String.eqb_refl. reflexivity. }
    congruence.
Qed.

Lemma Create_well_kept (now : Z) (source : Source) (m : MockSourceRepository) :
  well_kept m -> well_kept (fst (Create now source m)).
Proof.
  intros Hk. destruct (Create_spec now source m Hk) as [[_ ->]|[Hnew ->]];
    [exact Hk|].
  pose proof (well_kept_fresh m Hk) as Hfresh.
  destruct Hk as [Hid Hurl]. cbn [fst]. split; cbn [sources nextID].
  - intros k s Hs. destruct (decide (k = nextID m)) as [->|Hne].
    + rewrite lookup_insert_eq in Hs. injection Hs as <-. cbn. lia.
    + rewrite lookup_insert_ne in Hs by congruence.
      destruct (Hid _ _ Hs). lia.
  - intros k1 k2 s1 s2 H1 H2 Hu Hl.
    destruct (decide (k1 = nextID m)) as [->|N1];
      destruct (decide (k2 = nextID m)) as [->|N2]; [reflexivity| | |].
    + rewrite lookup_insert_eq in H1. injection H1 as <-.
      rewrite lookup_insert_ne in H2 by congruence.
      cbn in Hu, Hl. exfalso. apply (Hnew _ _ H2); congruence.
    + rewrite lookup_insert_eq in H2. injection H2 as <-.
      rewrite lookup_insert_ne in H1 by congruence.
      cbn in Hu, Hl. exfalso. apply (Hnew _ _ H1); congruence.
    + rewrite lookup_insert_ne in H1, H2 by congruence.
      apply (Hurl _ _ _ _ H1 H2 Hu Hl).
Qed.

Lemma Delete_well_kept (userID sourceID : Z) (m : MockSourceRepository) :
  well_kept m -> well_kept (fst (Delete userID sourceID m)).
Proof.
  intros Hk. unfold Delete.
  destruct (sources m !! sourceID) as [s|] eqn:E; [|exact Hk].
  destruct (negb _); [exact Hk|]. cbn [fst].
  destruct Hk as [Hid Hurl]. split; cbn [sources nextID].
  - intros k s' Hs. apply lookup_delete_Some in Hs. apply Hid, Hs.
  - intros k1 k2 s1 s2 H1 H2. apply lookup_delete_Some in H1, H2.
    apply Hurl; [apply H1 | apply H2].
Qed.

Lemma UpdateTrustLevel_well_kept (userID sourceID : Z) (level : TrustLevel)
    (m : MockSourceRepository) :
  well_kept m -> well_kept (fst (UpdateTrustLevel userID sourceID level m)).
Proof.
  intros Hk. unfold UpdateTrustLevel.
  destruct (sources m !! sourceID) as [s|] eqn:E; [|exact Hk].
  destruct (negb _); [exact Hk|]. cbn [fst].
  destruct Hk as [Hid Hurl].
  assert (Hold : forall k s', <[sourceID := with_TrustLevel s level]> (sources m) !! k
                              = Some s' ->
                 exists s0, sources m !! k = Some s0 /\ ID s' = ID s0 /\
                   SourceUserID s' = SourceUserID s0 /\ SourceURL s' = SourceURL s0).
  { intros k s' Hs. destruct (decide (k = sourceID)) as [->|Hne].
    - rewrite lookup_insert_eq in Hs. injection Hs as <-. exists s. auto.
    - rewrite lookup_insert_ne in Hs by congruence. exists s'. auto. }
  split; cbn [sources nextID].
  - intros k s' Hs. destruct (Hold _ _ Hs) as (s0 & H0 & -> & _).
    apply Hid. exact H0.
  - intros k1 k2 s1 s2 H1 H2 Hu Hl.
    destruct (Hold _ _ H1) as (a & Ha & _ & Ua & La).
    destruct (Hold _ _ H2) as (b & Hb & _ & Ub & Lb).
    apply (Hurl _ _ _ _ Ha Hb); congruence.
Qed.

Lemma Add_well_kept now userID url (m : MockSourceRepository) :
  well_kept m -> well_kept (fst (Add now userID url m)).
Proof.
  intros Hk. unfold SourceStore.Add.
  destruct (Source_Validate _ _); [exact Hk|].
  destruct (MaxSourcesPerUser <=? _); [exact Hk|].
  apply Create_well_kept. exact Hk.
Qed.

Lemma ImportSeed_loop_well_kept now userID seedSources :
  forall imported (m : MockSourceRepository),
    well_kept m ->
    well_kept (fst (ImportSeed_loop now userID seedSources imported m)).
Proof.
  induction seedSources as [|seed rest IH]; intros imported m Hk; cbn;
    [exact Hk|].
  destruct (ExistsByURL userID (SeedURL seed) m); [apply IH; exact Hk|].
  match goal with
  | |- context [Create now ?src m] =>
      pose proof (Create_well_kept now src m Hk) as Hc;
      destruct (Create now src m) as [m' [err|]]
  end; apply IH; exact Hc.
Qed.

Lemma step_well_kept (m : MockSourceRepository) (e : event) :
  well_kept m -> well_kept (step m e).
Proof.
  intros Hk. destruct e; cbn.
  - apply Add_well_kept. exact Hk.
  - apply Delete_well_kept. exact Hk.
  - apply UpdateTrustLevel_well_kept. exact Hk.
  - apply ImportSeed_loop_well_kept. exact Hk.
Qed.

Lemma run_well_kept (es : list event) : well_kept (run es).
Proof.
  unfold SourceStore.run.
  assert (H : forall m, well_kept m -> well_kept (fold_left step es m)).
  { induction es as [|e es IH]; intros m Hk; cbn; [exact Hk|].
    apply IH, step_well_kept, Hk. }
  apply H. split; cbn.
  - intros k s Hs. rewrite lookup_empty in Hs. discriminate.
  - intros k1 k2 s1 s2 Hs. rewrite lookup_empty in Hs. discriminate.
Qed.

Lemma filter_perm {A} (p : A -> bool) (l l' : list A) :
  Permutation l l' -> Permutation (List.filter p l) (List.filter p l').
Proof.
  induction 1 as [|x l l' _ IH|x y l|l l' l'' _ IH1 _ IH2]; cbn.
  - constructor.
  - destruct (p x); [constructor|]; exact IH.
  - destruct (p x), (p y); try reflexivity. apply perm_swap.
  - etransitivity; eassumption.
Qed.

(** The sources of a user, read off the map itself. *)
Lemma ListByUser_entries (userID : Z) (m : MockSourceRepository) :
  Permutation (ListByUser userID m)
    (List.map snd (List.filter (of_user userID) (map_to_list (sources m)))).
Proof.
  unfold SourceStore.ListByUser. apply Permutation_map.
  apply (filter_perm (of_user userID)), visit_spec.
Qed.

Lemma entries_insert_fresh (g : gmap Z Source) (i : Z) (x : Source) (u : Z) :
  g !! i = None ->
  Permutation (List.filter (of_user u) (map_to_list (<[i := x]> g)))
    ((if SourceUserID x =? u then [(i, x)] else [])
     ++ List.filter (of_user u) (map_to_list g)).
Proof.
  intros Hi.
  rewrite (filter_perm (of_user u) _ _ (map_to_list_insert g i x Hi)).
  cbn [List.filter]. change (of_user u (i, x)) with (SourceUserID x =? u).
  destruct (SourceUserID x =? u); reflexivity.
Qed.

Lemma entries_delete (g : gmap Z Source) (i : Z) (x : Source) (u : Z) :
  g !! i = Some x ->
  Permutation
    ((if SourceUserID x =? u then [(i, x)] else [])
     ++ List.filter (of_user u) (map_to_list (delete i g)))
    (List.filter (of_user u) (map_to_list g)).
Proof.
  intros Hi.
  rewrite <- (filter_perm (of_user u) _ _ (map_to_list_delete g i x Hi)).
  cbn [List.filter]. change (of_user u (i, x)) with (SourceUserID x =? u).
  destruct (SourceUserID x =? u); reflexivity.
Qed.

Lemma Create_lists (now : Z) (source : Source) (m : MockSourceRepository)
    (u : Z) :
  well_kept m ->
  Permutation (ListByUser u (fst (Create now source m)))
    ((match snd (Create now source m) with
      | Some _ => []
      | None =>
          if SourceUserID source =? u
          then [with_ID source (nextID m) now] else []
      end)
     ++ ListByUser u m).
Proof.
  intros Hk. destruct (Create_spec now source m Hk) as [[_ ->]|[_ ->]];
    cbn [fst snd]; [reflexivity|].
  rewrite !ListByUser_entries. cbn [sources].
  rewrite (entries_insert_fresh _ _ _ u (well_kept_fresh m Hk)).
  rewrite List.map_app. cbn. destruct (SourceUserID source =? u); reflexivity.
Qed.

Lemma Delete_lists (userID sourceID : Z) (m : MockSourceRepository) (u : Z) :
  Permutation
    ((match snd (Delete userID sourceID m), sources m !! sourceID with
      | None, Some s => if userID =? u then [s] else []
      | _, _ => []
      end) ++ ListByUser u (fst (Delete userID sourceID m)))
    (ListByUser u m).
Proof.
  unfold Delete. destruct (sources m !! sourceID) as [s|] eqn:E;
    [|reflexivity].
  destruct (SourceUserID s =? userID) eqn:Eu; cbn [negb fst snd];
    [|reflexivity].
  apply Z.eqb_eq in Eu. rewrite !ListByUser_entries. cbn [sources].
  rewrite <- (entries_delete _ _ _ u E), List.map_app, Eu.
  destruct (userID =? u); reflexivity.
Qed.

Lemma UpdateTrustLevel_lists (userID sourceID : Z) (level : TrustLevel)
    (m : MockSourceRepository) (u : Z) :
  userID <> u ->
  Permutation (ListByUser u (fst (UpdateTrustLevel userID sourceID level m)))
    (ListByUser u m).
Proof.
  intros Hne. unfold UpdateTrustLevel.
  destruct (sources m !! sourceID) as [s|] eqn:E; [|reflexivity].
  destruct (SourceUserID s =? userID) eqn:Eu; cbn [negb fst]; [|reflexivity].
  apply Z.eqb_eq in Eu. rewrite !ListByUser_entries. cbn [sources].
  rewrite <- insert_delete_eq.
  rewrite (entries_insert_fresh _ _ _ u (lookup_delete_eq _ _)).
  rewrite <- (entries_delete _ _ _ u E). cbn [SourceUserID with_TrustLevel].
  rewrite Eu. apply Z.eqb_neq in Hne. rewrite Hne. reflexivity.
Qed.

Lemma UpdateTrustLevel_count (userID sourceID : Z) (level : TrustLevel)
    (m : MockSourceRepository) (u : Z) :
  CountByUser u (fst (UpdateTrustLevel userID sourceID level m))
  = CountByUser u m.
Proof.
  unfold UpdateTrustLevel.
  destruct (sources m !! sourceID) as [s|] eqn:E; [|reflexivity].
  destruct (SourceUserID s =? userID) eqn:Eu; cbn [negb fst]; [|reflexivity].
  rewrite !CountByUser_length. cbn [sources]. f_equal.
  rewrite <- insert_delete_eq.
  rewrite (Permutation_length
             (entries_insert_fresh _ _ _ u (lookup_delete_eq _ _))).
  rewrite <- (Permutation_length (entries_delete _ _ _ u E)).
  rewrite !length_app. cbn [SourceUserID with_TrustLevel].
  destruct (SourceUserID s =? u); reflexivity.
Qed.

Lemma ImportSeed_loop_lists now userID seedSources (u : Z) :
  userID <> u ->
  forall imported (m : MockSourceRepository),
    well_kept m ->
    Permutation
      (ListByUser u (fst (ImportSeed_loop now userID seedSources imported m)))
      (ListByUser u m).
Proof.
  intros Hne. induction seedSources as [|seed rest IH]; intros imported m Hk;
    cbn; [reflexivity|].
  destruct (ExistsByURL userID (SeedURL seed) m); [apply IH; exact Hk|].
  match goal with
  | |- context [Create now ?src m] =>
      pose proof (Create_well_kept now src m Hk) as Hc;
      pose proof (Create_lists now src m u Hk) as Hl;
      destruct (Create now src m) as [m' [err|]]
  end; cbn [fst snd SourceUserID] in Hl, Hc.
  - rewrite IH by exact Hc. exact Hl.
  - rewrite IH by exact Hc. apply Z.eqb_neq in Hne. rewrite Hne in Hl. exact Hl.
Qed.

(** X21.  Through every sequence of calls of the service on a repository that
    starts empty, each source is filed under its own ID, the IDs given
    out lie below [nextID], so none is given twice, and no user has two
    sources with the same URL: what [ListByUser] returns holds no URL
    twice, and [CountByUser] is its length. *)
Theorem service_keeps_repository (es : list event) (userID : Z) :
  let m := run es in
  (forall k s, sources m !! k = Some s -> ID s = k /\ k < nextID m) /\
  List.NoDup (List.map SourceURL (ListByUser userID m)) /\
  List.NoDup (List.map ID (ListByUser userID m)) /\
  CountByUser userID m = Z.of_nat (length (ListByUser userID m)).
Proof.
  intros m. destruct (run_well_kept es) as [Hid Hurl]. fold m in Hid, Hurl.
  split; [exact Hid|].
  assert (Hin : forall kv, In kv (List.filter (of_user userID)
                                    (map_to_list (sources m))) ->
                sources m !! fst kv = Some (snd kv) /\
                SourceUserID (snd kv) = userID).
  { intros [k s] H. apply List.filter_In in H. destruct H as [H Hu].
    apply list_elem_of_In, elem_of_map_to_list in H.
    split; [exact H|]. apply Z.eqb_eq. exact Hu. }
  assert (Hnd : List.NoDup (List.filter (of_user userID)
                              (map_to_list (sources m)))).
  { apply List.NoDup_filter. apply NoDup_ListNoDup, NoDup_map_to_list. }
  split; [|split; [|apply CountByUser_ListByUser]].
  - eapply Permutation_NoDup.
    { apply Permutation_map, Permutation_sym, ListByUser_entries. }
    rewrite List.map_map. apply NoDup_ListNoDup, NoDup_fmap_2_strong;
      [|apply NoDup_ListNoDup; exact Hnd].
    intros [k1 s1] [k2 s2] H1 H2 E. cbn in E.
    apply list_elem_of_In, Hin in H1. apply list_elem_of_In, Hin in H2.
    cbn in H1, H2. destruct H1 as [H1 U1]. destruct H2 as [H2 U2].
    assert (k1 = k2) by (apply (Hurl _ _ _ _ H1 H2); congruence).
    subst k2. congruence.
  - eapply Permutation_NoDup.
    { apply Permutation_map, Permutation_sym, ListByUser_entries. }
    rewrite List.map_map. apply NoDup_ListNoDup, NoDup_fmap_2_strong;
      [|apply NoDup_ListNoDup; exact Hnd].
    intros [k1 s1] [k2 s2] H1 H2 E. cbn in E.
    apply list_elem_of_In, Hin in H1. apply list_elem_of_In, Hin in H2.
    cbn in H1, H2. destruct H1 as [H1 _]. destruct H2 as [H2 _].
    destruct (Hid _ _ H1) as [I1 _]. destruct (Hid _ _ H2) as [I2 _].
    assert (k1 = k2) by congruence. subst k2. congruence.
Qed.

Lemma Add_count now userID url (m : MockSourceRepository) (u : Z) :
  well_kept m ->
  CountByUser u (fst (Add now userID url m))
  = CountByUser u m
    + (match snd (Add now userID url m) with
       | None => if userID =? u then 1 else 0
       | Some _ => 0
       end) /\
  (snd (Add now userID url m) = None ->
   CountByUser userID m < MaxSourcesPerUser).
Proof.
  intros Hk. unfold SourceStore.Add.
  destruct (Source_Validate _ _); cbn [fst snd]; [split; [lia|discriminate]|].
  destruct (MaxSourcesPerUser <=? CountByUser userID m) eqn:El; cbn [fst snd];
    [split; [lia|discriminate]|].
  apply Z.leb_gt in El. split; [|intros _; exact El].
  match goal with
  | |- context [Create now ?src m] =>
      pose proof (Create_lists now src m u Hk) as Hl;
      destruct (Create now src m) as [m' [err|]]
  end; cbn [fst snd SourceUserID] in Hl |- *;
    rewrite !CountByUser_ListByUser, (Permutation_length Hl), length_app.
  - cbn. lia.
  - destruct (userID =? u); cbn; lia.
Qed.

Lemma Delete_count (userID sourceID : Z) (m : MockSourceRepository) (u : Z) :
  CountByUser u (fst (Delete userID sourceID m)) <= CountByUser u m.
Proof.
  rewrite !CountByUser_ListByUser.
  rewrite <- (Permutation_length (Delete_lists userID sourceID m u)).
  rewrite length_app. lia.
Qed.

(** X23.  What a user lists is changed by that user's calls only: a call made
    in the name of another user leaves the list as it was, up to the
    order in which the map is read. *)
Theorem calls_of_others_change_nothing (es : list event) (e : event) (u : Z) :
  user_of e <> u ->
  Permutation (ListByUser u (step (run es) e)) (ListByUser u (run es)).
Proof.
  intros Hne. pose proof (run_well_kept es) as Hk.
  destruct e as [n a l|a i|a i t|n a l]; cbn in Hne |- *.
  - unfold SourceStore.Add.
    destruct (Source_Validate _ _); [reflexivity|].
    destruct (MaxSourcesPerUser <=? _); [reflexivity|].
    match goal with
    | |- context [Create n ?src (run es)] =>
        pose proof (Create_lists n src (run es) u Hk) as Hl;
        destruct (Create n src (run es)) as [m' [err|]]
    end; cbn [fst snd SourceUserID] in Hl |- *; [exact Hl|].
    apply Z.eqb_neq in Hne. rewrite Hne in Hl. exact Hl.
  - pose proof (Delete_lists a i (run es) u) as Hl.
    apply Z.eqb_neq in Hne. rewrite Hne in Hl.
    unfold Remove. rewrite <- Hl.
    destruct (snd (Delete a i (run es))); [reflexivity|].
    destruct (sources (run es) !! i); reflexivity.
  - apply UpdateTrustLevel_lists. exact Hne.
  - apply ImportSeed_loop_lists; assumption.
Qed.

Lemma ExistsByURL_spec (userID : Z) (url : string) (m : MockSourceRepository) :
  ExistsByURL userID url m = true
  <-> exists k s, sources m !! k = Some s /\
        SourceUserID s = userID /\ SourceURL s = url.
Proof.
  unfold SourceStore.ExistsByURL.
  rewrite (existsb_visit (same_user_url userID url)).
  split; intros (k & s & Hs & Hp); exists k, s; (split; [exact Hs|]).
  - unfold same_user_url in Hp. apply andb_true_iff in Hp.
    destruct Hp as [A B]. apply Z.eqb_eq in A. apply String.eqb_eq in B. auto.
  - destruct Hp as [<- <-]. unfold same_user_url.
    rewrite Z.eqb_refl, String.eqb_refl. reflexivity.
Qed.

Lemma Create_keeps (now : Z) (source : Source) (m : MockSourceRepository)
    (userID : Z) (url : string) :
  well_kept m ->
  ExistsByURL userID url m = true ->
  ExistsByURL userID url (fst (Create now source m)) = true.
Proof.
  intros Hk He. destruct (Create_spec now source m Hk) as [[_ ->]|[_ ->]];
    [exact He|]. cbn [fst].
  apply ExistsByURL_spec in He. destruct He as (k & s & Hs & Hu).
  apply ExistsByURL_spec. exists k, s. split; [|exact Hu]. cbn [sources].
  rewrite lookup_insert_ne; [exact Hs|].
  intros <-. rewrite (well_kept_fresh m Hk) in Hs. discriminate.
Qed.

Lemma Create_exists (now : Z) (source : Source) (m : MockSourceRepository) :
  well_kept m ->
  ExistsByURL (SourceUserID source) (SourceURL source)
    (fst (Create now source m)) = true.
Proof.
  intros Hk. apply ExistsByURL_spec.
  destruct (Create_spec now source m Hk) as [[He ->]|[_ ->]]; cbn [fst].
  - exact He.
  - exists (nextID m), (with_ID source (nextID m) now). cbn [sources].
    rewrite lookup_insert_eq. auto.
Qed.

Lemma ImportSeed_loop_keeps now userID seedSources (url : string) :
  forall imported (m : MockSourceRepository),
    well_kept m ->
    ExistsByURL userID url m = true ->
    ExistsByURL userID url
      (fst (ImportSeed_loop now userID seedSources imported m)) = true.
Proof.
  induction seedSources as [|seed rest IH]; intros imported m Hk He; cbn;
    [exact He|].
  destruct (ExistsByURL userID (SeedURL seed) m); [apply IH; assumption|].
  match goal with
  | |- context [Create now ?src m] =>
      pose proof (Create_well_kept now src m Hk) as Hc;
      pose proof (Create_keeps now src m userID url Hk He) as Hx;
      destruct (Create now src m) as [m' [err|]]
  end; apply IH; assumption.
Qed.

Lemma ImportSeed_loop_covers now userID seedSources :
  forall imported (m : MockSourceRepository),
    well_kept m ->
    forall seed, In seed seedSources ->
      ExistsByURL userID (SeedURL seed)
        (fst (ImportSeed_loop now userID seedSources imported m)) = true.
Proof.
  induction seedSources as [|seed0 rest IH]; intros imported m Hk seed Hin;
    [destruct Hin|].
  cbn. destruct Hin as [->|Hin].
  - destruct (ExistsByURL userID (SeedURL seed) m) eqn:E.
    + apply ImportSeed_loop_keeps; assumption.
    + match goal with
      | |- context [Create now ?src m] =>
          pose proof (Create_well_kept now src m Hk) as Hc;
          pose proof (Create_exists now src m Hk) as Hx;
          destruct (Create now src m) as [m' [err|]]
      end; cbn [fst SourceUserID SourceURL] in Hx, Hc;
        apply ImportSeed_loop_keeps; assumption.
  - destruct (ExistsByURL userID (SeedURL seed0) m); [apply IH; assumption|].
    match goal with
    | |- context [Create now ?src m] =>
        pose proof (Create_well_kept now src m Hk) as Hc;
        destruct (Create now src m) as [m' [err|]]
    end; apply IH; assumption.
Qed.

Lemma ImportSeed_loop_nothing now userID seedSources :
  forall imported (m : MockSourceRepository),
    (forall seed, In seed seedSources ->
       ExistsByURL userID (SeedURL seed) m = true) ->
    ImportSeed_loop now userID seedSources imported m = (m, imported).
Proof.
  induction seedSources as [|seed rest IH]; intros imported m Hall; cbn;
    [reflexivity|].
  rewrite (Hall seed) by (left; reflexivity).
  apply IH. intros s Hs. apply Hall. right. exact Hs.
Qed.

(** X24.  [ImportSeed] can be repeated: after one import for a user, on a
    repository the service has made, every seed source is there for this
    user, and a second import, whenever it comes, imports nothing and
    leaves the repository as it is. *)
Theorem ImportSeed_twice (es : list event) (now now' userID : Z)
    (seedSources : list SeedSource) :
  let once := fst (ImportSeed now userID seedSources (run es)) in
  (forall seed, In seed seedSources ->
     ExistsByURL userID (SeedURL seed) once = true) /\
  ImportSeed now' userID seedSources once = (once, 0) /\
  0 <= snd (ImportSeed now userID seedSources (run es))
    <= Z.of_nat (length seedSources).
Proof.
  intros once.
  assert (Hcov : forall seed, In seed seedSources ->
            ExistsByURL userID (SeedURL seed) once = true).
  { apply ImportSeed_loop_covers, run_well_kept. }
  split; [exact Hcov|]. split.
  - apply ImportSeed_loop_nothing. exact Hcov.
  - unfold SourceStore.ImportSeed. clear once Hcov.
    generalize (run es). intros m.
    assert (H : forall imported m0,
              imported <= snd (ImportSeed_loop now userID seedSources imported m0)
              <= imported + Z.of_nat (length seedSources)).
    { induction seedSources as [|seed rest IH]; intros imported m0; cbn;
        [lia|].
      destruct (ExistsByURL userID (SeedURL seed) m0).
      - specialize (IH imported m0). lia.
      - destruct (Create now _ m0) as [m' [err|]].
        + specialize (IH imported m'). lia.
        + specialize (IH (imported + 1) m'). lia. }
    specialize (H 0 m). lia.
Qed.

End SourceStoreFacts.

Lemma map_to_list_Visits : SourceStore.Visits map_to_list.
Proof. intros m. reflexivity. Qed.

Lemma service_keeps_repository_witness :
  List.NoDup
    (List.map QueryService.SourceURL
       (SourceStore.ListByUser map_to_list 7
          (SourceStore.run SourceStore.url_Parse_https map_to_list
             SourceStore.events_example))).
Proof.
  destruct (service_keeps_repository SourceStore.url_Parse_https map_to_list
              map_to_list_Visits SourceStore.events_example 7)
    as (_ & H & _).
  exact H.
Defined.

Lemma calls_of_others_change_nothing_witness :
  Permutation
    (SourceStore.ListByUser map_to_list 7
       (SourceStore.step SourceStore.url_Parse_https map_to_list
          (SourceStore.run SourceStore.url_Parse_https map_to_list
             SourceStore.events_example)
          (SourceStore.EvRemove 8 1)))
    (SourceStore.ListByUser map_to_list 7
       (SourceStore.run SourceStore.url_Parse_https map_to_list
          SourceStore.events_example)).
Proof.
  apply (calls_of_others_change_nothing SourceStore.url_Parse_https map_to_list
           map_to_list_Visits SourceStore.events_example
           (SourceStore.EvRemove 8 1) 7).
  cbn. lia.
Defined.

Lemma ImportSeed_twice_witness :
  SourceStore.ImportSeed map_to_list 31 7 SourceStore.seeds_example
    (fst (SourceStore.ImportSeed map_to_list 30 7 SourceStore.seeds_example
            (SourceStore.run SourceStore.url_Parse_https map_to_list
               SourceStore.events_example)))
  = (fst (SourceStore.ImportSeed map_to_list 30 7 SourceStore.seeds_example
            (SourceStore.run SourceStore.url_Parse_https map_to_list
               SourceStore.events_example)), 0).
Proof.
  destruct (ImportSeed_twice SourceStore.url_Parse_https map_to_list
              map_to_list_Visits SourceStore.events_example 30 31 7
              SourceStore.seeds_example) as (_ & H & _).
  exact H.
Defined.


(** ** The context for a question *)

Section WorldModelFacts.
Import GoStrings WorldModel.

Variable ToLower : string -> string.
Variable Fields : string -> list string.
Variable SearchFacts : Z -> string -> option (list Fact).
Variable visit : gmap string Fact -> list (string * Fact).

Lemma append_assoc (a b c : string) : (a +:+ b) +:+ c = a +:+ (b +:+ c).
Proof.
  induction a as [|x a IH]; [reflexivity|].
  rewrite !append_cons, IH. reflexivity.
Qed.

Lemma len_append (a b : string) : len (a +:+ b) = len a + len b.
Proof. unfold len. rewrite length_append. lia. Qed.

Lemma write_facts_spec (facts : list Fact) : forall builder,
  exists n,
    (n <= length facts)%nat /\
    write_facts builder facts = builder +:+ lines (firstn n facts) /\
    (len builder <= MaxContextSize ->
     len (write_facts builder facts) <= MaxContextSize) /\
    (forall fact, facts !! n = Some fact ->
       MaxContextSize
       < len (write_facts builder facts) + len (factLine fact)).
Proof.
  induction facts as [|fact rest IH]; intros builder.
  - exists 0%nat. cbn. rewrite append_empty_r.
    repeat split; auto. intros f Hf. discriminate.
  - cbn [write_facts].
    destruct (MaxContextSize <? len builder + len (factLine fact)) eqn:E.
    + exists 0%nat. cbn. rewrite append_empty_r.
      split; [lia|]. split; [reflexivity|]. split; [auto|].
      intros f Hf. injection Hf as <-. apply Z.ltb_lt in E. exact E.
    + apply Z.ltb_ge in E.
      destruct (IH (builder +:+ factLine fact)) as (n & Hn & Hw & Hb & Hx).
      exists (S n). cbn [length firstn lines fold_right].
      split; [lia|]. split.
      { rewrite Hw, append_assoc. reflexivity. }
      split.
      { intros _. apply Hb. rewrite len_append. exact E. }
      intros f Hf. apply Hx. exact Hf.
Qed.

(** X25.  The context [GetRelevantContext] returns never has more than
    [MaxContextSize], 2000, bytes, in whatever order the facts come.  It
    is empty, or it is the heading followed by the lines of the first
    facts of the list, as many as fit: the loop stops at the first fact
    whose line would pass the limit and writes none after it. *)
Theorem GetRelevantContext_bounded (userID : Z) (question : string) :
  let context :=
    GetRelevantContext ToLower Fields SearchFacts visit userID question in
  let facts :=
    List.map snd
      (visit (collect_facts SearchFacts userID
                (extractKeywords ToLower Fields question))) in
  len context <= MaxContextSize /\
  (context = EmptyString \/
   exists n,
     (n <= length facts)%nat /\
     context = header +:+ lines (firstn n facts) /\
     (forall fact, facts !! n = Some fact ->
        MaxContextSize < len context + len (factLine fact))).
Proof.
  intros context facts. unfold context, GetRelevantContext.
  destruct (String.eqb question ""); [split; [discriminate | left; reflexivity]|].
  destruct (Z.of_nat (length _) =? 0); [split; [discriminate | left; reflexivity]|].
  destruct (Z.of_nat (size _) =? 0); [split; [discriminate | left; reflexivity]|].
  fold facts.
  destruct (write_facts_spec facts header) as (n & Hn & Hw & Hb & Hx).
  split; [apply Hb; discriminate|].
  right. exists n. split; [exact Hn|]. split; [exact Hw|]. exact Hx.
Qed.

Lemma collect_facts_fold (userID : Z) (keywords : list string) :
  forall factSet : gmap string Fact,
    let step := fun (factSet : gmap string Fact) keyword =>
      if len keyword <? 3 then factSet
      else
        match SearchFacts userID keyword with
        | None => factSet
        | Some facts =>
            fold_left (fun factSet f => <[FactID f := f]> factSet) facts factSet
        end in
    forall id fact,
      fold_left step keywords factSet !! id = Some fact ->
      factSet !! id = Some fact \/
      (FactID fact = id /\
       exists keyword facts,
         In keyword keywords /\ 3 <= len keyword /\
         SearchFacts userID keyword = Some facts /\ In fact facts).
Proof.
  assert (Hins : forall (facts : list Fact) (fs : gmap string Fact) id fact,
            fold_left (fun fs f => <[FactID f := f]> fs) facts fs !! id = Some fact ->
            fs !! id = Some fact \/ (FactID fact = id /\ In fact facts)).
  { induction facts as [|f facts IH]; intros fs id fact H; cbn in H; [auto|].
    destruct (IH _ _ _ H) as [H0|[A B]]; [|right; split; [exact A | right; exact B]].
    destruct (decide (FactID f = id)) as [E|E].
    - rewrite <- E, lookup_insert_eq in H0. injection H0 as <-.
      right. split; [exact E | left; reflexivity].
    - rewrite lookup_insert_ne in H0 by exact E. left. exact H0. }
  induction keywords as [|keyword rest IH]; intros factSet step id fact H;
    cbn in H; [auto|].
  destruct (IH _ _ _ H) as [H0|(A & kw & facts & B & C & D & E)].
  - unfold step in H0. destruct (len keyword <? 3) eqn:El; [auto|].
    apply Z.ltb_ge in El.
    destruct (SearchFacts userID keyword) as [facts|] eqn:Es; [|auto].
    destruct (Hins _ _ _ _ H0) as [H1|[A B]]; [auto|].
    right. split; [exact A|]. exists keyword, facts.
    split; [left; reflexivity|]. auto.
  - right. split; [exact A|]. exists kw, facts.
    split; [right; exact B|]. auto.
Qed.

(** X26.  Only what the repository has found goes into the context: every
    fact gathered for a question was returned by [SearchFacts] for a
    keyword of the question that has at least three bytes, and is kept
    under its own ID, so a fact found for several keywords is there
    once. *)
Theorem collect_facts_found (userID : Z) (keywords : list string)
    (id : string) (fact : Fact) :
  collect_facts SearchFacts userID keywords !! id = Some fact ->
  FactID fact = id /\
  exists keyword facts,
    In keyword keywords /\ 3 <= len keyword /\
    SearchFacts userID keyword = Some facts /\ In fact facts.
Proof.
  intros H. unfold collect_facts in H.
  destruct (collect_facts_fold userID keywords ∅ id fact H) as [H0|H0];
    [|exact H0].
  rewrite lookup_empty in H0. discriminate.
Qed.

End WorldModelFacts.

Lemma collect_facts_found_witness :
  WorldModel.collect_facts WorldModel.facts_on_rates 7 ["bank"; "rates"] !! "f2"
  = Some (WorldModel.fact_example "f2" "Rates rose in 2024" "") /\
  (WorldModel.FactID (WorldModel.fact_example "f2" "Rates rose in 2024" "") = "f2" /\
   exists keyword facts,
     In keyword ["bank"; "rates"] /\ 3 <= GoStrings.len keyword /\
     WorldModel.facts_on_rates 7 keyword = Some facts /\
     In (WorldModel.fact_example "f2" "Rates rose in 2024" "") facts).
Proof.
  assert (H : WorldModel.collect_facts WorldModel.facts_on_rates 7
                ["bank"; "rates"] !! "f2"
              = Some (WorldModel.fact_example "f2" "Rates rose in 2024" ""))
    by (vm_compute; reflexivity).
  split; [exact H|].
  exact (collect_facts_found WorldModel.facts_on_rates 7 ["bank"; "rates"]
           "f2" (WorldModel.fact_example "f2" "Rates rose in 2024" "") H).
Defined.


(** ** Answering a query message *)

Section HandlerFacts.
Import GoStrings Service Ratelimit Telegram Handler.

Variable World : Type.
Variable EscapeString : string -> string.
Variable GetOrCreate : Z -> string -> World -> option User * World.
Variable Process :
  Domain.QueryRequest -> World -> (error + QueryResponse) * World.

Lemma truncateURL_50 (url : string) : truncateURL url 50 <> None.
Proof.
  unfold truncateURL. destruct (len url <=? 50) eqn:E; [discriminate|].
  apply Z.leb_gt in E.
  assert (E' : ((50 - 3 <? 0) || (len url <? 50 - 3)) = false).
  { apply orb_false_iff. split; apply Z.ltb_ge; lia. }
  rewrite E'. discriminate.
Qed.

Lemma format_sources_some (sources : list SourceRef) : forall sb,
  exists rest,
    format_sources EscapeString sb sources = Some (sb +:+ rest).
Proof.
  induction sources as [|src sources IH]; intros sb; cbn [format_sources].
  - exists EmptyString. rewrite append_empty_r. reflexivity.
  - unfold format_source.
    destruct (truncateURL (URL src) 50) as [short|] eqn:E;
      [|exfalso; exact (truncateURL_50 _ E)].
    destruct (IH (sb +:+ (Marker src +:+ " " +:+ getTrustIcon (Trust src) +:+ " "
            +:+ EscapeString (Title src) +:+ nl
            +:+ "   <a href=" +:+ dquote +:+ EscapeString (URL src) +:+ dquote
            +:+ ">" +:+ EscapeString short +:+ "</a> [" +:+ Trust src +:+ "]"
            +:+ nl))) as (rest & Hrest).
    rewrite Hrest. eexists. rewrite append_assoc. reflexivity.
Qed.

Lemma FormatQueryResponse_some (resp : QueryResponse) :
  exists rest,
    FormatQueryResponse EscapeString resp
    = Some (EscapeString (Text resp) +:+ rest) /\
    (Sources resp = [] -> rest = EmptyString).
Proof.
  unfold FormatQueryResponse.
  destruct (Sources resp) as [|src sources] eqn:E.
  - exists EmptyString. rewrite append_empty_r. cbn. auto.
  - assert (E0 : (0 <? Z.of_nat (length (src :: sources))) = true)
      by (apply Z.ltb_lt; cbn [length]; lia).
    rewrite E0.
    destruct (format_sources_some (src :: sources)
                ((EscapeString (Text resp) +:+ nl +:+ nl
                  +:+ "━━━━━━━━━━━━━━━━━━━━━" +:+ nl)
                 +:+ "<b>Источники:</b>" +:+ nl)) as (rest & Hrest).
    rewrite Hrest. eexists. split; [|discriminate].
    rewrite !append_assoc. reflexivity.
Qed.

Lemma SplitMessage_returns (text : string) (maxLen : Z) :
  1 <= maxLen ->
  exists ms,
    SplitMessage text maxLen = Returns ms /\
    concat_messages ms = text /\
    ms <> [] /\
    (text <> EmptyString -> List.Forall (fun m => m <> EmptyString) ms).
Proof.
  intros Hm. unfold SplitMessage.
  destruct (len text <=? maxLen) eqn:E.
  - exists [text]. split; [reflexivity|].
    split; [apply append_empty_r|]. split; [congruence|].
    intros H; constructor; auto.
  - apply Z.leb_gt in E.
    destruct (SplitMessage_loop_spec maxLen (String.length text) Hm text [])
      as (ms & H1 & H2 & H3 & H4 & _); [lia|].
    exists ms. split; [exact H1|]. split; [exact H2|].
    split; [|intros _; exact H4].
    apply H3. intros ->. unfold len in E. simpl in E. lia.
Qed.

Lemma effects_send_all (chatID : Z) (messages : list string) : forall st : Handler.state World,
  let st' := fold_left (fun st m => send World chatID m st) messages st in
  rateLimiter World st' = rateLimiter World st /\
  world World st' = world World st /\
  panicked World st' = panicked World st /\
  effects World st' = effects World st ++ List.map (Sent chatID) messages.
Proof.
  induction messages as [|m messages IH]; intros st; cbn.
  - rewrite app_nil_r. auto.
  - destruct (IH (send World chatID m st)) as (A & B & C & D).
    cbn in *. rewrite A, B, C, D, <- app_assoc. auto.
Qed.

(** What one call of the handler does, case by case. *)
Lemma processQuery_cases (now : Z) (msg : Message) (question : string)
    (strategy : Domain.Strategy) (st : Handler.state World) :
  let st' := processQueryWithStrategy World EscapeString GetOrCreate
    Process now msg question strategy st in
  let allowed := snd (Allow now (FromID msg) (rateLimiter World st)) in
  let found := GetOrCreate (FromID msg) (FromUserName msg) (world World st) in
  rateLimiter World st' = fst (Allow now (FromID msg) (rateLimiter World st)) /\
  panicked World st' = panicked World st /\
  exists pre messages,
    effects World st'
    = effects World st ++ pre ++ List.map (Sent (ChatID msg)) messages /\
    messages <> [] /\
    ((allowed = false /\ pre = [] /\ messages = [too_many] /\
      world World st' = world World st) \/
     (allowed = true /\ fst found = None /\ pre = [] /\
      messages = [try_later] /\ world World st' = snd found) \/
     (allowed = true /\
      exists user,
        fst found = Some user /\
        pre = [SentTyping (ChatID msg);
               Processed now (FromID msg) 
          {| Domain.UserID := UserID user; Domain.Text := question;
             Domain.OnlyReliable := false; Domain.Strategy_ := strategy |}] /\
        world World st'
        = snd (Process 
          {| Domain.UserID := UserID user; Domain.Text := question;
             Domain.OnlyReliable := false; Domain.Strategy_ := strategy |} (snd found)) /\
        match fst (Process 
          {| Domain.UserID := UserID user; Domain.Text := question;
             Domain.OnlyReliable := false; Domain.Strategy_ := strategy |} (snd found)) with
        | inl err => messages = [mapErrorToMessage err]
        | inr response =>
            exists formatted,
              FormatQueryResponse EscapeString response = Some formatted /\
              concat_messages messages
              = (if negb (String.eqb (formatStrategyIndicator strategy) "")
               then formatStrategyIndicator strategy +:+ nl +:+ nl +:+ formatted
               else formatted) /\
              ((if negb (String.eqb (formatStrategyIndicator strategy) "")
               then formatStrategyIndicator strategy +:+ nl +:+ nl +:+ formatted
               else formatted) <> EmptyString ->
               List.Forall (fun m => m <> EmptyString) messages)
        end)).
Proof.
  intros st' allowed found. subst st' allowed found.
  unfold processQueryWithStrategy.
  destruct (Allow now (FromID msg) (rateLimiter World st)) as [l ok] eqn:EA.
  cbn [fst snd]. destruct ok; cbn [negb].
  2:{ cbn. split; [reflexivity|]. split; [reflexivity|].
      exists [], [too_many]. split; [reflexivity|]. split; [discriminate|].
      left. repeat split. }
  cbn [world rateLimiter effects panicked].
  destruct (GetOrCreate (FromID msg) (FromUserName msg) (world World st))
    as [[user|] w1] eqn:EG; cbn [fst snd].
  2:{ cbn. split; [reflexivity|]. split; [reflexivity|].
      exists [], [try_later]. split; [reflexivity|]. split; [discriminate|].
      right. left. repeat split. }
  cbn [world rateLimiter effects panicked].
  destruct (Process 
          {| Domain.UserID := UserID user; Domain.Text := question;
             Domain.OnlyReliable := false; Domain.Strategy_ := strategy |} w1) as [[err|response] w2]
    eqn:EP; cbn [fst snd world rateLimiter effects panicked].
  { cbn. split; [reflexivity|]. split; [reflexivity|].
    exists [SentTyping (ChatID msg);
            Processed now (FromID msg) 
          {| Domain.UserID := UserID user; Domain.Text := question;
             Domain.OnlyReliable := false; Domain.Strategy_ := strategy |}],
           [mapErrorToMessage err].
    split; [rewrite <- app_assoc; reflexivity|]. split; [discriminate|].
    right. right. split; [reflexivity|]. exists user.
    rewrite EP. repeat split. }
  destruct (FormatQueryResponse_some response) as (rest & Hf & _).
  rewrite Hf.
  destruct (SplitMessage_returns
              (if negb (String.eqb (formatStrategyIndicator strategy) "")
               then formatStrategyIndicator strategy +:+ nl +:+ nl +:+ (EscapeString (Text response) +:+ rest)
               else (EscapeString (Text response) +:+ rest))
              4096 ltac:(lia)) as (ms & Hs & Hcat & Hne & Hall).
  rewrite Hs.
  match goal with
  | |- context [fold_left ?f ms ?s0] =>
      destruct (effects_send_all (ChatID msg) ms s0) as (A & B & C & D)
  end.
  cbn [world rateLimiter effects panicked] in A, B, C, D.
  rewrite A, B, C, D.
  split; [reflexivity|]. split; [reflexivity|].
  exists [SentTyping (ChatID msg);
          Processed now (FromID msg) 
          {| Domain.UserID := UserID user; Domain.Text := question;
             Domain.OnlyReliable := false; Domain.Strategy_ := strategy |}], ms.
  split; [rewrite <- !app_assoc; reflexivity|]. split; [exact Hne|].
  right. right. split; [reflexivity|]. exists user.
  rewrite EP. cbn [fst snd].
  split; [reflexivity|]. split; [reflexivity|]. split; [reflexivity|].
  exists (EscapeString (Text response) +:+ rest). auto.
Qed.

Lemma processed_at_app (u : Z) (es1 es2 : list effect) :
  processed_at u (es1 ++ es2) = processed_at u es1 ++ processed_at u es2.
Proof. unfold processed_at. apply omap_app. Qed.

Lemma processed_at_Sent (u chatID : Z) (messages : list string) :
  processed_at u (List.map (Sent chatID) messages) = [].
Proof. induction messages as [|m ms IH]; [reflexivity | exact IH]. Qed.

(** The handler and the limiter on its own, step by step: the handler's
    limiter is the limiter's, and [Process] is called for a sender only
    at a time at which [Allow] admitted that sender. *)
Lemma handle_follows_limiter (u : Z) (i : incoming) (st : Handler.state World)
    (ls : Limiter * list answer) :
  rateLimiter World st = fst ls ->
  (forall lo hi,
     count_within lo hi (processed_at u (effects World st))
     <= count_within lo hi (admitted_at u (snd ls))) ->
  let st' := handle World EscapeString GetOrCreate Process st i in
  let ls' := Ratelimit.step ls (limiter_event i) in
  rateLimiter World st' = fst ls' /\
  panicked World st' = panicked World st /\
  (forall lo hi,
     count_within lo hi (processed_at u (effects World st'))
     <= count_within lo hi (admitted_at u (snd ls'))).
Proof.
  intros Hl Hc st' ls'. subst st' ls'.
  destruct i as [now msg question strategy|now]; cbn [handle limiter_event Ratelimit.step].
  2:{ cbn. rewrite Hl. auto. }
  destruct (processQuery_cases now msg question strategy st)
    as (A & B & pre & messages & E & _ & Hcase).
  rewrite A, Hl.
  destruct (Allow now (FromID msg) (fst ls)) as [l ok] eqn:EA. cbn [fst snd].
  split; [reflexivity|]. split; [exact B|].
  intros lo hi. rewrite E, !processed_at_app, processed_at_Sent, app_nil_r.
  rewrite admitted_at_snoc. cbn [allowed principal at_time].
  rewrite Hl, EA in Hcase. cbn [snd] in Hcase.
  assert (Hpre : pre = [] \/
                 (ok = true /\ exists req,
                    pre = [SentTyping (ChatID msg);
                           Processed now (FromID msg) req])).
  { destruct Hcase as [(_ & P & _)|[(_ & _ & P & _)|(O & user & _ & P & _)]];
      [left; exact P | left; exact P | right; eauto]. }
  destruct Hpre as [->|(-> & req & ->)].
  - change (processed_at u []) with (@nil Z). rewrite app_nil_r.
    destruct (ok && (FromID msg =? u));
      [rewrite count_within_snoc | rewrite app_nil_r];
      specialize (Hc lo hi); [|exact Hc].
    destruct ((lo <=? now) && (now <=? hi)); lia.
  - cbn [andb].
    assert (Hp : processed_at u [SentTyping (ChatID msg);
                                 Processed now (FromID msg) req]
                 = if FromID msg =? u then [now] else []).
    { unfold processed_at. cbn. destruct (FromID msg =? u); reflexivity. }
    rewrite Hp. destruct (FromID msg =? u).
    + rewrite !count_within_snoc. specialize (Hc lo hi). lia.
    + rewrite !app_nil_r. apply Hc.
Qed.

Lemma serve_follows_limiter (u : Z) (inbox : list incoming) :
  forall (st : Handler.state World) (ls : Limiter * list answer),
    rateLimiter World st = fst ls ->
    (forall lo hi,
       count_within lo hi (processed_at u (effects World st))
       <= count_within lo hi (admitted_at u (snd ls))) ->
    let st' := fold_left (handle World EscapeString GetOrCreate Process) inbox st in
    let ls' := fold_left Ratelimit.step (List.map limiter_event inbox) ls in
    rateLimiter World st' = fst ls' /\
    panicked World st' = panicked World st /\
    (forall lo hi,
       count_within lo hi (processed_at u (effects World st'))
       <= count_within lo hi (admitted_at u (snd ls'))).
Proof.
  induction inbox as [|i inbox IH]; intros st ls Hl Hc; cbn; [auto|].
  destruct (handle_follows_limiter u i st ls Hl Hc) as (A & B & C).
  destruct (IH _ _ A C) as (A' & B' & C').
  split; [exact A'|]. split; [rewrite <- B; exact B' | exact C'].
Qed.

Lemma limiter_event_time (inbox : list incoming) :
  List.map event_time (List.map limiter_event inbox)
  = List.map incoming_time inbox.
Proof.
  induction inbox as [|i inbox IH]; cbn; [reflexivity|].
  rewrite IH. destruct i; reflexivity.
Qed.

(** X27.  The rate limit holds for the whole bot.  Whatever the user service
    and the query service do, and whatever is sent, out of the messages
    of one sender the query service is called for no more than the limit
    in any stretch of time shorter than a minute; the limit is
    [RequestsPerMinute], or 10 when that is not positive.  The limiter
    of the bot is throughout the limiter fed with the senders alone, and
    no message makes the handler panic. *)
Theorem queries_rate_limited (RequestsPerMinute : Z) (w : World)
    (inbox : list incoming) (fromID lo hi : Z) :
  StronglySorted Z.le (List.map incoming_time inbox) ->
  hi - lo < Minute ->
  let st := serve World EscapeString GetOrCreate Process RequestsPerMinute w inbox in
  let cfg := {| Ratelimit.RequestsPerMinute := RequestsPerMinute |} in
  count_within lo hi (processed_at fromID (effects World st))
  <= (if RequestsPerMinute <=? 0 then 10 else RequestsPerMinute) /\
  rateLimiter World st
  = fst (Ratelimit.run (New cfg) (List.map limiter_event inbox)) /\
  panicked World st = false.
Proof.
  intros Hs Hwin st cfg. subst st. unfold serve.
  destruct (serve_follows_limiter fromID inbox
              (start World RequestsPerMinute w) (New cfg, []))
    as (A & B & C).
  { reflexivity. }
  { intros lo' hi'. cbn. lia. }
  split; [|split; [exact A | exact B]].
  rewrite <- limiter_event_time in Hs.
  destruct (run_New_bounded cfg (List.map limiter_event inbox) Hs)
    as (Hb & Hl & Hw).
  specialize (C lo hi). unfold Ratelimit.run in Hb, Hl, Hw.
  specialize (Hb fromID lo hi). rewrite Hw in Hb. specialize (Hb Hwin).
  rewrite Hl in Hb. cbn [New limit Ratelimit.RequestsPerMinute cfg] in Hb.
  lia.
Qed.

(** X28.  Every query message is answered, and only in its own chat.  The
    handler sends at least one message to the chat of the message and
    none to another chat; it does not panic.  A sender over the limit
    gets the one notice, and neither the user service nor the query
    service is called.  An admitted sender whom the user service
    cannot give gets the one apology and the query service is not
    called.  Otherwise the query service is called exactly once, after
    the typing signal, with the ID the user service gave, the question
    and the strategy. *)
Theorem query_always_answered (now : Z) (msg : Message) (question : string)
    (strategy : Domain.Strategy) (st : Handler.state World) :
  let st' := processQueryWithStrategy World EscapeString GetOrCreate
    Process now msg question strategy st in
  let found := GetOrCreate (FromID msg) (FromUserName msg) (world World st) in
  panicked World st' = panicked World st /\
  exists pre messages,
    effects World st'
    = effects World st ++ pre ++ List.map (Sent (ChatID msg)) messages /\
    messages <> [] /\
    match snd (Allow now (FromID msg) (rateLimiter World st)), fst found with
    | false, _ =>
        pre = [] /\ messages = [too_many] /\ world World st' = world World st
    | true, None =>
        pre = [] /\ messages = [try_later] /\ world World st' = snd found
    | true, Some user =>
        let req :=
          {| Domain.UserID := UserID user; Domain.Text := question;
             Domain.OnlyReliable := false; Domain.Strategy_ := strategy |} in
        pre = [SentTyping (ChatID msg); Processed now (FromID msg) req] /\
        world World st' = snd (Process req (snd found))
    end.
Proof.
  intros st' found.
  destruct (processQuery_cases now msg question strategy st)
    as (_ & B & pre & messages & E & Hne & Hcase).
  split; [exact B|]. exists pre, messages.
  split; [exact E|]. split; [exact Hne|].
  fold found in Hcase. fold st' in Hcase.
  destruct Hcase as [(O & P & M & W)|[(O & F & P & M & W)|(O & user & F & P & W & _)]];
    rewrite O; [auto | rewrite F; auto | rewrite F; auto].
Qed.

(** X29.  What the query service returns reaches the chat whole.  When the
    sender is admitted, the user is there and the query service returns a
    response, the messages sent after the typing signal, put together in
    the order sent, are the formatted response, after the line of the
    strategy when there is one; the formatted response begins with the
    escaped text of the response and is just that when the response has
    no sources.  No message sent is empty unless that whole text is.
    When the query service returns an error, the one message sent is the
    text [mapErrorToMessage] gives for it. *)
Theorem reply_delivered (now : Z) (msg : Message) (question : string)
    (strategy : Domain.Strategy) (st : Handler.state World) (user : User) (w1 w2 : World)
    (answer : error + QueryResponse) :
  snd (Allow now (FromID msg) (rateLimiter World st)) = true ->
  GetOrCreate (FromID msg) (FromUserName msg) (world World st)
  = (Some user, w1) ->
  Process {| Domain.UserID := UserID user; Domain.Text := question;
             Domain.OnlyReliable := false; Domain.Strategy_ := strategy |} w1
  = (answer, w2) ->
  let st' := processQueryWithStrategy World EscapeString GetOrCreate
    Process now msg question strategy st in
  exists messages,
    effects World st'
    = effects World st
      ++ [SentTyping (ChatID msg);
          Processed now (FromID msg)
            {| Domain.UserID := UserID user; Domain.Text := question;
               Domain.OnlyReliable := false; Domain.Strategy_ := strategy |}]
      ++ List.map (Sent (ChatID msg)) messages /\
    world World st' = w2 /\
    match answer with
    | inl err => messages = [mapErrorToMessage err]
    | inr response =>
        exists rest,
          let formatted := EscapeString (Text response) +:+ rest in
          let text :=
            if String.eqb (formatStrategyIndicator strategy) "" then formatted
            else formatStrategyIndicator strategy +:+ nl +:+ nl +:+ formatted in
          FormatQueryResponse EscapeString response = Some formatted /\
          (Sources response = [] -> rest = EmptyString) /\
          concat_messages messages = text /\
          (text <> EmptyString ->
           List.Forall (fun m => m <> EmptyString) messages)
    end.
Proof.
  intros HA HG HP st'.
  destruct (processQuery_cases now msg question strategy st)
    as (_ & _ & pre & messages & E & _ & Hcase).
  fold st' in E, Hcase. rewrite HA, HG in Hcase. cbn [fst snd] in Hcase.
  destruct Hcase as [(O & _)|[(_ & F & _)|(_ & user' & F & P & W & Hm)]];
    [discriminate | discriminate |].
  injection F as <-.
  rewrite HP in W, Hm. cbn [fst snd] in W, Hm.
  exists messages. rewrite E, P. split; [reflexivity|]. split; [exact W|].
  destruct answer as [err|response]; [exact Hm|].
  destruct Hm as (formatted & Hf & Hcat & Hall).
  destruct (FormatQueryResponse_some response) as (rest & Hf' & Hnil).
  rewrite Hf in Hf'. injection Hf' as ->.
  exists rest. cbn zeta. split; [exact Hf|]. split; [exact Hnil|].
  destruct (String.eqb (formatStrategyIndicator strategy) ""); cbn [negb] in *;
    auto.
Qed.

End HandlerFacts.

Lemma queries_rate_limited_witness :
  Ratelimit.count_within 0 (Ratelimit.Minute - 1)
    (Handler.processed_at 7
       (Handler.effects nat
          (Handler.serve nat (fun s => s) Handler.user_service
             Handler.query_service 2 0%nat Handler.inbox_example)))
  <= 2.
Proof.
  refine (proj1 (queries_rate_limited nat (fun s => s) Handler.user_service
                   Handler.query_service 2 0%nat Handler.inbox_example
                   7 0 (Ratelimit.Minute - 1) _ _)).
  - repeat constructor; vm_compute; discriminate.
  - vm_compute. reflexivity.
Defined.

Lemma reply_delivered_witness :
  exists messages,
    Handler.effects nat
      (Handler.processQueryWithStrategy nat (fun s => s) Handler.user_service
         Handler.query_service 0 (Handler.message_from 7 "rates") "rates"
         Domain.StandardStrategy (Handler.start nat 2 0%nat))
    = [Handler.SentTyping 7;
       Handler.Processed 0 7
         {| Domain.UserID := 107; Domain.Text := "rates";
            Domain.OnlyReliable := false;
            Domain.Strategy_ := Domain.StandardStrategy |}]
      ++ List.map (Handler.Sent 7) messages.
Proof.
  destruct (reply_delivered nat (fun s => s) Handler.user_service
              Handler.query_service 0 (Handler.message_from 7 "rates") "rates"
              Domain.StandardStrategy (Handler.start nat 2 0%nat)
              {| Handler.UserID := 107; Handler.TelegramID := 7;
                 Handler.Username := "reader"; Handler.UserCreatedAt := 0 |}
              0%nat 1%nat (inr QueryService.reply_example))
    as (messages & E & _).
  - vm_compute. reflexivity.
  - reflexivity.
  - reflexivity.
  - exists messages. exact E.
Defined.

(** ** The trust of a result's domain *)

(** C5.  A user has rated the source https://cbr.ru high, so that
    [Process] files high under the domain cbr.ru.  The search returns
    three results from that site.  For the address of each of them
    [Source.Domain] gives cbr.ru; [toSourceRefs] labels the first high
    and the two others medium, because [extractDomain] takes
    cbr.ru?from=rss and HTTPS: to be their domains.  The reply of
    [Process] carries these labels. *)
Theorem rated_domain_labelled_medium :
  let trustMap :=
    snd (QueryService.collect_domains TrustLabels.url_Parse_authority
           [TrustLabels.source_at "https://cbr.ru" Service.TrustHigh]) in
  trustMap !! "cbr.ru" = Some Service.TrustHigh /\
  List.map (fun r => QueryService.Source_Domain TrustLabels.url_Parse_authority
                       (TrustLabels.source_at (Search.URL r) Service.TrustMedium))
    TrustLabels.results_cbr
  = ["cbr.ru"; "cbr.ru"; "cbr.ru"] /\
  List.map Service.extractDomain (List.map Search.URL TrustLabels.results_cbr)
  = ["cbr.ru"; "cbr.ru?from=rss"; "HTTPS:"] /\
  List.map Service.Trust (Service.toSourceRefs TrustLabels.results_cbr trustMap)
  = [Service.TrustHigh; Service.TrustMedium; Service.TrustMedium] /\
  exists resp st,
    TrustLabels.run_cbr = (QueryService.Ok resp, st) /\
    List.map Service.URL (Service.Sources resp)
    = List.map Search.URL TrustLabels.results_cbr /\
    List.map Service.Trust (Service.Sources resp)
    = [Service.TrustHigh; Service.TrustMedium; Service.TrustMedium].
Proof.
  cbv zeta. split; [vm_compute; reflexivity|].
  split; [vm_compute; reflexivity|].
  split; [vm_compute; reflexivity|].
  split; [vm_compute; reflexivity|].
  eexists. eexists. split; [reflexivity|].
  split; vm_compute; reflexivity.
Qed.

(** ** The limit on the sources of a user *)

Section AddStepsFacts.
Import GoStrings Service QueryService SourceStore AddSteps.

Variable url_Parse : string -> option ParsedURL.
Variable visit : gmap Z Source -> list (Z * Source).
Hypothesis visit_spec : Visits visit.

Lemma Add_until_Create_inr (userID : Z) (url : string)
    (m : MockSourceRepository) (source : Source) :
  Add_until_Create url_Parse visit userID url m = inr source ->
  SourceUserID source = userID /\ SourceURL source = url /\
  CountByUser visit userID m < MaxSourcesPerUser.
Proof.
  unfold Add_until_Create. destruct (Source_Validate _ _); [discriminate|].
  destruct (MaxSourcesPerUser <=? CountByUser visit userID m) eqn:E;
    [discriminate|].
  intros H. injection H as <-. apply Z.leb_gt in E. cbn. auto.
Qed.

(** [Add] is its count followed by its [Create]. *)
Lemma Add_two_steps (now userID : Z) (url : string) (m : MockSourceRepository) :
  Add url_Parse visit now userID url m
  = match Add_until_Create url_Parse visit userID url m with
    | inl err => (m, Some err)
    | inr source => Create visit now source m
    end.
Proof.
  unfold Add, Add_until_Create. destruct (Source_Validate _ _); [reflexivity|].
  destruct (MaxSourcesPerUser <=? _); reflexivity.
Qed.

Lemma Create_count (now : Z) (source : Source) (m : MockSourceRepository)
    (u : Z) :
  well_kept m ->
  CountByUser visit u (fst (Create visit now source m))
  = CountByUser visit u m
    + match snd (Create visit now source m) with
      | None => if SourceUserID source =? u then 1 else 0
      | Some _ => 0
      end.
Proof.
  intros Hk. pose proof (Create_lists visit visit_spec now source m u Hk) as Hl.
  rewrite !(CountByUser_ListByUser visit visit_spec), (Permutation_length Hl),
    length_app.
  destruct (snd (Create visit now source m)); [cbn; lia|].
  destruct (SourceUserID source =? u); cbn; lia.
Qed.

Lemma in_flight_insert (u : Z) (g : nat) (source : Source)
    (m : MockSourceRepository) (w : gmap nat Source) :
  w !! g = None ->
  in_flight u {| repo := m; waiting := <[g := source]> w |}
  = in_flight u {| repo := m; waiting := w |}
    + (if SourceUserID source =? u then 1 else 0).
Proof.
  intros Hg. unfold in_flight. cbn [waiting].
  rewrite (filter_length_perm _ _ _ (map_to_list_insert w g source Hg)).
  cbn [List.filter snd]. destruct (SourceUserID source =? u); cbn [length]; lia.
Qed.

Lemma in_flight_delete (u : Z) (g : nat) (source : Source)
    (m m' : MockSourceRepository) (w : gmap nat Source) :
  w !! g = Some source ->
  in_flight u {| repo := m; waiting := w |}
  = in_flight u {| repo := m'; waiting := delete g w |}
    + (if SourceUserID source =? u then 1 else 0).
Proof.
  intros Hg. unfold in_flight. cbn [waiting].
  rewrite <- (filter_length_perm _ _ _ (map_to_list_delete w g source Hg)).
  cbn [List.filter snd]. destruct (SourceUserID source =? u); cbn [length]; lia.
Qed.

Lemma in_flight_nonneg (u : Z) (st : store) : 0 <= in_flight u st.
Proof. unfold in_flight. lia. Qed.

Lemma step_kept (st : store) (o : op) :
  well_kept (repo st) -> well_kept (repo (step url_Parse visit st o)).
Proof.
  intros Hk. destruct o as [g a l|g n|a i|a i t]; cbn [step].
  - destruct (waiting st !! g); [exact Hk|].
    destruct (Add_until_Create _ _ _ _ _); exact Hk.
  - destruct (waiting st !! g); [|exact Hk].
    apply (Create_well_kept visit visit_spec). exact Hk.
  - apply Delete_well_kept. exact Hk.
  - apply UpdateTrustLevel_well_kept. exact Hk.
Qed.

(** One step: the sources of a user and that user's calls under way,
    taken together, grow only by a count that found fewer than the
    limit. *)
Lemma step_total (st : store) (o : op) (u : Z) :
  well_kept (repo st) ->
  let st' := step url_Parse visit st o in
  CountByUser visit u (repo st') + in_flight u st'
  <= CountByUser visit u (repo st) + in_flight u st \/
  (CountByUser visit u (repo st') < MaxSourcesPerUser /\
   CountByUser visit u (repo st') = CountByUser visit u (repo st)).
Proof.
  intros Hk st'. subst st'. destruct st as [m w]. cbn [repo] in Hk.
  destruct o as [g a l|g n|a i|a i t]; cbn [step repo waiting].
  - destruct (w !! g) eqn:Eg; [left; cbn [repo]; lia|].
    destruct (Add_until_Create url_Parse visit a l m) as [err|source] eqn:EA;
      [left; cbn [repo]; lia|].
    destruct (Add_until_Create_inr a l m source EA) as (Hu & _ & Hlt).
    cbn [repo]. destruct (Z.eqb_spec a u) as [->|Hne].
    + right. split; [exact Hlt | reflexivity].
    + left. rewrite (in_flight_insert u g source m w Eg), Hu.
      apply Z.eqb_neq in Hne. rewrite Hne. lia.
  - destruct (w !! g) as [source|] eqn:Eg; [|left; cbn [repo]; lia].
    left. cbn [repo].
    rewrite (Create_count n source m u Hk).
    rewrite (in_flight_delete u g source m (fst (Create visit n source m)) w Eg).
    destruct (snd (Create visit n source m));
      destruct (SourceUserID source =? u); lia.
  - left. cbn [repo]. pose proof (Delete_count visit visit_spec a i m u) as Hd.
    unfold Remove.
    change (in_flight u {| repo := fst (Delete a i m); waiting := w |})
      with (in_flight u {| repo := m; waiting := w |}).
    lia.
  - left. cbn [repo]. unfold SetTrustLevel.
    rewrite (UpdateTrustLevel_count visit visit_spec).
    change (in_flight u {| repo := fst (UpdateTrustLevel a i t m); waiting := w |})
      with (in_flight u {| repo := m; waiting := w |}).
    lia.
Qed.

Lemma peak_first (u : Z) (st : store) (ops : list op) :
  in_flight u st <= peak url_Parse visit u st ops.
Proof. destruct ops; cbn [peak]; lia. Qed.

Lemma run_total (u : Z) (ops : list op) : forall (st : store) (B : Z),
  well_kept (repo st) ->
  CountByUser visit u (repo st) + in_flight u st <= MaxSourcesPerUser - 1 + B ->
  let st' := run_from url_Parse visit st ops in
  CountByUser visit u (repo st') + in_flight u st'
  <= MaxSourcesPerUser - 1
     + Z.max B (peak url_Parse visit u st ops).
Proof.
  induction ops as [|o ops IH]; intros st B Hk Hb; cbn [run_from fold_left peak].
  - cbv zeta. lia.
  - cbv zeta. fold (run_from url_Parse visit (step url_Parse visit st o) ops).
    pose proof (step_kept st o Hk) as Hk'.
    pose proof (peak_first u (step url_Parse visit st o) ops) as Hp.
    destruct (step_total st o u Hk) as [Hle|[Hlt _]].
    + pose proof (IH (step url_Parse visit st o) B Hk' ltac:(lia)) as H.
      cbv zeta in H. lia.
    + pose proof (IH (step url_Parse visit st o)
                    (in_flight u (step url_Parse visit st o)) Hk' ltac:(lia))
        as H.
      cbv zeta in H. lia.
Qed.

Lemma serial_step (e : event) (m : MockSourceRepository) (u : Z) :
  is_import e = false ->
  run_from url_Parse visit {| repo := m; waiting := ∅ |} (serial e)
  = {| repo := SourceStore.step url_Parse visit m e; waiting := ∅ |} /\
  forall rest,
    peak url_Parse visit u {| repo := m; waiting := ∅ |}
      (serial e ++ rest)
    <= Z.max 1
         (peak url_Parse visit u
            {| repo := SourceStore.step url_Parse visit m e; waiting := ∅ |}
            rest).
Proof.
  intros Hi.
  assert (H0 : forall m', in_flight u {| repo := m'; waiting := ∅ |} = 0).
  { intros m'. unfold in_flight. cbn [waiting]. rewrite map_to_list_empty.
    reflexivity. }
  destruct e as [n a l|a i|a i t|n a l]; [| | |discriminate];
    cbn [serial run_from fold_left app peak step waiting repo SourceStore.step].
  - rewrite lookup_empty, Add_two_steps.
    destruct (Add_until_Create url_Parse visit a l m) as [err|source] eqn:EA;
      cbn [waiting repo fst].
    + rewrite lookup_empty. split; [reflexivity|]. intros rest.
      rewrite !H0. lia.
    + rewrite lookup_insert_eq. cbn [waiting repo].
      rewrite delete_insert_eq, delete_empty. split; [reflexivity|].
      intros rest.
      rewrite (in_flight_insert u 0 source m ∅ (lookup_empty _)), !H0.
      destruct (SourceUserID source =? u); lia.
  - split; [reflexivity|]. intros rest. rewrite !H0. lia.
  - split; [reflexivity|]. intros rest. rewrite !H0. lia.
Qed.

Lemma serial_run (u : Z) (es : list event) : forall m : MockSourceRepository,
  forallb (fun e => negb (is_import e)) es = true ->
  run_from url_Parse visit {| repo := m; waiting := ∅ |}
    (concat (List.map serial es))
  = {| repo := fold_left (SourceStore.step url_Parse visit) es m; waiting := ∅ |} /\
  peak url_Parse visit u {| repo := m; waiting := ∅ |}
    (concat (List.map serial es)) <= 1.
Proof.
  induction es as [|e es IH]; intros m Hes; cbn [List.map concat fold_left].
  - split; [reflexivity|]. cbn [peak]. unfold in_flight. cbn [waiting].
    rewrite map_to_list_empty. cbn. lia.
  - cbn [forallb] in Hes. apply andb_true_iff in Hes. destruct Hes as [He Hes].
    apply negb_true_iff in He.
    destruct (serial_step e m u He) as [Hr Hp].
    destruct (IH (SourceStore.step url_Parse visit m e) Hes) as [IH1 IH2].
    split.
    + unfold run_from in *. rewrite fold_left_app, Hr. exact IH1.
    + specialize (Hp (concat (List.map serial es))). lia.
Qed.

(** X22.  [Add] does not keep a user to 100 sources when calls of [Add] run
    side by side: it counts under one lock and creates under another.
    What holds for every order of the steps, from the empty repository
    on, is that the sources of a user and that user's calls between
    count and [Create] are together at most 99 plus the largest number
    of such calls under way at one time.  Calls that run one after the
    other are the run with at most one call under way, so 100 is kept
    then.  And two calls that both count before either creates take a
    user from 99 sources to 101. *)
Theorem Add_limit_interleaved :
  (forall (ops : list op) (u : Z),
     let st := run_from url_Parse visit start ops in
     CountByUser visit u (repo st) + in_flight u st
     <= MaxSourcesPerUser - 1
        + Z.max 1 (peak url_Parse visit u start ops)) /\
  (forall (es : list event) (u : Z),
     forallb (fun e => negb (is_import e)) es = true ->
     run_from url_Parse visit start (concat (List.map serial es))
     = {| repo := SourceStore.run url_Parse visit es; waiting := ∅ |} /\
     peak url_Parse visit u start (concat (List.map serial es)) <= 1 /\
     CountByUser visit u (SourceStore.run url_Parse visit es)
     <= MaxSourcesPerUser) /\
  (forall (m : MockSourceRepository) (u : Z) (url1 url2 : string)
          (s1 s2 : Source) (now1 now2 : Z) (g1 g2 : nat),
     well_kept m ->
     CountByUser visit u m = MaxSourcesPerUser - 1 ->
     Add_until_Create url_Parse visit u url1 m = inr s1 ->
     Add_until_Create url_Parse visit u url2 m = inr s2 ->
     url1 <> url2 -> g1 <> g2 ->
     ExistsByURL visit u url1 m = false ->
     ExistsByURL visit u url2 m = false ->
     let st := run_from url_Parse visit {| repo := m; waiting := ∅ |}
                 [OpAddCount g1 u url1; OpAddCount g2 u url2;
                  OpAddCreate g1 now1; OpAddCreate g2 now2] in
     CountByUser visit u (repo st) = MaxSourcesPerUser + 1 /\
     waiting st = ∅).
Proof.
  assert (Hstart : well_kept (repo start)).
  { split; cbn; intros; rewrite lookup_empty in *; discriminate. }
  assert (Hzero : forall u, CountByUser visit u (repo start) = 0).
  { intros u. rewrite (CountByUser_length visit visit_spec). cbn.
    rewrite map_to_list_empty. reflexivity. }
  assert (Hnone : forall u, in_flight u start = 0).
  { intros u. unfold in_flight. cbn. rewrite map_to_list_empty. reflexivity. }
  split; [|split].
  - intros ops u st.
    apply (run_total u ops start 1 Hstart).
    rewrite Hzero, Hnone. unfold MaxSourcesPerUser. lia.
  - intros es u Hes.
    destruct (serial_run u es NewMockSourceRepository Hes) as [Hr Hp].
    change {| repo := NewMockSourceRepository; waiting := ∅ |} with start
      in Hr, Hp.
    split; [exact Hr|]. split; [exact Hp|].
    pose proof (run_total u (concat (List.map serial es)) start 1 Hstart) as H.
    rewrite Hzero, Hnone in H. specialize (H ltac:(unfold MaxSourcesPerUser; lia)).
    cbv zeta in H. rewrite Hr in H. cbn [repo] in H.
    match type of H with
    | _ + in_flight u ?s <= _ => pose proof (in_flight_nonneg u s)
    end.
    unfold SourceStore.run. lia.
  - intros m u url1 url2 s1 s2 now1 now2 g1 g2 Hk Hc H1 H2 Hurl Hg E1 E2 st.
    subst st.
    destruct (Add_until_Create_inr u url1 m s1 H1) as (U1 & L1 & _).
    destruct (Add_until_Create_inr u url2 m s2 H2) as (U2 & L2 & _).
    cbn [run_from fold_left step waiting repo].
    rewrite lookup_empty, H1. cbn [waiting repo].
    rewrite lookup_insert_ne by exact Hg. rewrite lookup_empty, H2.
    cbn [waiting repo].
    rewrite lookup_insert_ne by (intros E; apply Hg; symmetry; exact E).
    rewrite lookup_insert_eq. cbn [waiting repo].
    rewrite lookup_delete_ne by exact Hg. rewrite lookup_insert_eq.
    cbn [waiting repo].
    assert (C1 : Create visit now1 s1 m
                 = ({| sources := <[nextID m := with_ID s1 (nextID m) now1]> (sources m);
                       nextID := nextID m + 1 |}, None)).
    { unfold Create. fold (ExistsByURL visit (SourceUserID s1) (SourceURL s1) m).
      rewrite U1, L1, E1. reflexivity. }
    pose proof (Create_count now1 s1 m u Hk) as N1.
    pose proof (Create_well_kept visit visit_spec now1 s1 m Hk) as Hk1.
    rewrite C1 in N1, Hk1 |- *. cbn [fst snd] in N1, Hk1 |- *.
    set (m1 := {| sources := <[nextID m := with_ID s1 (nextID m) now1]> (sources m);
                  nextID := nextID m + 1 |}) in *.
    assert (E2' : ExistsByURL visit u url2 m1 = false).
    { destruct (ExistsByURL visit u url2 m1) eqn:E; [|reflexivity].
      apply (ExistsByURL_spec visit visit_spec) in E.
      destruct E as (k & s & Hks & Hsu & Hsl). cbn [sources m1] in Hks.
      destruct (decide (k = nextID m)) as [->|Hne].
      - rewrite lookup_insert_eq in Hks. injection Hks as <-.
        cbn in Hsl. congruence.
      - rewrite lookup_insert_ne in Hks by (intros E; apply Hne; symmetry; exact E).
        assert (Ex : ExistsByURL visit u url2 m = true).
        { apply (ExistsByURL_spec visit visit_spec). exists k, s. auto. }
        congruence. }
    assert (C2 : snd (Create visit now2 s2 m1) = None).
    { unfold Create. fold (ExistsByURL visit (SourceUserID s2) (SourceURL s2) m1).
      rewrite U2, L2, E2'. reflexivity. }
    pose proof (Create_count now2 s2 m1 u Hk1) as N2.
    rewrite C2 in N2. rewrite U1, Z.eqb_refl in N1. rewrite U2, Z.eqb_refl in N2.
    split; [lia|].
    rewrite (delete_insert_ne _ g1 g2) by congruence.
    rewrite !delete_insert_eq, !delete_empty. reflexivity.
Qed.

End AddStepsFacts.

Lemma Add_limit_interleaved_witness :
  let m := SourceStore.run SourceStore.url_Parse_https map_to_list
             AddSteps.events_99 in
  SourceStore.CountByUser map_to_list 7 m = 99 /\
  let st := AddSteps.run_from SourceStore.url_Parse_https map_to_list
              {| AddSteps.repo := m; AddSteps.waiting := ∅ |}
              AddSteps.ops_two_more in
  SourceStore.CountByUser map_to_list 7 (AddSteps.repo st) = 101 /\
  AddSteps.waiting st = ∅.
Proof.
  cbv zeta.
  assert (Hc : SourceStore.CountByUser map_to_list 7
                 (SourceStore.run SourceStore.url_Parse_https map_to_list
                    AddSteps.events_99) = 99)
    by (vm_compute; reflexivity).
  split; [exact Hc|].
  refine (proj2 (proj2 (Add_limit_interleaved SourceStore.url_Parse_https
                          map_to_list map_to_list_Visits))
            _ 7 (AddSteps.site 100) (AddSteps.site 101) _ _ 100 101 1%nat 2%nat
            _ Hc _ _ _ _ _ _).
  - apply (run_well_kept SourceStore.url_Parse_https map_to_list
             map_to_list_Visits).
  - vm_compute. reflexivity.
  - vm_compute. reflexivity.
  - vm_compute. discriminate.
  - discriminate.
  - vm_compute. reflexivity.
  - vm_compute. reflexivity.
Defined.
